(** * update_models.py: leaderboard fetcher, mapping resolver, config updater

    A shallow embedding of [scripts/update_models.py].  The script is
    sequential glue around three libraries (requests, json/re, PyYAML); the
    libraries are taken as an environment and the script's own control flow,
    data flow and object mutation are modelled as written. *)

From stdpp Require Import base option list strings gmap.
From Stdlib Require Import ZArith Ascii.

Open Scope string_scope.
Open Scope list_scope.
Set Warnings "-register-all".

(** ** Configuration constants *)

Definition TOP_N : nat := 30.

(** ** JSON values, as [json.loads] / [resp.json()] return them.

    An object holds the items of the Python dict in insertion order (keys
    are unique there).  Numbers are the integer literals; a float is to
    this script what an integer is (a truth value, a hashable key) and is
    left out. *)

Inductive json : Type :=
  | JNull
  | JBool (b : bool)
  | JNum (z : Z)
  | JStr (s : string)
  | JArr (xs : list json)
  | JObj (kvs : list (string * json)).

(** Python truth value of a JSON value ([if m], [a or b]). *)
Definition truthy (v : json) : bool :=
  match v with
  | JNull => false
  | JBool b => b
  | JNum z => negb (Z.eqb z 0)
  | JStr s => negb (String.eqb s "")
  | JArr xs => match xs with [] => false | _ => true end
  | JObj kvs => match kvs with [] => false | _ => true end
  end.

Fixpoint assoc {A : Type} (k : string) (kvs : list (string * A)) : option A :=
  match kvs with
  | [] => None
  | (k', v) :: rest => if String.eqb k k' then Some v else assoc k rest
  end.

(** [d.get(k)] and [d.get(k, default)] on a dict. *)
Definition dict_get (kvs : list (string * json)) (k : string) (default : json) : json :=
  match assoc k kvs with Some v => v | None => default end.

(** ** Exceptions

    The exceptions the script can meet, and a computation that returns or
    raises. *)

Inductive exn : Type :=
  | AttributeError
  | KeyError
  | TypeError
  | OSError
  | ParseError.

Inductive result (A : Type) : Type :=
  | Ok (a : A)
  | Raise (e : exn).
Arguments Ok {A} a.
Arguments Raise {A} e.

Definition bind {A B : Type} (r : result A) (k : A -> result B) : result B :=
  match r with
  | Ok a => k a
  | Raise e => Raise e
  end.

Global Instance result_ret : MRet result := fun A a => Ok a.
Global Instance result_bind : MBind result := fun A B k r => bind r k.

Module Fetcher.

(** What a [requests.get] call can do: raise (transport error, timeout) or
    give a response with a status and a body. *)
Inductive response : Type :=
  | ConnError
  | Resp (status_ok : bool) (text : string).

(** The two remote sources and the library functions the fetcher calls on
    their bodies: [json.loads] (None: it raises), the [re.search] for the
    __NEXT_DATA__ blob (its group 1), the [re.findall] of the model_name
    pattern. *)
Record Env : Type := mkEnv {
  api : response;
  page : response;
  json_loads : string -> option json;
  search_next_data : string -> option string;
  findall_model_name : string -> list string
}.

(** Observable steps of one call of [fetch_leaderboard]. *)
Inductive event : Type :=
  | GetApi
  | GetPage
  | WarnApiFailed
  | SearchBlob
  | LoadsBlob
  | WarnPageParse
  | FindallNames
  | ErrorFallbackFailed.

Global Instance event_eq_dec : EqDecision event.
Proof. solve_decision. Defined.

(** How a [try] body ends: a [return], falling out of its end, or an
    exception (which the [except Exception] clause catches). *)
Inductive attempt (A : Type) : Type :=
  | Returned (a : A)
  | FellThrough
  | Raised.
Arguments Returned {A} a.
Arguments FellThrough {A}.
Arguments Raised {A}.

(** [item.get("model") or item.get("name", "")]; [.get] exists on dicts
    only, anything else raises AttributeError. *)
Definition record_name (item : json) : option json :=
  match item with
  | JObj kvs =>
      let m := dict_get kvs "model" JNull in
      if truthy m then Some m else Some (dict_get kvs "name" (JStr ""))
  | _ => None
  end.

(** The list comprehension over [data[:TOP_N]]: raises as soon as one item
    does. *)
Fixpoint record_names (items : list json) : option (list json) :=
  match items with
  | [] => Some []
  | item :: rest =>
      match record_name item with
      | None => None
      | Some m =>
          match record_names rest with
          | None => None
          | Some ms => Some (m :: ms)
          end
      end
  end.

(** Lines 26-34: the body of the first [try]. *)
Definition primary (e : Env) : attempt (list json) * list event :=
  match api e with
  | ConnError => (Raised, [GetApi])
  | Resp false _ => (Raised, [GetApi])
  | Resp true text =>
      match json_loads e text with
      | None => (Raised, [GetApi])
      | Some (JArr data) =>
          match record_names (take TOP_N data) with
          | None => (Raised, [GetApi])
          | Some models => (Returned (filter (fun m => truthy m = true) models), [GetApi])
          end
      | Some _ => (FellThrough, [GetApi])
      end
  end.

(** Lines 38-51: the body of the second [try]. *)
Definition fallback (e : Env) : attempt (list json) * list event :=
  match page e with
  | ConnError => (Raised, [GetPage])
  | Resp false _ => (Raised, [GetPage])
  | Resp true text =>
      let names (pre : list event) :=
        let model_pattern := findall_model_name e text in
        match model_pattern with
        | [] => (FellThrough, pre ++ [FindallNames])
        | _ => (Returned (JStr <$> take TOP_N model_pattern), pre ++ [FindallNames])
        end in
      match search_next_data e text with
      | Some blob =>
          match json_loads e blob with
          | None => (Raised, [GetPage; SearchBlob; LoadsBlob])
          | Some _ => names [GetPage; SearchBlob; LoadsBlob; WarnPageParse]
          end
      | None => names [GetPage; SearchBlob]
      end
  end.

(** [fetch_leaderboard]: the names it returns and the steps it took. *)
Definition fetch_leaderboard (e : Env) : list json * list event :=
  match primary e with
  | (Returned models, t1) => (models, t1)
  | (r1, t1) =>
      let t1' := match r1 with Raised => t1 ++ [WarnApiFailed] | _ => t1 end in
      match fallback e with
      | (Returned models, t2) => (models, t1' ++ t2)
      | (Raised, t2) => ([], t1' ++ t2 ++ [ErrorFallbackFailed])
      | (FellThrough, t2) => ([], t1' ++ t2)
      end
  end.

(** The reading of the fetch contract in the specification: the first
    [TOP_N] non-empty names of the whole array. *)
Definition first_top_n_nonempty (names : list json) : list json :=
  take TOP_N (filter (fun m => truthy m = true) names).

Definition is_record (item : json) : Prop :=
  match item with JObj _ => True | _ => False end.

Global Instance is_record_dec item : Decision (is_record item).
Proof. destruct item; simpl; apply _. Defined.


(** An answer of 31 records whose first record has an empty name. *)
Definition c5_data : list json :=
  JObj [("model", JStr ""); ("name", JStr "")]
    :: replicate 30 (JObj [("rank", JNum 1); ("model", JStr "GPT-5.2 Pro")]).

Definition c5_env : Env :=
  mkEnv (Resp true "[...]") ConnError (fun _ => Some (JArr c5_data))
        (fun _ => None) (fun _ => []).

(** A page whose embedded blob is not JSON but which carries model names. *)
Definition c6_env : Env :=
  mkEnv ConnError (Resp true "<html>") (fun _ => None)
        (fun _ => Some "{broken") (fun _ => ["GPT-5.2 Pro"; "Claude"]).


End Fetcher.

(** ** Python objects: the document that [yaml.safe_load] builds

    Containers are objects in a store and are held by reference, so that
    two places of a document written with a YAML anchor and alias are one
    dict, and the list of a provider group assigned to several endpoints
    is one list.  Scalars are immutable and held by value.  Dict keys are
    the string keys; the script reads and writes no other key. *)

Module Py.

Abbreviation loc := nat.

Inductive val : Type :=
  | VNone
  | VBool (b : bool)
  | VInt (z : Z)
  | VStr (s : string)
  | VRef (l : loc).

Inductive obj : Type :=
  | ODict (items : list (string * val))
  | OList (elems : list val).

Abbreviation heap := (list obj).

Global Instance val_eq_dec : EqDecision val.
Proof. solve_decision. Defined.

Global Instance obj_eq_dec : EqDecision obj.
Proof. solve_decision. Defined.

(** [d[k] = v] on the items of a dict: an existing key keeps its place, a
    new key goes last. *)
Fixpoint set_item (k : string) (v : val) (items : list (string * val))
  : list (string * val) :=
  match items with
  | [] => [(k, v)]
  | (k', v') :: rest =>
      if String.eqb k k' then (k, v) :: rest else (k', v') :: set_item k v rest
  end.

Definition has_key {A : Type} (k : string) (items : list (string * A)) : bool :=
  match assoc k items with Some _ => true | None => false end.

(** [k in c] for a string [k]. *)
Definition py_contains (h : heap) (c : val) (k : string) : result bool :=
  match c with
  | VStr s => Ok (match String.index 0 k s with Some _ => true | None => false end)
  | VRef l =>
      match h !! l with
      | Some (ODict items) => Ok (has_key k items)
      | Some (OList elems) => Ok (bool_decide (VStr k ∈ elems))
      | None => Raise TypeError
      end
  | _ => Raise TypeError
  end.

(** [c[k]] for a string [k]. *)
Definition py_getitem (h : heap) (c : val) (k : string) : result val :=
  match c with
  | VRef l =>
      match h !! l with
      | Some (ODict items) =>
          match assoc k items with Some v => Ok v | None => Raise KeyError end
      | _ => Raise TypeError
      end
  | _ => Raise TypeError
  end.

(** [c[k] = v] for a string [k]: the dict [c] is changed in place. *)
Definition py_setitem (h : heap) (c : val) (k : string) (v : val) : result heap :=
  match c with
  | VRef l =>
      match h !! l with
      | Some (ODict items) => Ok (<[l := ODict (set_item k v items)]> h)
      | _ => Raise TypeError
      end
  | _ => Raise TypeError
  end.

(** [c.get(k, default)]: only dicts have [get]. *)
Definition py_get (h : heap) (c : val) (k : string) (default : val) : result val :=
  match c with
  | VRef l =>
      match h !! l with
      | Some (ODict items) =>
          Ok (match assoc k items with Some v => v | None => default end)
      | _ => Raise AttributeError
      end
  | _ => Raise AttributeError
  end.

Fixpoint chars (s : string) : list val :=
  match s with
  | EmptyString => []
  | String a rest => VStr (String a EmptyString) :: chars rest
  end.

(** The elements [for x in c] goes through. *)
Definition py_iter (h : heap) (c : val) : result (list val) :=
  match c with
  | VStr s => Ok (chars s)
  | VRef l =>
      match h !! l with
      | Some (ODict items) => Ok ((fun kv => VStr kv.1) <$> items)
      | Some (OList elems) => Ok elems
      | None => Raise TypeError
      end
  | _ => Raise TypeError
  end.

(** A provider group inside [update_yaml]: the list object and its ids. *)
Definition group : Type := (loc * list string)%type.

(** [name in provider_models] followed by [provider_models[name]]: lists
    and dicts are unhashable, other non-string keys are simply absent. *)
Definition lookup_group (pm : list (string * group)) (name : val)
  : result (option group) :=
  match name with
  | VStr s => Ok (assoc s pm)
  | VRef _ => Raise TypeError
  | _ => Ok None
  end.

(** [len(models) > 1]. *)
Definition more_than_one (ids : list string) : bool :=
  match ids with _ :: _ :: _ => true | _ => false end.

Definition nonempty (ids : list string) : bool :=
  match ids with [] => false | _ => true end.

(** [models[-1]] of a non-empty list. *)
Definition last_id (ids : list string) : string := List.last ids "".

(** Lines 84-86: the two assignments to a custom entry [endpoint]. *)
Definition assign_models (h : heap) (endpoint : val) (g : group) : result heap :=
  m ← py_getitem h endpoint "models";
  h1 ← py_setitem h m "default" (VRef g.1);
  if more_than_one g.2
  then py_setitem h1 endpoint "titleModel" (VStr (last_id g.2))
  else Ok h1.

(** Lines 73-77: the same for a built-in endpoint, where the source
    evaluates [endpoints[builtin]] once per assignment. *)
Definition assign_builtin (h : heap) (endpoints : val) (builtin : string)
  (g : group) : result heap :=
  ep ← py_getitem h endpoints builtin;
  m ← py_getitem h ep "models";
  h1 ← py_setitem h m "default" (VRef g.1);
  if more_than_one g.2
  then ep' ← py_getitem h1 endpoints builtin;
       py_setitem h1 ep' "titleModel" (VStr (last_id g.2))
  else Ok h1.

(** Lines 71-77: the loop over the built-in endpoints. *)
Fixpoint update_builtins (pm : list (string * group)) (endpoints : val)
  (names : list string) (h : heap) : result heap :=
  match names with
  | [] => Ok h
  | builtin :: rest =>
      present ← py_contains h endpoints builtin;
      h1 ← match present, assoc builtin pm with
            | true, Some g =>
                if nonempty g.2 then assign_builtin h endpoints builtin g else Ok h
            | _, _ => Ok h
            end;
      update_builtins pm endpoints rest h1
  end.

(** Lines 81-86: the loop over the entries of the custom list. *)
Fixpoint update_customs (pm : list (string * group)) (entries : list val)
  (h : heap) : result heap :=
  match entries with
  | [] => Ok h
  | endpoint :: rest =>
      name ← py_get h endpoint "name" (VStr "");
      og ← lookup_group pm name;
      h1 ← match og with
            | Some g => if nonempty g.2 then assign_models h endpoint g else Ok h
            | None => Ok h
            end;
      update_customs pm rest h1
  end.

Definition BUILTINS : list string := ["openAI"; "anthropic"].

(** The group lists exist as objects before the document is used. *)
Fixpoint alloc_groups (h : heap) (pm : list (string * list string))
  : heap * list (string * group) :=
  match pm with
  | [] => (h, [])
  | (p, ids) :: rest =>
      let '(h', gs) := alloc_groups (h ++ [OList (VStr <$> ids)]) rest in
      (h', (p, (length h, ids)) :: gs)
  end.

(** Lines 70-88 of [update_yaml]: the two loops and the assignment of
    line 88, once [endpoints] has been read. *)
Definition update_endpoints (groups : list (string * group))
  (config endpoints : val) (h1 : heap) : result heap :=
  h2 ← update_builtins groups endpoints BUILTINS h1;
  has_custom ← py_contains h2 endpoints "custom";
  h3 ← (if has_custom : bool
         then c ← py_getitem h2 endpoints "custom";
              entries ← py_iter h2 c;
              update_customs groups entries h2
         else Ok h2);
  py_setitem h3 config "endpoints" endpoints.

(** Lines 68-88 of [update_yaml], on the loaded document [config]. *)
Definition update_config (h : heap) (config : val)
  (pm : list (string * list string)) : result heap :=
  let '(h0, groups) := alloc_groups h pm in
  let h1 := h0 ++ [ODict []] in
  endpoints ← py_get h1 config "endpoints" (VRef (length h0));
  update_endpoints groups config endpoints h1.

(** *** Reading a document *)

(** The value of the key [k] of the dict at [l]. *)
Definition field (h : heap) (l : loc) (k : string) : option val :=
  match h !! l with
  | Some (ODict items) => assoc k items
  | _ => None
  end.

(** The objects that the update of the endpoint [e] writes to: its dict and
    its [models] dict. *)
Definition footprint (h : heap) (e : val) : list loc :=
  match e with
  | VRef ep =>
      ep :: match field h ep "models" with
            | Some (VRef m) => [m]
            | _ => []
            end
  | _ => []
  end.

(** The group the loops apply to an endpoint: a group that is there and
    not empty. *)
Definition usable (og : option group) : option group :=
  match og with
  | Some g => if nonempty g.2 then Some g else None
  | None => None
  end.

Definition builtin_group (pm : list (string * group)) (builtin : string) : option group :=
  usable (assoc builtin pm).

Definition custom_group (pm : list (string * group)) (h : heap) (e : val) : option group :=
  match py_get h e "name" (VStr "") with
  | Ok name =>
      match lookup_group pm name with
      | Ok og => usable og
      | Raise _ => None
      end
  | Raise _ => None
  end.

(** The state of an endpoint [e] that has received the group [g], between
    the store [h] before and the store [h'] after: its [models] dict is the
    same object and has the list of the group as [default], every other
    key of the two dicts is kept, and [titleModel] is the last id when the
    group has more than one id; with fewer ids the endpoint's dict is the
    one it was. *)
Definition endpoint_updated (h h' : heap) (e : val) (g : group) : Prop :=
  exists ep m,
    e = VRef ep
    /\ footprint h e = [ep; m]
    /\ field h' ep "models" = Some (VRef m)
    /\ field h' m "default" = Some (VRef g.1)
    /\ (forall k, k <> "default" -> field h' m k = field h m k)
    /\ (forall k, k <> "titleModel" -> field h' ep k = field h ep k)
    /\ if more_than_one g.2
       then field h' ep "titleModel" = Some (VStr (last_id g.2))
       else h' !! ep = h !! ep.

(** *** The endpoints of a document *)

(** The [endpoints] dict of the document [config]. *)
Definition endpoints_dict (h : heap) (config : val)
  : option (loc * list (string * val)) :=
  match config with
  | VRef c =>
      match field h c "endpoints" with
      | Some (VRef el) =>
          match h !! el with
          | Some (ODict eitems) => Some (el, eitems)
          | _ => None
          end
      | _ => None
      end
  | _ => None
  end.

(** The built-in endpoints that are present, and the entries of the
    [custom] list. *)
Definition builtin_entries (eitems : list (string * val)) : list val :=
  omap (fun b => assoc b eitems) BUILTINS.

Definition custom_entries (h : heap) (eitems : list (string * val)) : list val :=
  match assoc "custom" eitems with
  | Some c => match py_iter h c with Ok entries => entries | Raise _ => [] end
  | None => []
  end.

(** The ids matched for a provider name, when there are some. *)
Definition matched_ids (pm : list (string * list string)) (name : string)
  : option (list string) :=
  match assoc name pm with
  | Some ids => if nonempty ids then Some ids else None
  | None => None
  end.

(** The ids matched for a custom entry, through its [name]. *)
Definition custom_ids (pm : list (string * list string)) (h : heap) (e : val)
  : option (list string) :=
  match py_get h e "name" (VStr "") with
  | Ok (VStr s) => matched_ids pm s
  | _ => None
  end.

(** An endpoint of the document and the ids matched for it. *)
Definition receives (pm : list (string * list string)) (h : heap)
  (eitems : list (string * val)) (e : val) (ids : list string) : Prop :=
  (exists b, b ∈ BUILTINS /\ assoc b eitems = Some e /\ matched_ids pm b = Some ids)
  \/ (e ∈ custom_entries h eitems /\ custom_ids pm h e = Some ids).

(** A store is closed when every reference held by one of its objects
    names an object of the store, as in a loaded document. *)
Definition vals_of (o : obj) : list val :=
  match o with
  | ODict items => snd <$> items
  | OList elems => elems
  end.

Definition in_store (h : heap) (v : val) : Prop :=
  match v with
  | VRef l => l < length h
  | _ => True
  end.

Global Instance in_store_dec h v : Decision (in_store h v).
Proof. destruct v; simpl; apply _. Defined.

Definition closed (h : heap) : Prop :=
  Forall (fun o => Forall (in_store h) (vals_of o)) h.

(** The object of the [custom] value, when it is a reference. *)
Definition custom_loc (eitems : list (string * val)) : list loc :=
  match assoc "custom" eitems with
  | Some (VRef cl) => [cl]
  | _ => []
  end.

(** No sharing between endpoints: the root dict, the [endpoints] dict, the
    [custom] list, the dict of every endpoint and its [models] dict are
    all different objects.  A document written without YAML aliases is
    like that. *)
Definition separated (h : heap) (config : val) : Prop :=
  match config, endpoints_dict h config with
  | VRef c, Some (el, eitems) =>
      NoDup (c :: el :: custom_loc eitems
               ++ mjoin (footprint h <$> (builtin_entries eitems ++ custom_entries h eitems)))
  | _, _ => True
  end.

Global Instance separated_dec h config : Decision (separated h config).
Proof.
  unfold separated. destruct config; try apply _.
  destruct (endpoints_dict h (VRef l)) as [[el eitems]|]; apply _.
Defined.

(** [endpoints.<e>.models.default], read as the elements of a list. *)
Definition models_default (h : heap) (e : val) : option (list val) :=
  match e with
  | VRef ep =>
      match field h ep "models" with
      | Some (VRef m) =>
          match field h m "default" with
          | Some (VRef d) =>
              match h !! d with
              | Some (OList elems) => Some elems
              | _ => None
              end
          | _ => None
          end
      | _ => None
      end
  | _ => None
  end.

(** [endpoints.<e>.titleModel]. *)
Definition title_model (h : heap) (e : val) : option val :=
  match e with
  | VRef ep => field h ep "titleModel"
  | _ => None
  end.

(** *** The same document in two stores

    [yaml.safe_load] chooses the objects it builds; two stores hold the
    same document when a renaming of the objects, one to one on the
    objects of the document, turns one into the other. *)

Definition vmap (rho : loc -> loc) (v : val) : val :=
  match v with
  | VRef l => VRef (rho l)
  | _ => v
  end.

Definition item_map (rho : loc -> loc) (kv : string * val) : string * val :=
  (kv.1, vmap rho kv.2).

Definition obj_map (rho : loc -> loc) (o : obj) : obj :=
  match o with
  | ODict items => ODict (item_map rho <$> items)
  | OList elems => OList (vmap rho <$> elems)
  end.

Definition in_dom (D : loc -> Prop) (v : val) : Prop :=
  match v with
  | VRef l => D l
  | _ => True
  end.

(** Every object of [D] in [hA] is, renamed, the object of [hB] at the
    renamed place, and refers to objects of [D] only. *)
Definition sim (D : loc -> Prop) (rho : loc -> loc) (hA hB : heap) : Prop :=
  forall l, D l ->
    exists o, hA !! l = Some o /\ hB !! rho l = Some (obj_map rho o)
              /\ Forall (in_dom D) (vals_of o).

Definition inj_on (D : loc -> Prop) (rho : loc -> loc) : Prop :=
  forall l l', D l -> D l' -> rho l = rho l' -> l = l'.

Definition iso (hA : heap) (vA : val) (hB : heap) (vB : val) : Prop :=
  exists D rho, sim D rho hA hB /\ inj_on D rho /\ in_dom D vA /\ vB = vmap rho vA.

(** The keys the updater assigns to. *)
Definition written_key (k : string) : bool :=
  String.eqb k "default" || String.eqb k "titleModel" || String.eqb k "endpoints".

(** What the updater reads of an object on its way to the endpoints: the
    items under the keys it never assigns to, and the elements of a
    list. *)
Definition erase (items : list (string * val)) : list (string * val) :=
  filter (fun kv => written_key kv.1 = false) items.

Definition nav_obj (o : obj) : obj :=
  match o with
  | ODict items => ODict (erase items)
  | OList elems => OList elems
  end.

Definition nav_sim (D : loc -> Prop) (rho : loc -> loc) (hA hB : heap) : Prop :=
  forall l, D l ->
    exists oA oB, hA !! l = Some oA /\ hB !! rho l = Some oB
                  /\ nav_obj oB = obj_map rho (nav_obj oA)
                  /\ Forall (in_dom D) (vals_of (nav_obj oA)).

(** The assignments of a run, in order: the dict, the key, the value. *)
Definition write : Type := (loc * string * val)%type.

Definition write1 (h : heap) (w : write) : heap :=
  match h !! w.1.1 with
  | Some (ODict items) => <[w.1.1 := ODict (set_item w.1.2 w.2 items)]> h
  | _ => h
  end.

Definition exec (ws : list write) (h : heap) : heap := fold_left write1 ws h.

Definition wmap (rho : loc -> loc) (w : write) : write :=
  (rho w.1.1, w.1.2, vmap rho w.2).

Definition rmap {A B : Type} (f : A -> B) (r : result A) : result B :=
  match r with
  | Ok a => Ok (f a)
  | Raise e => Raise e
  end.

(** The groups of two runs: the same providers and ids, the lists renamed. *)
Definition group_map (rho : loc -> loc) (g : group) : group := (rho g.1, g.2).

(** An assignment of a run on the objects of [D]. *)
Definition good_write (D : loc -> Prop) (w : write) : Prop :=
  D w.1.1 /\ written_key w.1.2 = true /\ in_dom D w.2.

Definition groups_map (rho : loc -> loc) (gs : list (string * group))
  : list (string * group) :=
  (fun pg => (pg.1, group_map rho pg.2)) <$> gs.

(** The assignments of a log to the dict at [l], and their effect on its
    items. *)
Definition writes_at (l : loc) (ws : list write) : list (string * val) :=
  omap (fun w : write => if decide (w.1.1 = l) then Some (w.1.2, w.2) else None) ws.

Definition setall (kvs : list (string * val)) (items : list (string * val))
  : list (string * val) :=
  fold_left (fun it kv => set_item kv.1 kv.2 it) kvs items.

(** The value a list of assignments leaves under the key [k]. *)
Definition last_write (k : string) (kvs : list (string * val)) : option val :=
  assoc k (reverse kvs).

(** The group lists of [alloc_groups], and the groups when the first list
    is the object [n]. *)
Definition lists_of (pm : list (string * list string)) : heap :=
  (fun pi => OList (VStr <$> pi.2)) <$> pm.

Fixpoint groups_at (n : nat) (pm : list (string * list string))
  : list (string * group) :=
  match pm with
  | [] => []
  | (p, ids) :: rest => (p, (n, ids)) :: groups_at (S n) rest
  end.

(** What the updater reads of each object is the same in both stores. *)
Definition nav_kept (h h' : heap) : Prop :=
  forall l, nav_obj <$> (h' !! l) = nav_obj <$> (h !! l).

(** Every list of [h] is the same list in [h']. *)
Definition lists_kept (h h' : heap) : Prop :=
  forall l elems, h !! l = Some (OList elems) -> h' !! l = Some (OList elems).

(** Dict items have one item per key. *)
Definition unique_keys (h : heap) : Prop :=
  forall l items, h !! l = Some (ODict items) -> NoDup (fst <$> items).

End Py.

(** ** Mapping resolver *)

Module Resolver.

(** A value of the mapping table.  The table is the operator's own file and
    its values are taken with the two string fields they are documented to
    have. *)
Record MappingEntry : Type := mkEntry {
  provider : string;
  model_id : string
}.

Definition mapping : Type := list (string * MappingEntry).

Definition startswith_underscore (k : string) : bool :=
  match k with
  | String a _ => Ascii.eqb a "_"%char
  | EmptyString => false
  end.

(** [load_mapping], on the items of the parsed file. *)
Definition load_mapping (data : mapping) : mapping :=
  filter (fun kv => startswith_underscore kv.1 = false) data.

Definition provider_models : Type := list (string * list string).

(** [provider_models.setdefault(provider, []).append(model_id)]: a new
    provider goes last, a known one keeps its place. *)
Fixpoint setdefault_append (p id : string) (pm : provider_models) : provider_models :=
  match pm with
  | [] => [(p, [id])]
  | (p', ids) :: rest =>
      if String.eqb p p' then (p', ids ++ [id]) :: rest
      else (p', ids) :: setdefault_append p id rest
  end.

(** [arena_name in mapping] and [mapping[arena_name]]: a list or a dict is
    unhashable, another value that is not a string is no key of the table. *)
Definition lookup_name (m : mapping) (arena_name : json) : result (option MappingEntry) :=
  match arena_name with
  | JStr s => Ok (assoc s m)
  | JArr _ | JObj _ => Raise TypeError
  | _ => Ok None
  end.

(** Lines 108-116: the grouping loop, from the state it has reached. *)
Fixpoint resolve_from (m : mapping) (arena_models : list json)
  (pm : provider_models) (matched : nat) : result (provider_models * nat) :=
  match arena_models with
  | [] => Ok (pm, matched)
  | arena_name :: rest =>
      oe ← lookup_name m arena_name;
      match oe with
      | Some info =>
          resolve_from m rest (setdefault_append (provider info) (model_id info) pm) (S matched)
      | None => resolve_from m rest pm matched
      end
  end.

Definition resolve (m : mapping) (arena_models : list json)
  : result (provider_models * nat) :=
  resolve_from m arena_models [] 0.

(** The ids that the names mapped to provider [p] give, in the order of the
    names. *)
Definition ids_of (m : mapping) (p : string) (names : list string) : list string :=
  omap (fun n => match assoc n m with
                 | Some info => if String.eqb (provider info) p then Some (model_id info) else None
                 | None => None
                 end) names.

(** The number of names that are keys of the table. *)
Definition matches (m : mapping) (names : list string) : nat :=
  length (filter (fun n => is_Some (assoc n m)) names).

(** *** The loop on the table as [json.load] gives it

    [resolve] takes the values of the table with the two string fields of
    the data model.  The parsed file can hold any JSON value under a name;
    lines 112-115 then read two fields of whatever value is there, and use
    the first as a dict key. *)
Definition raw_mapping : Type := list (string * json).

(** [info[k]] for a string [k]: a dict gives the value or raises KeyError;
    a list and a string want integer indices and the other values cannot
    be subscripted, which is a TypeError. *)
Definition json_getitem (info : json) (k : string) : result json :=
  match info with
  | JObj kvs =>
      match assoc k kvs with Some v => Ok v | None => Raise KeyError end
  | _ => Raise TypeError
  end.

(** Equality of dict keys: [True] is the key [1] and [False] the key [0]. *)
Definition key_num (j : json) : option Z :=
  match j with
  | JNum z => Some z
  | JBool b => Some (if b then 1 else 0)%Z
  | _ => None
  end.

Definition key_eqb (a b : json) : bool :=
  match a, b with
  | JStr s, JStr s' => String.eqb s s'
  | JNull, JNull => true
  | _, _ =>
      match key_num a, key_num b with
      | Some x, Some x' => Z.eqb x x'
      | _, _ => false
      end
  end.

Definition raw_groups : Type := list (json * list json).

Fixpoint raw_setdefault_append (p id : json) (pm : raw_groups) : raw_groups :=
  match pm with
  | [] => [(p, [id])]
  | (p', ids) :: rest =>
      if key_eqb p p' then (p', ids ++ [id]) :: rest
      else (p', ids) :: raw_setdefault_append p id rest
  end.

Definition raw_lookup (m : raw_mapping) (arena_name : json) : result (option json) :=
  match arena_name with
  | JStr s => Ok (assoc s m)
  | JArr _ | JObj _ => Raise TypeError
  | _ => Ok None
  end.

(** Lines 113-115 for the value [info] of a matched name: the two reads,
    then [setdefault], which hashes the provider. *)
Definition raw_turn (info : json) (pm : raw_groups) : result raw_groups :=
  provider ← json_getitem info "provider";
  model_id ← json_getitem info "model_id";
  match provider with
  | JArr _ | JObj _ => Raise TypeError
  | _ => Ok (raw_setdefault_append provider model_id pm)
  end.

Fixpoint resolve_raw_from (m : raw_mapping) (arena_models : list json)
  (pm : raw_groups) (matched : nat) : result (raw_groups * nat) :=
  match arena_models with
  | [] => Ok (pm, matched)
  | arena_name :: rest =>
      oe ← raw_lookup m arena_name;
      match oe with
      | Some info =>
          pm' ← raw_turn info pm;
          resolve_raw_from m rest pm' (S matched)
      | None => resolve_raw_from m rest pm matched
      end
  end.

Definition resolve_raw (m : raw_mapping) (arena_models : list json)
  : result (raw_groups * nat) :=
  resolve_raw_from m arena_models [] 0.

(** A table of the data model as the parsed file holds it, and its
    groups. *)
Definition entry_json (en : MappingEntry) : json :=
  JObj [("provider", JStr (provider en)); ("model_id", JStr (model_id en))].

Definition raw_of (m : mapping) : raw_mapping :=
  (fun kv : string * MappingEntry => (kv.1, entry_json kv.2)) <$> m.

Definition groups_json (pm : provider_models) : raw_groups :=
  (fun g : string * list string => (JStr g.1, JStr <$> g.2)) <$> pm.

End Resolver.

(** ** The run: [update_yaml] on the file and [main] *)

Module Main.

Import Py.

(** *** The files

    Every [open] of the script is in text mode.  A read translates the
    line ends: a carriage return followed by a line feed, and a carriage
    return alone, are read as one line feed. *)
Definition CR : ascii := "013"%char.
Definition LF : ascii := "010"%char.

Fixpoint universal_newlines (s : string) : string :=
  match s with
  | EmptyString => EmptyString
  | String a rest =>
      if Ascii.eqb a CR
      then match rest with
           | String b rest' =>
               if Ascii.eqb b LF
               then String LF (universal_newlines rest')
               else String LF (universal_newlines rest)
           | EmptyString => String LF EmptyString
           end
      else String a (universal_newlines rest)
  end.

(** What lines 90-91 leave in the configuration file once it has been
    opened for writing, which empties it: [yaml.dump] returns and the file
    holds the content it has stored (the line ends of the platform
    included), or [yaml.dump] or the closing of the file raises and the
    file holds what had been stored until then. *)
Inductive written : Type :=
  | Complete (content : string)
  | Broken (content : string) (ex : exn).

(** PyYAML, as far as the script uses it: [yaml.safe_load] on the text
    read (None: it raises) and [yaml.dump] with the options of line 91 on
    the file opened at line 90. *)
Record Yaml : Type := mkYaml {
  safe_load : string -> option (heap * val);
  dump : heap -> val -> written
}.

(** The local files.  The mapping file is what lines 58-59 find: the items
    of the parsed object, or the exception that [open] or [json.load]
    raises.  The configuration file is its stored content, or the
    exception that opening or reading it raises; opening it for writing
    can raise too (a file that is read-only). *)
Record Files : Type := mkFiles {
  mapping_file : result Resolver.mapping;
  yaml_file : result string;
  yaml_open_w : option exn
}.

(** [f.read()] on the configuration file. *)
Definition read_yaml (fs : Files) : result string :=
  rmap universal_newlines (yaml_file fs).

Definition write_yaml (content : string) (fs : Files) : Files :=
  mkFiles (mapping_file fs) (Ok content) (yaml_open_w fs).

(** [update_yaml]: the files after the call, and how the call ends.  The
    file is opened for writing after the document has been updated; from
    then on it no longer holds its old content. *)
Definition update_yaml (y : Yaml) (fs : Files) (pm : Resolver.provider_models)
  : Files * result unit :=
  match read_yaml fs with
  | Raise ex => (fs, Raise ex)
  | Ok text =>
      match safe_load y text with
      | None => (fs, Raise ParseError)
      | Some (h, config) =>
          match update_config h config pm with
          | Raise ex => (fs, Raise ex)
          | Ok h' =>
              match yaml_open_w fs with
              | Some ex => (fs, Raise ex)
              | None =>
                  match dump y h' config with
                  | Complete content => (write_yaml content fs, Ok tt)
                  | Broken content ex => (write_yaml content fs, Raise ex)
                  end
              end
          end
      end
  end.

(** What the run reports on its last lines. *)
Inductive report : Type :=
  | ErrorNoLeaderboard
  | WarnNoMatch
  | NoChange
  | Updated.

(** How the process ends: [sys.exit], the end of [main], or an exception
    nobody catches. *)
Inductive outcome : Type :=
  | Exit (code : Z)
  | Finished
  | Uncaught (e : exn).

Record run : Type := mkRun {
  ending : outcome;
  files : Files;
  reports : list report;
  steps : list Fetcher.event
}.

Definition string_eqb (a b : string) : bool := String.eqb a b.

(** Lines 105-137, after a non-empty fetch: the files at the end, and the
    ending with its report or the exception. *)
Definition update_run (y : Yaml) (fs : Files) (arena_models : list json)
  : Files * result (outcome * list report) :=
  match mapping_file fs with
  | Raise ex => (fs, Raise ex)
  | Ok data =>
      match Resolver.resolve (Resolver.load_mapping data) arena_models with
      | Raise ex => (fs, Raise ex)
      | Ok (pm, O) => (fs, Ok (Exit 0, [WarnNoMatch]))
      | Ok (pm, S _) =>
          match read_yaml fs with
          | Raise ex => (fs, Raise ex)
          | Ok old_content =>
              match update_yaml y fs pm with
              | (fs', Raise ex) => (fs', Raise ex)
              | (fs', Ok _) =>
                  match read_yaml fs' with
                  | Raise ex => (fs', Raise ex)
                  | Ok new_content =>
                      if string_eqb old_content new_content
                      then (fs', Ok (Finished, [NoChange]))
                      else (fs', Ok (Finished, [Updated]))
                  end
              end
          end
      end
  end.

(** [main]. *)
Definition main (e : Fetcher.Env) (y : Yaml) (fs : Files) : run :=
  let '(arena_models, t) := Fetcher.fetch_leaderboard e in
  match arena_models with
  | [] => mkRun (Exit 1) fs [ErrorNoLeaderboard] t
  | _ =>
      match update_run y fs arena_models with
      | (fs', Ok (o, r)) => mkRun o fs' r t
      | (fs', Raise ex) => mkRun (Uncaught ex) fs' [] t
      end
  end.

(** The exit status of the process: the argument of [sys.exit], 0 at the
    end of [main], and 1 when the interpreter ends on an uncaught
    exception. *)
Definition status (o : outcome) : Z :=
  match o with
  | Exit code => code
  | Finished => 0
  | Uncaught _ => 1
  end.


Definition no_names : Fetcher.Env :=
  Fetcher.mkEnv (Fetcher.Resp true "[{...}]") (Fetcher.Resp true "<html>")
    (fun _ => Some (JArr [JObj [("rank", JNum 1)]; JObj [("model", JStr "")]]))
    (fun _ => None) (fun _ => ["GPT-5.2 Pro"]).

(** A source whose array holds a null, with a page that has a name. *)
Definition null_item : Fetcher.Env :=
  Fetcher.mkEnv (Fetcher.Resp true "[null]") (Fetcher.Resp true "<html>")
    (fun _ => Some (JArr [JNull]))
    (fun _ => None) (fun _ => ["GPT-5.2 Pro"]).

(** The files after a call of the updater. *)
Definition after_update (y : Yaml) (fs : Files) (pm : Resolver.provider_models) : Files :=
  (update_yaml y fs pm).1.

(** [yaml.dump] writes the document, not the addresses of its objects. *)
Definition dump_respects_iso (y : Yaml) : Prop :=
  forall hA vA hB vB, iso hA vA hB vB -> dump y hA vA = dump y hB vB.

(** [yaml.safe_load] builds a closed store with one item per key. *)
Definition load_well_formed (y : Yaml) : Prop :=
  forall text h config,
    safe_load y text = Some (h, config) ->
    closed h /\ unique_keys h /\ in_store h config.

(** The content that the updater stores for the file [fs] is read and
    loaded back as the document that was dumped. *)
Definition reloads (y : Yaml) (fs : Files) (pm : Resolver.provider_models) : Prop :=
  forall raw h config h1 content,
    yaml_file fs = Ok raw ->
    safe_load y (universal_newlines raw) = Some (h, config) ->
    update_config h config pm = Ok h1 ->
    dump y h1 config = Complete content ->
    exists hB vB,
      safe_load y (universal_newlines content) = Some (hB, vB)
      /\ iso h1 config hB vB.

End Main.

(** ** Example documents *)

Module Docs.

Import Py.

(** A configuration without aliases: two built-in endpoints and one custom
    entry. *)
Definition plain : heap :=
  [ ODict [("version", VStr "1.2.1"); ("endpoints", VRef 1)];
    ODict [("openAI", VRef 2); ("anthropic", VRef 5); ("custom", VRef 8)];
    ODict [("models", VRef 3); ("titleModel", VStr "gpt-old")];
    ODict [("default", VRef 4); ("fetch", VBool false)];
    OList [VStr "gpt-x"];
    ODict [("models", VRef 6); ("titleModel", VStr "claude-old")];
    ODict [("default", VRef 7)];
    OList [VStr "claude-x"];
    OList [VRef 9];
    ODict [("name", VStr "Google"); ("models", VRef 10)];
    ODict [("default", VRef 11)];
    OList [VStr "gemini-x"] ].

Definition plain_endpoints : list (string * val) :=
  [("openAI", VRef 2); ("anthropic", VRef 5); ("custom", VRef 8)].

Definition plain_groups : list (string * list string) :=
  [("openAI", ["gpt-a"; "gpt-b"; "gpt-c"]); ("anthropic", ["claude-a"]);
   ("xAI", ["grok-a"])].

(** A configuration where [anthropic] is an alias of the [openAI] block
    ([openAI: &shared {...}], [anthropic: *shared]): one dict under two
    keys. *)
Definition aliased_endpoint : heap :=
  [ ODict [("endpoints", VRef 1)];
    ODict [("openAI", VRef 2); ("anthropic", VRef 2)];
    ODict [("models", VRef 3); ("titleModel", VStr "old")];
    ODict [("default", VRef 4)];
    OList [VStr "x"] ].

Definition aliased_endpoint_groups : list (string * list string) :=
  [("openAI", ["gpt-a"]); ("anthropic", ["claude-a"; "claude-b"])].

(** A configuration where [anthropic.models] is an alias of
    [openAI.models]. *)
Definition aliased_models : heap :=
  [ ODict [("endpoints", VRef 1)];
    ODict [("openAI", VRef 2); ("anthropic", VRef 5)];
    ODict [("models", VRef 3)];
    ODict [("default", VRef 4)];
    OList [VStr "x"];
    ODict [("models", VRef 3)] ].

Definition aliased_models_endpoints : list (string * val) :=
  [("openAI", VRef 2); ("anthropic", VRef 5)].

Definition aliased_models_groups : list (string * list string) :=
  [("openAI", ["gpt-a"; "gpt-b"])].

(** The store after the update, when the update returns. *)
Definition updated (h : heap) (config : val) (pm : list (string * list string)) : heap :=
  match update_config h config pm with
  | Ok h' => h'
  | Raise _ => h
  end.

(** PyYAML on one small document: a configuration whose [endpoints]
    mapping is empty, written by hand with a comment line or as
    [yaml.dump] writes it. *)
Definition empty_endpoints : heap :=
  [ ODict [("endpoints", VRef 1)]; ODict [] ].

Definition text_dumped : string := "endpoints: {}
".

Definition text_by_hand : string := "# edited by hand
endpoints: {}
".

Definition is_empty_endpoints (h : heap) (v : val) : bool :=
  match v with
  | VRef c =>
      match h !! c with
      | Some (ODict [(k, VRef el)]) =>
          String.eqb k "endpoints"
          && match h !! el with Some (ODict []) => true | _ => false end
      | _ => false
      end
  | _ => false
  end.

Definition small_yaml : Main.Yaml :=
  Main.mkYaml
    (fun text =>
       if String.eqb text text_dumped || String.eqb text text_by_hand
       then Some (empty_endpoints, VRef 0) else None)
    (fun h v => Main.Complete (if is_empty_endpoints h v then text_dumped else "...")).


(** A mapping table with a comment key. *)
Definition small_mapping : Resolver.mapping :=
  [("_comment", Resolver.mkEntry "" "");
   ("GPT-5.2 Pro", Resolver.mkEntry "openAI" "gpt-5.2-pro")].




(** PyYAML on a second small family of documents: the [openAI] endpoint
    with its list of models, and nothing else. *)
Definition openai_store (ids : list string) : heap :=
  [ ODict [("endpoints", VRef 1)];
    ODict [("openAI", VRef 2)];
    ODict [("models", VRef 3)];
    ODict [("default", VRef 4)];
    OList (VStr <$> ids) ].

(** The object under the only key of a dict, when the key is [k]. *)
Definition only_ref (h : heap) (l : loc) (k : string) : option loc :=
  match h !! l with
  | Some (ODict [(k', VRef l')]) => if String.eqb k' k then Some l' else None
  | _ => None
  end.

Fixpoint strings (elems : list val) : option (list string) :=
  match elems with
  | [] => Some []
  | VStr s :: rest =>
      match strings rest with Some ss => Some (s :: ss) | None => None end
  | _ => None
  end.

(** The ids of a document of the family. *)
Definition openai_ids (h : heap) (v : val) : option (list string) :=
  match v with
  | VRef c =>
      match only_ref h c "endpoints" with
      | Some el =>
          match only_ref h el "openAI" with
          | Some ep =>
              match only_ref h ep "models" with
              | Some m =>
                  match only_ref h m "default" with
                  | Some d =>
                      match h !! d with
                      | Some (OList elems) => strings elems
                      | _ => None
                      end
                  | None => None
                  end
              | None => None
              end
          | None => None
          end
      | None => None
      end
  | _ => None
  end.

Fixpoint openai_items (ids : list string) : string :=
  match ids with
  | [] => EmptyString
  | id :: rest =>
      String.append "      - "
        (String.append id (String Main.LF (openai_items rest)))
  end.

Definition openai_text (ids : list string) : string :=
  String.append "endpoints:
  openAI:
    models:
      default:
" (openai_items ids).

Definition openai_by_hand : string :=
  String.append "# models of the built-in endpoint
" (openai_text ["gpt-4"]).

Definition openai_yaml : Main.Yaml :=
  Main.mkYaml
    (fun text =>
       if String.eqb text openai_by_hand
       then Some (openai_store ["gpt-4"], VRef 0)
       else if String.eqb text (openai_text ["gpt-5.2-pro"])
       then Some (openai_store ["gpt-5.2-pro"], VRef 0)
       else None)
    (fun h v =>
       Main.Complete
         match openai_ids h v with
         | Some ids => openai_text ids
         | None => "..."
         end).

Definition openai_files : Main.Files :=
  Main.mkFiles (Ok small_mapping) (Ok openai_by_hand) None.

Definition openai_groups : Resolver.provider_models :=
  [("openAI", ["gpt-5.2-pro"])].

End Docs.

(** ** Further notions used by the properties below *)

Module More.

Import Py.

(** Whether a [try] body ended with a [return]. *)
Definition returned {A : Type} (a : Fetcher.attempt A) : bool :=
  match a with
  | Fetcher.Returned _ => true
  | _ => false
  end.

(** How often a step occurs in a trace. *)
Definition occurrences (ev : Fetcher.event) (t : list Fetcher.event) : nat :=
  length (filter (fun x => x = ev) t).

(** A primary API that answers with a JSON object instead of an array, and
    one that answers with an array of strings; the page has two names. *)
Definition api_object : Fetcher.Env :=
  Fetcher.mkEnv (Fetcher.Resp true "{...}") (Fetcher.Resp true "<html>")
    (fun _ => Some (JObj [("data", JArr [JObj [("model", JStr "GPT-5.2 Pro")]])]))
    (fun _ => None) (fun _ => ["GPT-5.2 Pro"; "Claude"]).

Definition api_strings : Fetcher.Env :=
  Fetcher.mkEnv (Fetcher.Resp true "[...]") (Fetcher.Resp true "<html>")
    (fun _ => Some (JArr [JStr "GPT-5.2 Pro"; JStr "Claude"]))
    (fun _ => None) (fun _ => ["GPT-5.2 Pro"; "Claude"]).

(** The values Python can hash: everything that [json] gives but lists and
    dicts. *)
Definition hashable (j : json) : Prop :=
  match j with
  | JArr _ | JObj _ => False
  | _ => True
  end.

Global Instance hashable_dec j : Decision (hashable j).
Proof. destruct j; simpl; apply _. Defined.

(** The strings among fetched names. *)
Definition name_strings (names : list json) : list string :=
  omap (fun j => match j with JStr s => Some s | _ => None end) names.

(** The number of ids in all groups. *)
Definition total_ids (pm : Resolver.provider_models) : nat :=
  sum_list (length <$> (snd <$> pm)).


Definition is_raise {A : Type} (r : result A) : Prop :=
  match r with
  | Raise _ => True
  | Ok _ => False
  end.

(** A configuration whose [anthropic] block has no [models], and one whose
    [custom] key is left empty. *)
Definition no_models : heap :=
  [ ODict [("endpoints", VRef 1)];
    ODict [("openAI", VRef 2); ("anthropic", VRef 5)];
    ODict [("models", VRef 3)];
    ODict [("default", VRef 4)];
    OList [VStr "gpt-x"];
    ODict [("apiKey", VStr "user_provided")] ].

Definition no_models_endpoints : list (string * val) :=
  [("openAI", VRef 2); ("anthropic", VRef 5)].

Definition null_custom : heap :=
  [ ODict [("endpoints", VRef 1)];
    ODict [("openAI", VRef 2); ("custom", VNone)];
    ODict [("models", VRef 3)];
    ODict [("default", VRef 4)];
    OList [VStr "gpt-x"] ].

Definition null_custom_endpoints : list (string * val) :=
  [("openAI", VRef 2); ("custom", VNone)].

(** A configuration without an [endpoints] key. *)
Definition no_endpoints : heap :=
  [ ODict [("version", VStr "1.2.1"); ("cache", VBool true)] ].

(** A value that is not a mapping of the store: a scalar or a sequence. *)
Definition not_mapping (h : heap) (v : val) : Prop :=
  match v with
  | VRef l => exists elems, h !! l = Some (OList elems)
  | _ => True
  end.

(** A value that [for] cannot go through. *)
Definition not_iterable (v : val) : Prop :=
  match v with
  | VNone | VBool _ | VInt _ => True
  | _ => False
  end.

(** A configuration whose custom list has a string among its entries. *)
Definition string_entry : heap :=
  [ ODict [("endpoints", VRef 1)];
    ODict [("custom", VRef 2)];
    OList [VStr "Google"] ].

(** PyYAML on an empty file: the document is [None]. *)
Definition empty_file : Main.Yaml :=
  Main.mkYaml (fun text => if String.eqb text "" then Some ([], VNone) else None)
              (fun _ _ => Main.Complete "null").

(** What is wrong with the value of a matched name, in the order in which
    lines 113-115 meet it: a value that is not an object, an object
    without [provider], without [model_id], or with a provider that is a
    list or a dict. *)
Definition entry_error (info : json) : option exn :=
  match info with
  | JObj kvs =>
      match assoc "provider" kvs, assoc "model_id" kvs with
      | None, _ => Some KeyError
      | Some _, None => Some KeyError
      | Some (JArr _), Some _ => Some TypeError
      | Some (JObj _), Some _ => Some TypeError
      | Some _, Some _ => None
      end
  | _ => Some TypeError
  end.

(** What is wrong with a fetched name: it is a list or a dict, or it is a
    key of the table with a value that is wrong. *)
Definition name_error (m : Resolver.raw_mapping) (name : json) : option exn :=
  match name with
  | JArr _ | JObj _ => Some TypeError
  | JStr s =>
      match assoc s m with
      | Some info => entry_error info
      | None => None
      end
  | _ => None
  end.

(** The number of names that are keys of the raw table. *)
Definition raw_matches (m : Resolver.raw_mapping) (names : list string) : nat :=
  length (filter (fun n => is_Some (assoc n m)) names).

(** A table with a value that lacks its [model_id]. *)
Definition table_without_id : Resolver.raw_mapping :=
  [("GPT-5.2 Pro", JObj [("provider", JStr "openAI"); ("model_id", JStr "gpt-5.2-pro")]);
   ("Claude", JObj [("provider", JStr "anthropic")])].

End More.

(** * Properties *)

(** ** The fetcher *)

Module FetcherFacts.

Import Fetcher.

(** The comprehension succeeds on records and is then the map of
    [record_name]. *)
Lemma record_names_records (items : list json) :
  Forall is_record items ->
  record_names items = Some (omap record_name items)
  /\ length (omap record_name items) = length items.
Proof.
  induction 1 as [|item rest Hrec _ [IH1 IH2]]; simpl; [done|].
  destruct item; simpl in Hrec; try done.
  unfold record_names; fold record_names. rewrite IH1.
  cbn [omap list_omap]. destruct (record_name (JObj kvs)) as [m|] eqn:E.
  - split; [done | cbn; f_equal; exact IH2].
  - unfold record_name in E. by destruct (truthy _).
Qed.

Lemma primary_records (e : Env) (text : string) (data : list json) :
  api e = Resp true text ->
  json_loads e text = Some (JArr data) ->
  Forall is_record (take TOP_N data) ->
  primary e =
    (Returned (filter (fun m => truthy m = true) (omap record_name (take TOP_N data))),
     [GetApi]).
Proof.
  intros Hapi Hjson Hrec. unfold primary. rewrite Hapi, Hjson.
  destruct (record_names_records _ Hrec) as [-> _]. done.
Qed.

Lemma fetch_records (e : Env) (text : string) (data : list json) :
  api e = Resp true text ->
  json_loads e text = Some (JArr data) ->
  Forall is_record (take TOP_N data) ->
  fetch_leaderboard e =
    (filter (fun m => truthy m = true) (omap record_name (take TOP_N data)), [GetApi]).
Proof.
  intros Hapi Hjson Hrec. unfold fetch_leaderboard.
  rewrite (primary_records e text data Hapi Hjson Hrec). done.
Qed.

(** C5, as stated, fails: the fetcher cuts the array to its first TOP_N
    records before it drops the empty names, so with an empty name among
    the first TOP_N of 31 records it returns 29 names, not the first 30
    non-empty ones. *)
Lemma C5_first_top_n_nonempty_fails :
  api c5_env = Resp true "[...]"
  /\ json_loads c5_env "[...]" = Some (JArr c5_data)
  /\ Forall is_record c5_data
  /\ length (first_top_n_nonempty (omap record_name c5_data)) = 30
  /\ length (fetch_leaderboard c5_env).1 = 29
  /\ (fetch_leaderboard c5_env).1 <> first_top_n_nonempty (omap record_name c5_data).
Proof.
  repeat split; try reflexivity.
  - unfold c5_data. repeat constructor.
  - intros H. apply (f_equal length) in H. vm_compute in H. discriminate.
Qed.

(** C5, amended: when the primary API answers with a JSON array whose first
    TOP_N items are records, the fetcher returns, in order, the non-empty
    names among those first TOP_N records, each name read from the [model]
    field or else from the [name] field; the page is not fetched. *)
Theorem C5_names_of_first_top_n_records (e : Env) (text : string) (data : list json) :
  api e = Resp true text ->
  json_loads e text = Some (JArr data) ->
  Forall is_record (take TOP_N data) ->
  fetch_leaderboard e =
    (filter (fun m => truthy m = true) (omap record_name (take TOP_N data)), [GetApi]).
Proof. apply fetch_records. Qed.

Lemma C5_names_of_first_top_n_records_witness :
  fetch_leaderboard c5_env =
    (filter (fun m => truthy m = true) (omap record_name (take TOP_N c5_data)), [GetApi]).
Proof.
  apply (C5_names_of_first_top_n_records c5_env "[...]" c5_data).
  - reflexivity.
  - reflexivity.
  - vm_compute. repeat constructor.
Defined.





(** C7: [fetch_leaderboard] returns a list for every behaviour of the two
    sources.  An exception in the first attempt is caught (the warning is
    printed and the page is fetched next); an exception in the second
    attempt is caught (the error is printed) and the result is the empty
    list; and when the first source fails or yields no names and the second
    fails or yields none, the result is the empty list. *)
Theorem C7_exceptions_caught_empty_result (e : Env) :
  ((primary e).1 = Raised ->
     WarnApiFailed ∈ (fetch_leaderboard e).2 /\ GetPage ∈ (fetch_leaderboard e).2)
  /\ ((forall ms, (primary e).1 <> Returned ms) -> (fallback e).1 = Raised ->
     ErrorFallbackFailed ∈ (fetch_leaderboard e).2 /\ (fetch_leaderboard e).1 = [])
  /\ ((forall ms, (primary e).1 = Returned ms -> ms = []) ->
      (forall ms, (fallback e).1 <> Returned ms) ->
      (fetch_leaderboard e).1 = []).
Proof.
  unfold fetch_leaderboard.
  destruct (primary e) as [[ms| |] t1] eqn:Ep;
    destruct (fallback e) as [[ms'| |] t2] eqn:Ef; simpl.
  all: split; [intros H; try discriminate|split; [intros H1 H2; try discriminate|intros H1 H2]].
  all: try (exfalso; by eapply H1).
  all: try (exfalso; by eapply H2).
  all: try (by apply H1).
  all: try done.
  all: try (split; [|try done]).
  all: rewrite ?elem_of_app; try set_solver.
  all: unfold fallback in Ef; destruct (page e) as [|[] text]; simplify_eq; try set_solver.
  all: destruct (search_next_data e text); [destruct (json_loads e _)|];
    destruct (findall_model_name e text); simplify_eq; set_solver.
Qed.

Lemma C7_exceptions_caught_empty_result_witness :
  (WarnApiFailed ∈ (fetch_leaderboard c6_env).2 /\ GetPage ∈ (fetch_leaderboard c6_env).2)
  /\ (ErrorFallbackFailed ∈ (fetch_leaderboard c6_env).2 /\ (fetch_leaderboard c6_env).1 = [])
  /\ (fetch_leaderboard c6_env).1 = [].
Proof.
  destruct (C7_exceptions_caught_empty_result c6_env) as (A & B & C).
  split; [apply A; reflexivity|].
  split; [apply B; [intros ms; vm_compute; discriminate | reflexivity]|].
  apply C; intros ms; vm_compute; discriminate.
Defined.

End FetcherFacts.

(** ** The resolver *)

Module ResolverFacts.

Import Resolver.

Lemma assoc_setdefault_append (p q id : string) (pm : provider_models) :
  assoc p (setdefault_append q id pm) =
    if String.eqb p q then Some (default [] (assoc q pm) ++ [id]) else assoc p pm.
Proof.
  induction pm as [|[p' ids] rest IH]; simpl.
  - by destruct (String.eqb_spec p q).
  - destruct (String.eqb_spec q p') as [->|Hqp]; simpl.
    + by destruct (String.eqb_spec p p').
    + destruct (String.eqb_spec p p') as [->|Hpp].
      * by destruct (String.eqb_spec p' q) as [->|_].
      * exact IH.
Qed.

Lemma matches_cons (m : mapping) (n : string) (rest : list string) :
  matches m (n :: rest) =
    match assoc n m with Some _ => S (matches m rest) | None => matches m rest end.
Proof.
  unfold matches. rewrite filter_cons.
  destruct (assoc n m) as [info|].
  - by rewrite decide_True by (by eexists).
  - by rewrite decide_False by (by intros [? ?]).
Qed.

Lemma ids_of_cons (m : mapping) (p n : string) (rest : list string) :
  ids_of m p (n :: rest) =
    match assoc n m with
    | Some info =>
        if String.eqb (provider info) p then model_id info :: ids_of m p rest
        else ids_of m p rest
    | None => ids_of m p rest
    end.
Proof.
  unfold ids_of. cbn [omap list_omap].
  destruct (assoc n m) as [info|]; [|done].
  by destruct (String.eqb (provider info) p).
Qed.

(** The loop from any state it has reached: it does not raise on string
    names, adds one to the count per mapped name, and extends the group of
    each provider by the ids of its names, in their order. *)
Lemma resolve_from_strings (m : mapping) (names : list string) :
  forall (pm : provider_models) (k : nat),
  exists pm',
    resolve_from m (JStr <$> names) pm k = Ok (pm', k + matches m names)
    /\ forall p,
         assoc p pm' =
           match ids_of m p names with
           | [] => assoc p pm
           | ids => Some (default [] (assoc p pm) ++ ids)
           end.
Proof.
  induction names as [|n rest IH]; intros pm k.
  - exists pm. split; [simpl; f_equal; f_equal; unfold matches; simpl; lia | done].
  - cbn [fmap list_fmap resolve_from lookup_name]. unfold mbind, result_bind, bind.
    rewrite matches_cons.
    destruct (assoc n m) as [info|] eqn:En.
    + destruct (IH (setdefault_append (provider info) (model_id info) pm) (S k))
        as (pm' & Hrun & Hgroups).
      exists pm'. split.
      * rewrite Hrun. do 2 f_equal. lia.
      * intros p. rewrite Hgroups, assoc_setdefault_append, ids_of_cons, En.
        destruct (String.eqb_spec (provider info) p) as [<-|Hne].
        -- rewrite String.eqb_refl. simpl.
           destruct (ids_of m (provider info) rest); [done|]. by rewrite <- app_assoc.
        -- destruct (String.eqb_spec p (provider info)) as [->|_]; done.
    + destruct (IH pm k) as (pm' & Hrun & Hgroups).
      exists pm'. split; [exact Hrun|].
      intros p. rewrite ids_of_cons, En. apply Hgroups.
Qed.

(** C2: for every mapping table and every sequence of fetched names, the
    resolver returns (it raises nothing, names that are no key of the table
    are skipped), it counts the names that are keys, and the group of each
    provider is exactly the ids of the names mapped to that provider, in
    the rank order of those names; a provider no name maps to has no
    group. *)
Theorem C2_groups_preserve_rank_order (m : mapping) (names : list string) :
  exists pm,
    resolve m (JStr <$> names) = Ok (pm, matches m names)
    /\ forall p,
         assoc p pm =
           match ids_of m p names with
           | [] => None
           | ids => Some ids
           end.
Proof.
  destruct (resolve_from_strings m names [] 0) as (pm & Hrun & Hgroups).
  exists pm. split; [exact Hrun|].
  intros p. rewrite Hgroups. done.
Qed.

(** A table and a leaderboard with an unknown name in the middle. *)
Example resolve_example :
  resolve [("A", mkEntry "openAI" "gpt-a"); ("B", mkEntry "google" "gem-b");
           ("C", mkEntry "openAI" "gpt-c")]
          [JStr "C"; JStr "unknown"; JStr "B"; JStr "A"]
  = Ok ([("openAI", ["gpt-c"; "gpt-a"]); ("google", ["gem-b"])], 3).
Proof. reflexivity. Qed.

End ResolverFacts.

(** ** The updater on the object store *)

Module PyFacts.

Import Py.

Lemma assoc_set_item (k k' : string) (v : val) (items : list (string * val)) :
  assoc k' (set_item k v items) = if String.eqb k' k then Some v else assoc k' items.
Proof.
  induction items as [|[k0 v0] rest IH]; simpl.
  - by destruct (String.eqb k' k).
  - destruct (String.eqb_spec k k0) as [->|Hk]; simpl.
    + by destruct (String.eqb_spec k' k0).
    + destruct (String.eqb_spec k' k0) as [->|Hk'].
      * by destruct (String.eqb_spec k0 k) as [->|_].
      * exact IH.
Qed.

Lemma set_item_same (k : string) (v : val) (items : list (string * val)) :
  assoc k items = Some v -> set_item k v items = items.
Proof.
  induction items as [|[k0 v0] rest IH]; simpl; [done|].
  destruct (String.eqb_spec k k0) as [->|Hk]; intros H.
  - by simplify_eq.
  - by rewrite IH.
Qed.

Lemma set_item_idem (k : string) (v w : val) (items : list (string * val)) :
  set_item k v (set_item k w items) = set_item k v items.
Proof.
  induction items as [|[k0 v0] rest IH]; simpl.
  - by rewrite String.eqb_refl.
  - destruct (String.eqb_spec k k0) as [->|Hk]; simpl.
    + by rewrite String.eqb_refl.
    + destruct (String.eqb_spec k k0); [done|]. by rewrite IH.
Qed.

(** What a successful [c[k] = v] did. *)
Lemma py_setitem_inv (h h' : heap) (c : val) (k : string) (v : val) :
  py_setitem h c k v = Ok h' ->
  exists l items,
    c = VRef l /\ h !! l = Some (ODict items)
    /\ h' = <[l := ODict (set_item k v items)]> h.
Proof.
  unfold py_setitem. destruct c as [| | | |l]; try done.
  destruct (h !! l) as [[items|elems]|] eqn:E; try done.
  intros [= <-]. by exists l, items.
Qed.

Lemma py_getitem_inv (h : heap) (c : val) (k : string) (v : val) :
  py_getitem h c k = Ok v ->
  exists l, c = VRef l /\ field h l k = Some v.
Proof.
  unfold py_getitem, field. destruct c as [| | | |l]; try done.
  destruct (h !! l) as [[items|elems]|] eqn:E; try done.
  destruct (assoc k items) eqn:Ea; try done.
  intros [= <-]. exists l. by rewrite E.
Qed.

Lemma field_insert_ne (h : heap) (l l' : loc) (o : obj) (k : string) :
  l <> l' -> field (<[l := o]> h) l' k = field h l' k.
Proof. intros Hne. unfold field. by rewrite list_lookup_insert_ne. Qed.

Lemma field_insert_set (h : heap) (l : loc) (items : list (string * val))
  (k k' : string) (v : val) :
  h !! l = Some (ODict items) ->
  field (<[l := ODict (set_item k v items)]> h) l k' =
    if String.eqb k' k then Some v else field h l k'.
Proof.
  intros Hl. unfold field.
  rewrite list_lookup_insert_eq by (by eapply lookup_lt_Some).
  by rewrite assoc_set_item, Hl.
Qed.

(** What a successful pair of assignments to the endpoint [e] did. *)
Lemma assign_models_inv (h h' : heap) (e : val) (g : group) :
  assign_models h e g = Ok h' ->
  exists ep m items_m,
    e = VRef ep /\ field h ep "models" = Some (VRef m)
    /\ h !! m = Some (ODict items_m)
    /\ exists h1, h1 = <[m := ODict (set_item "default" (VRef g.1) items_m)]> h
    /\ if more_than_one g.2
       then exists items_ep,
              h1 !! ep = Some (ODict items_ep)
              /\ h' = <[ep := ODict (set_item "titleModel" (VStr (last_id g.2)) items_ep)]> h1
       else h' = h1.
Proof.
  unfold assign_models, mbind, result_bind, bind.
  destruct (py_getitem h e "models") as [mv|] eqn:Eg; [|done].
  apply py_getitem_inv in Eg as (ep & -> & Hm).
  destruct (py_setitem h mv "default" (VRef g.1)) as [h1|] eqn:Es; [|done].
  apply py_setitem_inv in Es as (m & items_m & -> & Hmo & ->).
  intros Hrun. exists ep, m, items_m. repeat split; try done.
  eexists; split; [reflexivity|].
  destruct (more_than_one g.2); [|by simplify_eq].
  apply py_setitem_inv in Hrun as (ep' & items_ep & [= <-] & Hepo & ->).
  by exists items_ep.
Qed.

(** The assignments keep the size of the store and every object outside
    the footprint of the endpoint. *)
Lemma assign_models_frame (h h' : heap) (e : val) (g : group) :
  assign_models h e g = Ok h' ->
  length h' = length h
  /\ forall l, l ∉ footprint h e -> h' !! l = h !! l.
Proof.
  intros Hrun.
  apply assign_models_inv in Hrun
    as (ep & m & items_m & -> & Hm & Hmo & h1 & -> & Hrest).
  unfold footprint. rewrite Hm.
  destruct (more_than_one g.2).
  - destruct Hrest as (items_ep & Hepo & ->). split.
    + by rewrite !length_insert.
    + intros l Hl. rewrite !list_lookup_insert_ne; set_solver.
  - subst h'. split.
    + by rewrite length_insert.
    + intros l Hl. rewrite list_lookup_insert_ne; set_solver.
Qed.

(** The fields of an endpoint whose dict and [models] dict are two objects,
    after the assignments: [models] still names the same dict, whose
    [default] is the list of the group; [titleModel] is the last id when
    the group has more than one id, and otherwise the endpoint's dict is
    the one it was. *)
Lemma assign_models_fields (h h' : heap) (ep : loc) (g : group) :
  assign_models h (VRef ep) g = Ok h' ->
  (forall m, field h ep "models" = Some (VRef m) -> ep <> m) ->
  exists m,
    footprint h (VRef ep) = [ep; m]
    /\ field h ep "models" = Some (VRef m)
    /\ field h' ep "models" = Some (VRef m)
    /\ field h' m "default" = Some (VRef g.1)
    /\ (forall k, k <> "default" -> field h' m k = field h m k)
    /\ (forall k, k <> "titleModel" -> field h' ep k = field h ep k)
    /\ if more_than_one g.2
       then field h' ep "titleModel" = Some (VStr (last_id g.2))
       else h' !! ep = h !! ep.
Proof.
  intros Hrun Hsep.
  apply assign_models_inv in Hrun
    as (ep' & m & items_m & [= <-] & Hm & Hmo & h1 & -> & Hrest).
  specialize (Hsep m Hm).
  exists m. split; [by unfold footprint; rewrite Hm|]. split; [done|].
  assert (Hkeys : forall k, k <> "default" ->
            field (<[m := ODict (set_item "default" (VRef g.1) items_m)]> h) m k
            = field h m k).
  { intros k Hk. rewrite field_insert_set by done.
    by destruct (String.eqb_spec k "default"). }
  destruct (more_than_one g.2).
  - destruct Hrest as (items_ep & Hepo & ->).
    rewrite list_lookup_insert_ne in Hepo by done.
    assert (Hepo' : <[m := ODict (set_item "default" (VRef g.1) items_m)]> h !! ep
                    = Some (ODict items_ep))
      by (by rewrite list_lookup_insert_ne).
    repeat split.
    + rewrite field_insert_set by done. simpl.
      by rewrite field_insert_ne.
    + rewrite field_insert_ne by done. by rewrite field_insert_set.
    + intros k Hk. rewrite field_insert_ne by done. by apply Hkeys.
    + intros k Hk. rewrite field_insert_set by done.
      destruct (String.eqb_spec k "titleModel"); [done|].
      by rewrite field_insert_ne.
    + by rewrite field_insert_set.
  - subst h'. repeat split.
    + by rewrite field_insert_ne.
    + by rewrite field_insert_set.
    + exact Hkeys.
    + intros k _. by rewrite field_insert_ne.
    + by rewrite list_lookup_insert_ne.
Qed.

(** Reading an endpoint looks at its own dict only. *)
Lemma field_agree (h h1 : heap) (l : loc) (k : string) :
  h1 !! l = h !! l -> field h1 l k = field h l k.
Proof. unfold field. by intros ->. Qed.

Lemma footprint_agree (h h1 : heap) (e : val) :
  (forall l, l ∈ footprint h e -> h1 !! l = h !! l) ->
  footprint h1 e = footprint h e.
Proof.
  destruct e as [| | | |ep]; try done. simpl. intros H.
  rewrite (field_agree h h1 ep "models"); [done|].
  apply H. set_solver.
Qed.

Lemma custom_group_agree (pm : list (string * group)) (h h1 : heap) (e : val) :
  (forall l, l ∈ footprint h e -> h1 !! l = h !! l) ->
  custom_group pm h1 e = custom_group pm h e.
Proof.
  destruct e as [| | | |ep]; try done. simpl. intros H.
  unfold custom_group, py_get. rewrite (H ep); [done|set_solver].
Qed.

Lemma endpoint_updated_after (h h1 h' : heap) (e : val) (g : group) :
  endpoint_updated h h1 e g ->
  (forall l, l ∈ footprint h e -> h' !! l = h1 !! l) ->
  endpoint_updated h h' e g.
Proof.
  intros (ep & m & -> & Hfp & Hmod & Hdef & Hkm & Hkep & Htitle) Hagree.
  assert (Hep : h' !! ep = h1 !! ep) by (apply Hagree; rewrite Hfp; set_solver).
  assert (Hm : h' !! m = h1 !! m) by (apply Hagree; rewrite Hfp; set_solver).
  exists ep, m. repeat split; try done.
  - by rewrite (field_agree h1 h' ep).
  - by rewrite (field_agree h1 h' m).
  - intros k Hk. rewrite (field_agree h1 h' m) by done. by apply Hkm.
  - intros k Hk. rewrite (field_agree h1 h' ep) by done. by apply Hkep.
  - destruct (more_than_one g.2).
    + by rewrite (field_agree h1 h' ep).
    + by rewrite Hep.
Qed.

Lemma endpoint_updated_before (h h1 h' : heap) (e : val) (g : group) :
  endpoint_updated h1 h' e g ->
  (forall l, l ∈ footprint h e -> h1 !! l = h !! l) ->
  endpoint_updated h h' e g.
Proof.
  intros (ep & m & -> & Hfp & Hmod & Hdef & Hkm & Hkep & Htitle) Hagree.
  rewrite (footprint_agree h h1 (VRef ep) Hagree) in Hfp.
  assert (Hep : h1 !! ep = h !! ep) by (apply Hagree; rewrite Hfp; set_solver).
  assert (Hm : h1 !! m = h !! m) by (apply Hagree; rewrite Hfp; set_solver).
  exists ep, m. repeat split; try done.
  - intros k Hk. rewrite <- (field_agree h h1 m) by done. by apply Hkm.
  - intros k Hk. rewrite <- (field_agree h h1 ep) by done. by apply Hkep.
  - destruct (more_than_one g.2); [done|]. by rewrite <- Hep.
Qed.

Lemma assign_models_updated (h h' : heap) (e : val) (g : group) :
  NoDup (footprint h e) ->
  assign_models h e g = Ok h' ->
  endpoint_updated h h' e g.
Proof.
  intros Hnd Hrun.
  destruct (assign_models_inv _ _ _ _ Hrun) as (ep & ? & ? & -> & _).
  destruct (assign_models_fields h h' ep g Hrun) as (m & Hfp & ? & ? & ? & ? & ? & ?).
  - intros m Hm <-. unfold footprint in Hnd. rewrite Hm in Hnd.
    apply NoDup_cons in Hnd as [Hnd _]. set_solver.
  - by exists ep, m.
Qed.

(** One turn of the custom loop: either the entry has a usable group and
    receives it, or the store is not touched. *)
Lemma update_customs_step (pm : list (string * group)) (e : val)
  (rest : list val) (h h' : heap) :
  update_customs pm (e :: rest) h = Ok h' ->
  exists h1,
    update_customs pm rest h1 = Ok h'
    /\ match custom_group pm h e with
       | Some g => assign_models h e g = Ok h1
       | None => h1 = h
       end.
Proof.
  cbn [update_customs]. unfold mbind, result_bind, bind, custom_group.
  destruct (py_get h e "name" (VStr "")) as [name|]; [|done].
  destruct (lookup_group pm name) as [[g|]|]; [| |done].
  - unfold usable. destruct (nonempty g.2).
    + destruct (assign_models h e g) as [h1|]; [|done]. intros H. by exists h1.
    + intros H. by exists h.
  - intros H. by exists h.
Qed.

(** The custom loop over entries whose dicts and [models] dicts are all
    different objects: the size of the store is kept, an object outside
    the footprints of the entries with a usable group is kept, and every
    entry with a usable group has received it. *)
Lemma update_customs_spec (pm : list (string * group)) (entries : list val) :
  forall h h',
  NoDup (mjoin (footprint h <$> entries)) ->
  update_customs pm entries h = Ok h' ->
  length h' = length h
  /\ (forall l,
        (forall e, e ∈ entries -> is_Some (custom_group pm h e) -> l ∉ footprint h e) ->
        h' !! l = h !! l)
  /\ (forall e g, e ∈ entries -> custom_group pm h e = Some g ->
        endpoint_updated h h' e g).
Proof.
  induction entries as [|e rest IH]; intros h h' Hnd Hrun.
  - simpl in Hrun. injection Hrun as <-. split; [done|]. split; [done|].
    intros e g He. by apply elem_of_nil in He.
  - apply update_customs_step in Hrun as (h1 & Hrest & Hstep).
    cbn [fmap list_fmap mjoin list_join] in Hnd.
    apply NoDup_app in Hnd as (Hnd_e & Hdisj & Hnd_rest).
    assert (Hother : forall e' l, e' ∈ rest -> l ∈ footprint h e' -> l ∉ footprint h e).
    { intros e' l He' Hl Hle. apply (Hdisj l Hle).
      apply list_elem_of_join. exists (footprint h e'). split; [done|].
      by apply list_elem_of_fmap_2. }
    destruct (custom_group pm h e) as [g|] eqn:Eg.
    + destruct (assign_models_frame _ _ _ _ Hstep) as [Hlen1 Hframe1].
      assert (Hag : forall e', e' ∈ rest ->
                forall l, l ∈ footprint h e' -> h1 !! l = h !! l).
      { intros e' He' l Hl. apply Hframe1. by eapply Hother. }
      assert (Hfps : footprint h1 <$> rest = footprint h <$> rest).
      { apply list_fmap_ext. intros i e' He'. apply footprint_agree.
        apply Hag. by eapply list_elem_of_lookup_2. }
      rewrite <- Hfps in Hnd_rest.
      destruct (IH h1 h' Hnd_rest Hrest) as (Hlen & Hframe & Hupd).
      assert (Hkeep_e : forall l, l ∈ footprint h e -> h' !! l = h1 !! l).
      { intros l Hl. apply Hframe. intros e' He' _.
        rewrite (footprint_agree h h1 e' (Hag e' He')).
        intros Hl'. by eapply Hother. }
      split; [congruence|]. split.
      * intros l Hl. rewrite Hframe.
        -- apply Hframe1. apply (Hl e); [set_solver|by rewrite Eg].
        -- intros e' He' Hsome.
           rewrite (footprint_agree h h1 e' (Hag e' He')).
           apply Hl; [set_solver|].
           by rewrite <- (custom_group_agree pm h h1 e' (Hag e' He')).
      * intros e0 g0 He0 Hg0. apply elem_of_cons in He0 as [->|He0].
        -- rewrite Eg in Hg0. simplify_eq.
           eapply endpoint_updated_after; [|exact Hkeep_e].
           by apply assign_models_updated.
        -- eapply endpoint_updated_before; [|exact (Hag e0 He0)].
           apply Hupd; [done|].
           by rewrite (custom_group_agree pm h h1 e0 (Hag e0 He0)).
    + subst h1.
      destruct (IH h h' Hnd_rest Hrest) as (Hlen & Hframe & Hupd).
      split; [done|]. split.
      * intros l Hl. apply Hframe. intros e' He'. apply Hl. set_solver.
      * intros e0 g0 He0 Hg0. apply elem_of_cons in He0 as [->|He0].
        -- congruence.
        -- by apply Hupd.
Qed.

(** For a built-in endpoint the source reads [endpoints[builtin]] twice;
    when the [endpoints] dict is not itself written to, both reads give the
    same endpoint. *)
Lemma assign_builtin_models (h : heap) (el : loc) (eitems : list (string * val))
  (b : string) (e : val) (g : group) :
  h !! el = Some (ODict eitems) ->
  assoc b eitems = Some e ->
  el ∉ footprint h e ->
  assign_builtin h (VRef el) b g = assign_models h e g.
Proof.
  intros Hel Hb Hfp.
  unfold assign_builtin, assign_models, mbind, result_bind, bind.
  assert (Hget : py_getitem h (VRef el) b = Ok e) by (simpl; by rewrite Hel, Hb).
  rewrite Hget.
  destruct (py_getitem h e "models") as [mv|] eqn:Eg; [|done].
  apply py_getitem_inv in Eg as (ep & -> & Hm).
  destruct (py_setitem h mv "default" (VRef g.1)) as [h1|] eqn:Es; [|done].
  apply py_setitem_inv in Es as (m & items_m & -> & Hmo & ->).
  destruct (more_than_one g.2); [|done].
  assert (el <> m).
  { intros <-. apply Hfp. unfold footprint. rewrite Hm. set_solver. }
  simpl. rewrite list_lookup_insert_ne by done. by rewrite Hel, Hb.
Qed.

(** One turn of the built-in loop on an [endpoints] dict. *)
Lemma update_builtins_step (pm : list (string * group)) (el : loc)
  (eitems : list (string * val)) (b : string) (rest : list string) (h h' : heap) :
  h !! el = Some (ODict eitems) ->
  update_builtins pm (VRef el) (b :: rest) h = Ok h' ->
  exists h1,
    update_builtins pm (VRef el) rest h1 = Ok h'
    /\ match assoc b eitems, builtin_group pm b with
       | Some e, Some g => assign_builtin h (VRef el) b g = Ok h1
       | _, _ => h1 = h
       end.
Proof.
  intros Hel. cbn [update_builtins py_contains]. rewrite Hel.
  unfold mbind, result_bind, bind, builtin_group, usable, has_key.
  destruct (assoc b eitems) as [e|].
  - destruct (assoc b pm) as [g|].
    + destruct (nonempty g.2).
      * destruct (assign_builtin h (VRef el) b g) as [h1|]; [|done].
        intros H. by exists h1.
      * intros H. by exists h.
    + intros H. by exists h.
  - intros H. exists h. split; [done|]. by destruct (assoc b pm).
Qed.

(** The built-in loop on an [endpoints] dict whose endpoints are different
    objects with different [models] dicts, none of them the [endpoints]
    dict: as for the custom loop. *)
Lemma update_builtins_spec (pm : list (string * group)) (el : loc)
  (eitems : list (string * val)) (names : list string) :
  forall h h',
  h !! el = Some (ODict eitems) ->
  NoDup (el :: mjoin (footprint h <$> omap (fun b => assoc b eitems) names)) ->
  update_builtins pm (VRef el) names h = Ok h' ->
  length h' = length h
  /\ (forall l,
        (forall b e, b ∈ names -> assoc b eitems = Some e ->
                     is_Some (builtin_group pm b) -> l ∉ footprint h e) ->
        h' !! l = h !! l)
  /\ (forall b e g, b ∈ names -> assoc b eitems = Some e ->
        builtin_group pm b = Some g -> endpoint_updated h h' e g).
Proof.
  induction names as [|b rest IH]; intros h h' Hel Hnd Hrun.
  - simpl in Hrun. injection Hrun as <-. split; [done|]. split; [done|].
    intros b e g Hb. by apply elem_of_nil in Hb.
  - apply (update_builtins_step pm el eitems) in Hrun as (h1 & Hrest & Hstep); [|done].
    cbn [omap list_omap] in Hnd.
    destruct (assoc b eitems) as [e|] eqn:Eb.
    + cbn [fmap list_fmap mjoin list_join] in Hnd.
      apply NoDup_cons in Hnd as [Hel_out Hnd].
      apply NoDup_app in Hnd as (Hnd_e & Hdisj & Hnd_rest).
      assert (Hel_e : el ∉ footprint h e) by set_solver.
      assert (Hother : forall b' e' l, b' ∈ rest -> assoc b' eitems = Some e' ->
                 l ∈ footprint h e' -> l ∉ footprint h e).
      { intros b' e' l Hb' He' Hl Hle. apply (Hdisj l Hle).
        apply list_elem_of_join. exists (footprint h e'). split; [done|].
        apply list_elem_of_fmap_2. apply list_elem_of_omap. by exists b'. }
      destruct (builtin_group pm b) as [g|] eqn:Eg.
      * rewrite (assign_builtin_models h el eitems b e g Hel Eb Hel_e) in Hstep.
        destruct (assign_models_frame _ _ _ _ Hstep) as [Hlen1 Hframe1].
        assert (Hel1 : h1 !! el = Some (ODict eitems))
          by (by rewrite Hframe1).
        assert (Hag : forall b' e', b' ∈ rest -> assoc b' eitems = Some e' ->
                  forall l, l ∈ footprint h e' -> h1 !! l = h !! l).
        { intros b' e' Hb' He' l Hl. apply Hframe1. by eapply Hother. }
        assert (Hfps : footprint h1 <$> omap (fun b => assoc b eitems) rest
                       = footprint h <$> omap (fun b => assoc b eitems) rest).
        { apply list_fmap_ext. intros i e' He'. apply footprint_agree.
          apply list_elem_of_lookup_2, list_elem_of_omap in He' as (b' & Hb' & He').
          by apply (Hag b' e'). }
        assert (Hnd1 : NoDup (el :: mjoin (footprint h1 <$> omap (fun b => assoc b eitems) rest))).
        { rewrite Hfps. apply NoDup_cons. split; [set_solver|done]. }
        destruct (IH h1 h' Hel1 Hnd1 Hrest) as (Hlen & Hframe & Hupd).
        assert (Hkeep_e : forall l, l ∈ footprint h e -> h' !! l = h1 !! l).
        { intros l Hl. apply Hframe. intros b' e' Hb' He' _.
          rewrite (footprint_agree h h1 e' (Hag b' e' Hb' He')).
          intros Hl'. by eapply Hother. }
        split; [congruence|]. split.
        -- intros l Hl. rewrite Hframe.
           ++ apply Hframe1. apply (Hl b e); [set_solver|done|by rewrite Eg].
           ++ intros b' e' Hb' He' Hsome.
              rewrite (footprint_agree h h1 e' (Hag b' e' Hb' He')).
              apply (Hl b'); [set_solver|done|done].
        -- intros b0 e0 g0 Hb0 He0 Hg0. apply elem_of_cons in Hb0 as [->|Hb0].
           ++ rewrite Eb in He0. rewrite Eg in Hg0. simplify_eq.
              eapply endpoint_updated_after; [|exact Hkeep_e].
              by apply assign_models_updated.
           ++ eapply endpoint_updated_before; [|exact (Hag b0 e0 Hb0 He0)].
              by apply (Hupd b0).
      * subst h1.
        assert (Hnd0 : NoDup (el :: mjoin (footprint h <$> omap (fun b => assoc b eitems) rest))).
        { apply NoDup_cons. split; [set_solver|done]. }
        destruct (IH h h' Hel Hnd0 Hrest) as (Hlen & Hframe & Hupd).
        split; [done|]. split.
        -- intros l Hl. apply Hframe. intros b' e' Hb'. apply Hl. set_solver.
        -- intros b0 e0 g0 Hb0 He0 Hg0. apply elem_of_cons in Hb0 as [->|Hb0].
           ++ congruence.
           ++ by apply (Hupd b0).
    + subst h1.
      destruct (IH h h' Hel Hnd Hrest) as (Hlen & Hframe & Hupd).
      split; [done|]. split.
      * intros l Hl. apply Hframe. intros b' e' Hb'. apply Hl. set_solver.
      * intros b0 e0 g0 Hb0 He0 Hg0. apply elem_of_cons in Hb0 as [->|Hb0].
        -- congruence.
        -- by apply (Hupd b0).
Qed.

(** The group lists are new objects after the document, one per provider,
    holding the ids of the provider. *)
Lemma alloc_groups_spec (pm : list (string * list string)) :
  forall h h0 gs,
  alloc_groups h pm = (h0, gs) ->
  (exists tail, h0 = h ++ tail /\ Forall (fun o => exists elems, o = OList elems) tail)
  /\ forall p,
       match assoc p pm with
       | Some ids =>
           exists d, assoc p gs = Some (d, ids) /\ length h <= d
                     /\ h0 !! d = Some (OList (VStr <$> ids))
       | None => assoc p gs = None
       end.
Proof.
  induction pm as [|[p0 ids0] rest IH]; intros h h0 gs Halloc.
  - simpl in Halloc. simplify_eq. split; [|done].
    exists []. by rewrite app_nil_r.
  - simpl in Halloc.
    destruct (alloc_groups (h ++ [OList (VStr <$> ids0)]) rest) as [h' gs'] eqn:E.
    simplify_eq.
    destruct (IH _ _ _ E) as [(tail & -> & Htail) Hgs].
    split.
    + exists (OList (VStr <$> ids0) :: tail). split; [by rewrite <- app_assoc|].
      constructor; [by eexists|done].
    + intros p. simpl. destruct (String.eqb p p0).
      * exists (length h). split; [done|]. split; [done|].
        rewrite <- app_assoc. by rewrite lookup_app_r, Nat.sub_diag.
      * specialize (Hgs p). destruct (assoc p rest) as [ids|]; [|done].
        destruct Hgs as (d & Hd & Hle & Hlook).
        exists d. split; [done|]. split; [|done].
        rewrite length_app in Hle. simpl in Hle. lia.
Qed.

(** *** Closed stores and their extensions *)

Lemma assoc_elem_of {A : Type} (k : string) (v : A) (items : list (string * A)) :
  assoc k items = Some v -> v ∈ (snd <$> items).
Proof.
  induction items as [|[k0 v0] rest IH]; simpl; [done|].
  destruct (String.eqb k k0).
  - intros [= ->]. by left.
  - intros H. right. by apply IH.
Qed.

Lemma closed_lookup (h : heap) (l : loc) (o : obj) (v : val) :
  closed h -> h !! l = Some o -> v ∈ vals_of o -> in_store h v.
Proof.
  intros Hc Hl Hv. unfold closed in Hc. rewrite Forall_forall in Hc.
  specialize (Hc o (list_elem_of_lookup_2 _ _ _ Hl)).
  rewrite Forall_forall in Hc. by apply Hc.
Qed.

Lemma closed_field (h : heap) (l : loc) (k : string) (v : val) :
  closed h -> field h l k = Some v -> in_store h v.
Proof.
  unfold field. intros Hc Hf.
  destruct (h !! l) as [[items|elems]|] eqn:E; try done.
  eapply closed_lookup; [done|exact E|]. by eapply assoc_elem_of.
Qed.

Lemma closed_iter (h : heap) (c : val) (entries : list val) :
  closed h -> py_iter h c = Ok entries -> Forall (in_store h) entries.
Proof.
  intros Hc. destruct c as [| | |s|cl]; simpl; try done.
  - intros [= <-]. induction s; simpl; by constructor.
  - destruct (h !! cl) as [[items|elems]|] eqn:E; try done; intros [= <-].
    + rewrite Forall_fmap. by apply Forall_true.
    + rewrite Forall_forall. intros v Hv. by eapply closed_lookup.
Qed.

Lemma footprint_in_store (h : heap) (e : val) :
  closed h -> in_store h e -> Forall (fun l => l < length h) (footprint h e).
Proof.
  intros Hc He. destruct e as [| | | |ep]; simpl; try by constructor.
  constructor; [done|].
  destruct (field h ep "models") as [[| | | |m]|] eqn:Em; try by constructor.
  constructor; [|by constructor]. by apply (closed_field h ep "models" (VRef m)).
Qed.

(** Objects of the document are where they were in an extension of the
    store. *)
Lemma lookup_ext (h tail : heap) (l : loc) :
  l < length h -> (h ++ tail) !! l = h !! l.
Proof. intros Hl. by apply lookup_app_l. Qed.

Lemma footprint_ext (h tail : heap) (e : val) :
  in_store h e -> footprint (h ++ tail) e = footprint h e.
Proof.
  destruct e as [| | | |ep]; simpl; try done. intros Hep.
  by rewrite (field_agree h (h ++ tail) ep "models") by (by apply lookup_ext).
Qed.

Lemma alloc_groups_length (pm : list (string * list string)) :
  forall h h0 gs,
  alloc_groups h pm = (h0, gs) -> length h0 = length h + length pm.
Proof.
  induction pm as [|[p0 ids0] rest IH]; intros h h0 gs Halloc; simpl in Halloc.
  - simplify_eq. simpl. lia.
  - destruct (alloc_groups (h ++ [OList (VStr <$> ids0)]) rest) as [h' gs'] eqn:E.
    simplify_eq. apply IH in E. rewrite length_app in E. simpl in *. lia.
Qed.

(** *** The groups as the loops see them *)

Lemma builtin_group_ids (pm : list (string * list string)) (h h0 : heap)
  (gs : list (string * group)) (b : string) :
  alloc_groups h pm = (h0, gs) ->
  match matched_ids pm b with
  | Some ids =>
      exists d, builtin_group gs b = Some (d, ids) /\ length h <= d
                /\ h0 !! d = Some (OList (VStr <$> ids))
  | None => builtin_group gs b = None
  end.
Proof.
  intros Ha. destruct (alloc_groups_spec pm h h0 gs Ha) as [_ Hgs].
  specialize (Hgs b). unfold matched_ids, builtin_group, usable.
  destruct (assoc b pm) as [ids|].
  - destruct Hgs as (d & -> & Hle & Hd). simpl.
    destruct (nonempty ids); [|done]. by exists d.
  - by rewrite Hgs.
Qed.

Lemma custom_group_ids (pm : list (string * list string)) (h h0 hx : heap)
  (gs : list (string * group)) (e : val) :
  alloc_groups h pm = (h0, gs) ->
  match custom_ids pm hx e with
  | Some ids =>
      exists d, custom_group gs hx e = Some (d, ids) /\ length h <= d
                /\ h0 !! d = Some (OList (VStr <$> ids))
  | None => custom_group gs hx e = None
  end.
Proof.
  intros Ha. unfold custom_ids, custom_group.
  destruct (py_get hx e "name" (VStr "")) as [[| | |s|]|]; try done.
  simpl. apply (builtin_group_ids pm h h0 gs s Ha).
Qed.

Lemma py_iter_agree (h h2 : heap) (cv : val) :
  (forall l, cv = VRef l -> h2 !! l = h !! l) ->
  py_iter h2 cv = py_iter h cv.
Proof.
  destruct cv as [| | | |cl]; try done. intros H. simpl. by rewrite (H cl).
Qed.

(** *** The whole update of a document with an [endpoints] dict *)

Lemma update_config_spec (h h' : heap) (c el : loc)
  (eitems : list (string * val)) (pm : list (string * list string)) :
  closed h ->
  endpoints_dict h (VRef c) = Some (el, eitems) ->
  separated h (VRef c) ->
  update_config h (VRef c) pm = Ok h' ->
  length h' = S (length h + length pm)
  /\ (forall l, l < length h ->
        (forall e ids, receives pm h eitems e ids -> l ∉ footprint h e) ->
        h' !! l = h !! l)
  /\ (forall e ids, receives pm h eitems e ids ->
        exists d, h' !! d = Some (OList (VStr <$> ids))
                  /\ endpoint_updated h h' e (d, ids)).
Proof.
  intros Hclosed Hdict Hsep Hrun.
  unfold separated in Hsep. rewrite Hdict in Hsep.
  unfold endpoints_dict in Hdict.
  destruct (field h c "endpoints") as [[| | | |el']|] eqn:Hf; try done.
  destruct (h !! el') as [[eitems'|]|] eqn:Hel; try done.
  injection Hdict as -> ->.
  unfold update_config, update_endpoints in Hrun.
  destruct (alloc_groups h pm) as [h0 gs] eqn:Ha.
  destruct (alloc_groups_spec pm h h0 gs Ha) as [(tail & -> & Htail) Hgs].
  rewrite <- app_assoc in Hrun.
  set (h1 := h ++ tail ++ [ODict []]) in *.
  assert (Hlen_tail : length (h ++ tail) = length h + length pm)
    by (by eapply alloc_groups_length).
  assert (Hc_lt : c < length h).
  { unfold field in Hf. destruct (h !! c) eqn:E; [|done]. by eapply lookup_lt_Some. }
  assert (Hel_lt : el < length h) by (by eapply lookup_lt_Some).
  assert (Hext : forall l, l < length h -> h1 !! l = h !! l)
    by (intros l Hl; by apply lookup_ext).
  (* the entries of the document *)
  set (B := builtin_entries eitems) in *.
  set (C := custom_entries h eitems) in *.
  assert (HB_in : Forall (in_store h) B).
  { rewrite Forall_forall. intros e He.
    apply list_elem_of_omap in He as (b & _ & He).
    eapply closed_lookup; [done|exact Hel|]. by eapply assoc_elem_of. }
  assert (HC_in : Forall (in_store h) C).
  { unfold C, custom_entries.
    destruct (assoc "custom" eitems) as [cv|]; [|by constructor].
    destruct (py_iter h cv) as [entries|] eqn:Ei; [|by constructor].
    by eapply closed_iter. }
  assert (Hfp1 : forall e, e ∈ B ++ C -> footprint h1 e = footprint h e).
  { intros e He. apply footprint_ext.
    apply elem_of_app in He as [He|He];
      [rewrite Forall_forall in HB_in; by apply HB_in
      |rewrite Forall_forall in HC_in; by apply HC_in]. }
  assert (Hfp_lt : forall e l, e ∈ B ++ C -> l ∈ footprint h e -> l < length h).
  { intros e l He Hl.
    assert (in_store h e).
    { apply elem_of_app in He as [He|He];
        [rewrite Forall_forall in HB_in; by apply HB_in
        |rewrite Forall_forall in HC_in; by apply HC_in]. }
    pose proof (footprint_in_store h e Hclosed H) as Hall.
    rewrite Forall_forall in Hall. by apply Hall. }
  (* what the separation gives *)
  apply NoDup_cons in Hsep as [Hc_out Hsep].
  apply NoDup_cons in Hsep as [Hel_out Hsep].
  apply NoDup_app in Hsep as (Hnd_cl & Hcl_out & Hsep).
  rewrite fmap_app, join_app in Hsep, Hc_out, Hel_out, Hcl_out.
  apply NoDup_app in Hsep as (Hnd_B & HBC & Hnd_C).
  (* reading the endpoints *)
  assert (Hget : py_get h1 (VRef c) "endpoints" (VRef (length (h ++ tail))) = Ok (VRef el)).
  { unfold py_get. rewrite (Hext c Hc_lt). unfold field in Hf.
    destruct (h !! c) as [[citems|]|]; try done. by rewrite Hf. }
  rewrite Hget in Hrun. cbn [mbind result_bind bind] in Hrun.
  destruct (update_builtins gs (VRef el) BUILTINS h1) as [h2|] eqn:Hb; [|done].
  cbn [mbind result_bind bind] in Hrun.
  (* the built-in loop *)
  assert (Hel1 : h1 !! el = Some (ODict eitems)) by (by rewrite Hext).
  assert (HfpB : footprint h1 <$> B = footprint h <$> B).
  { apply list_fmap_ext. intros i e He. apply Hfp1.
    apply elem_of_app. left. by eapply list_elem_of_lookup_2. }
  assert (HfpC : footprint h1 <$> C = footprint h <$> C).
  { apply list_fmap_ext. intros i e He. apply Hfp1.
    apply elem_of_app. right. by eapply list_elem_of_lookup_2. }
  assert (HinB : forall b e, b ∈ BUILTINS -> assoc b eitems = Some e -> e ∈ B).
  { intros b e Hbin He. apply list_elem_of_omap. by exists b. }
  assert (HjoinB : forall e l, e ∈ B -> l ∈ footprint h e -> l ∈ mjoin (footprint h <$> B)).
  { intros e l He Hl. apply list_elem_of_join. exists (footprint h e).
    split; [done|]. by apply list_elem_of_fmap_2. }
  assert (HjoinC : forall e l, e ∈ C -> l ∈ footprint h e -> l ∈ mjoin (footprint h <$> C)).
  { intros e l He Hl. apply list_elem_of_join. exists (footprint h e).
    split; [done|]. by apply list_elem_of_fmap_2. }
  destruct (update_builtins_spec gs el eitems BUILTINS h1 h2 Hel1) as (Hlen2 & Hframe2 & Hupd2).
  { change (NoDup (el :: mjoin (footprint h1 <$> B))).
    rewrite HfpB. apply NoDup_cons. split; [|done].
    intros Hin. apply Hel_out. apply elem_of_app. right. apply elem_of_app. by left. }
  { done. }
  assert (F2 : forall l,
            (forall b e, b ∈ BUILTINS -> assoc b eitems = Some e ->
                         is_Some (builtin_group gs b) -> l ∉ footprint h e) ->
            h2 !! l = h1 !! l).
  { intros l Hl. apply Hframe2. intros b e Hbin He Hsome.
    rewrite Hfp1 by (apply elem_of_app; left; by eapply HinB). by eapply Hl. }
  assert (Hout2 : forall l, l ∉ mjoin (footprint h <$> B) -> h2 !! l = h1 !! l).
  { intros l Hl. apply F2. intros b e Hbin He _ Hle. apply Hl.
    eapply HjoinB; [by eapply HinB|done]. }
  assert (Hel2 : h2 !! el = Some (ODict eitems)).
  { rewrite Hout2; [done|]. intros Hin. apply Hel_out.
    apply elem_of_app. right. apply elem_of_app. by left. }
  (* the custom loop *)
  assert (Hcustom : exists h3,
            update_customs gs C h2 = Ok h3
            /\ py_setitem h3 (VRef c) "endpoints" (VRef el) = Ok h').
  { unfold py_contains in Hrun. rewrite Hel2 in Hrun.
    cbn [mbind result_bind bind] in Hrun. unfold C, custom_entries, has_key in *.
    unfold custom_loc in Hcl_out.
    destruct (assoc "custom" eitems) as [cv|] eqn:Ecv.
    - unfold py_getitem in Hrun. rewrite Hel2, Ecv in Hrun.
      cbn [mbind result_bind bind] in Hrun.
      assert (Hit : py_iter h2 cv = py_iter h cv).
      { apply py_iter_agree. intros cl ->.
        assert (cl < length h).
        { apply (closed_field h el "custom" (VRef cl) Hclosed).
          unfold field. by rewrite Hel. }
        rewrite Hout2, Hext; [done|done|].
        intros Hin. apply (Hcl_out cl); [set_solver|].
        apply elem_of_app. by left. }
      rewrite Hit in Hrun.
      destruct (py_iter h cv) as [entries|]; [|done].
      cbn [mbind result_bind bind] in Hrun.
      destruct (update_customs gs entries h2) as [h3|]; [|done].
      by exists h3.
    - exists h2. by split. }
  destruct Hcustom as (h3 & Hcu & Hset).
  assert (HC2 : forall e, e ∈ C -> forall l, l ∈ footprint h1 e -> h2 !! l = h1 !! l).
  { intros e He l Hl. rewrite Hfp1 in Hl by (apply elem_of_app; by right).
    apply Hout2. intros Hin. apply (HBC l Hin). by eapply HjoinC. }
  assert (HfpC2 : footprint h2 <$> C = footprint h <$> C).
  { rewrite <- HfpC. apply list_fmap_ext. intros i e He.
    apply footprint_agree, HC2. by eapply list_elem_of_lookup_2. }
  destruct (update_customs_spec gs C h2 h3) as (Hlen3 & Hframe3 & Hupd3);
    [by rewrite HfpC2|done|].
  assert (HgC : forall e, e ∈ C -> custom_group gs h2 e = custom_group gs h e).
  { intros e He. rewrite (custom_group_agree gs h1 h2 e (HC2 e He)).
    apply custom_group_agree. intros l Hl. apply Hext.
    eapply Hfp_lt; [|done]. apply elem_of_app. by right. }
  assert (HfC : forall e, e ∈ C -> footprint h2 e = footprint h e).
  { intros e He. rewrite (footprint_agree h1 h2 e (HC2 e He)).
    apply Hfp1. apply elem_of_app. by right. }
  assert (F3 : forall l,
            (forall e, e ∈ C -> is_Some (custom_group gs h e) -> l ∉ footprint h e) ->
            h3 !! l = h2 !! l).
  { intros l Hl. apply Hframe3. intros e He Hsome.
    rewrite HfC by done. apply Hl; [done|]. by rewrite <- HgC. }
  assert (Hout3 : forall l, l ∉ mjoin (footprint h <$> C) -> h3 !! l = h2 !! l).
  { intros l Hl. apply F3. intros e He _ Hle. apply Hl. by eapply HjoinC. }
  (* the last assignment puts back the value it read *)
  assert (Hh' : h' = h3).
  { apply py_setitem_inv in Hset as (c' & citems & [= <-] & Hc3 & ->).
    assert (Hc0 : h !! c = Some (ODict citems)).
    { rewrite <- Hc3, Hout3, Hout2, Hext; [done|done| |].
      - intros Hin. apply Hc_out. right. apply elem_of_app. right.
        apply elem_of_app. by left.
      - intros Hin. apply Hc_out. right. apply elem_of_app. right.
        apply elem_of_app. by right. }
    unfold field in Hf. rewrite Hc0 in Hf.
    rewrite set_item_same by done. by apply list_insert_id. }
  subst h'.
  assert (Hlen1 : length h1 = S (length h + length pm)).
  { unfold h1. rewrite app_assoc, length_app, Hlen_tail. simpl. lia. }
  assert (Hhigh : forall l, length h <= l -> h3 !! l = h1 !! l).
  { intros l Hl. rewrite Hout3, Hout2; [done| |].
    - intros Hin. apply list_elem_of_join in Hin as (fp & Hl' & Hfp).
      apply list_elem_of_fmap in Hfp as (e & -> & He).
      assert (l < length h); [|lia].
      eapply Hfp_lt; [|done]. apply elem_of_app. by left.
    - intros Hin. apply list_elem_of_join in Hin as (fp & Hl' & Hfp).
      apply list_elem_of_fmap in Hfp as (e & -> & He).
      assert (l < length h); [|lia].
      eapply Hfp_lt; [|done]. apply elem_of_app. by right. }
  assert (Hlist : forall d ids, length h <= d ->
            (h ++ tail) !! d = Some (OList (VStr <$> ids)) ->
            h3 !! d = Some (OList (VStr <$> ids))).
  { intros d ids Hle Hd. rewrite Hhigh by done. unfold h1.
    rewrite app_assoc. rewrite lookup_app_l; [done|]. by eapply lookup_lt_Some. }
  split; [congruence|]. split.
  - intros l Hl Hfree. rewrite F3, F2, Hext; [done|done| |].
    + intros b e Hbin He Hsome.
      pose proof (builtin_group_ids pm h (h ++ tail) gs b Ha) as Hids.
      destruct (matched_ids pm b) as [ids|] eqn:Em.
      * apply (Hfree e ids). left. by exists b.
      * rewrite Hids in Hsome. by destruct Hsome.
    + intros e He Hsome.
      pose proof (custom_group_ids pm h (h ++ tail) h gs e Ha) as Hids.
      destruct (custom_ids pm h e) as [ids|] eqn:Em.
      * apply (Hfree e ids). right. by split.
      * rewrite Hids in Hsome. by destruct Hsome.
  - intros e ids [(b & Hbin & He & Hm)|[He Hm]].
    + pose proof (builtin_group_ids pm h (h ++ tail) gs b Ha) as Hids.
      rewrite Hm in Hids. destruct Hids as (d & Hg & Hle & Hd).
      exists d. split; [by apply Hlist|].
      assert (HeB : e ∈ B) by (by eapply HinB).
      eapply endpoint_updated_before.
      * eapply endpoint_updated_after; [by apply (Hupd2 b e (d, ids))|].
        intros l Hl. apply Hout3. rewrite Hfp1 in Hl by (apply elem_of_app; by left).
        apply HBC. by eapply HjoinB.
      * intros l Hl. apply Hext. eapply Hfp_lt; [|done]. apply elem_of_app. by left.
    + pose proof (custom_group_ids pm h (h ++ tail) h gs e Ha) as Hids.
      rewrite Hm in Hids. destruct Hids as (d & Hg & Hle & Hd).
      exists d. split; [by apply Hlist|].
      eapply endpoint_updated_before.
      * apply Hupd3; [done|]. by rewrite HgC.
      * intros l Hl. rewrite Hout2, Hext; [done| |].
        -- eapply Hfp_lt; [|done]. apply elem_of_app. by right.
        -- intros Hin. apply (HBC l Hin). by eapply HjoinC.
Qed.

(** *** Lists are never written to *)

Lemma lists_kept_refl (h : heap) : lists_kept h h.
Proof. by intros l elems. Qed.

Lemma lists_kept_trans (h1 h2 h3 : heap) :
  lists_kept h1 h2 -> lists_kept h2 h3 -> lists_kept h1 h3.
Proof. intros H12 H23 l elems Hl. by apply H23, H12. Qed.

Lemma lists_kept_app (h tail : heap) : lists_kept h (h ++ tail).
Proof. intros l elems Hl. by apply lookup_app_l_Some. Qed.

Lemma py_setitem_lists (h h' : heap) (c : val) (k : string) (v : val) :
  py_setitem h c k v = Ok h' -> lists_kept h h'.
Proof.
  intros (l & items & -> & Hl & ->)%py_setitem_inv l' elems Hl'.
  rewrite list_lookup_insert_ne; [done|]. intros <-. congruence.
Qed.

Lemma assign_models_lists (h h' : heap) (e : val) (g : group) :
  assign_models h e g = Ok h' -> lists_kept h h'.
Proof.
  unfold assign_models, mbind, result_bind, bind.
  destruct (py_getitem h e "models") as [mv|]; [|done].
  destruct (py_setitem h mv "default" (VRef g.1)) as [h1|] eqn:Es; [|done].
  apply py_setitem_lists in Es.
  destruct (more_than_one g.2).
  - intros Ht%py_setitem_lists. by eapply lists_kept_trans.
  - by intros [= <-].
Qed.

Lemma assign_builtin_lists (h h' : heap) (endpoints : val) (b : string) (g : group) :
  assign_builtin h endpoints b g = Ok h' -> lists_kept h h'.
Proof.
  unfold assign_builtin, mbind, result_bind, bind.
  destruct (py_getitem h endpoints b) as [ep|]; [|done].
  destruct (py_getitem h ep "models") as [mv|]; [|done].
  destruct (py_setitem h mv "default" (VRef g.1)) as [h1|] eqn:Es; [|done].
  apply py_setitem_lists in Es.
  destruct (more_than_one g.2).
  - destruct (py_getitem h1 endpoints b) as [ep'|]; [|done].
    intros Ht%py_setitem_lists. by eapply lists_kept_trans.
  - by intros [= <-].
Qed.

Lemma update_builtins_lists (pm : list (string * group)) (endpoints : val)
  (names : list string) :
  forall h h', update_builtins pm endpoints names h = Ok h' -> lists_kept h h'.
Proof.
  induction names as [|b rest IH]; intros h h'; simpl.
  - intros [= <-]. apply lists_kept_refl.
  - unfold mbind, result_bind, bind.
    destruct (py_contains h endpoints b) as [present|]; [|done].
    destruct present, (assoc b pm) as [g|]; try apply IH.
    destruct (nonempty g.2); [|apply IH].
    destruct (assign_builtin h endpoints b g) as [h1|] eqn:Eb; [|done].
    intros Hrest%IH. eapply lists_kept_trans; [|done].
    by eapply assign_builtin_lists.
Qed.

Lemma update_customs_lists (pm : list (string * group)) (entries : list val) :
  forall h h', update_customs pm entries h = Ok h' -> lists_kept h h'.
Proof.
  induction entries as [|e rest IH]; intros h h'.
  - simpl. intros [= <-]. apply lists_kept_refl.
  - intros (h1 & Hrest%IH & Hstep)%update_customs_step.
    eapply lists_kept_trans; [|done].
    destruct (custom_group pm h e).
    + by eapply assign_models_lists.
    + subst. apply lists_kept_refl.
Qed.

(** No list of the document is changed by the update, whatever the
    document shares. *)
Lemma update_config_lists (h h' : heap) (config : val)
  (pm : list (string * list string)) :
  update_config h config pm = Ok h' -> lists_kept h h'.
Proof.
  unfold update_config, update_endpoints.
  destruct (alloc_groups h pm) as [h0 gs] eqn:Ha.
  destruct (alloc_groups_spec pm h h0 gs Ha) as [(tail & -> & _) _].
  unfold mbind, result_bind, bind.
  destruct (py_get _ config "endpoints" _) as [endpoints|]; [|done].
  destruct (update_builtins gs endpoints BUILTINS _) as [h2|] eqn:Hb; [|done].
  apply update_builtins_lists in Hb.
  destruct (py_contains h2 endpoints "custom") as [has_custom|]; [|done].
  assert (H03 : forall h3,
            lists_kept h2 h3 ->
            py_setitem h3 config "endpoints" endpoints = Ok h' -> lists_kept h h').
  { intros h3 H23 Hs%py_setitem_lists.
    eapply lists_kept_trans; [apply lists_kept_app|].
    eapply lists_kept_trans; [apply lists_kept_app|].
    eapply lists_kept_trans; [exact Hb|].
    by eapply lists_kept_trans. }
  destruct has_custom.
  - destruct (py_getitem h2 endpoints "custom") as [cv|]; [|done].
    destruct (py_iter h2 cv) as [entries|]; [|done].
    destruct (update_customs gs entries h2) as [h3|] eqn:Hc; [|done].
    apply H03. by eapply update_customs_lists.
  - apply H03, lists_kept_refl.
Qed.

(** *** An update in which no endpoint receives a group *)




End PyFacts.

(** ** Two runs side by side *)

Module LockstepFacts.

Import Py PyFacts.

Lemma assoc_erase (k : string) (items : list (string * val)) :
  written_key k = false -> assoc k (erase items) = assoc k items.
Proof.
  intros Hk. induction items as [|[k0 v0] rest IH]; [done|].
  unfold erase. rewrite filter_cons. fold (erase rest). simpl.
  destruct (String.eqb_spec k k0) as [->|Hne].
  - rewrite decide_True by done. simpl. by rewrite String.eqb_refl.
  - case_decide; simpl; [|done].
    by destruct (String.eqb_spec k k0).
Qed.

Lemma assoc_item_map (rho : loc -> loc) (k : string) (items : list (string * val)) :
  assoc k (item_map rho <$> items) = vmap rho <$> assoc k items.
Proof.
  induction items as [|[k0 v0] rest IH]; [done|]. simpl.
  by destruct (String.eqb k k0).
Qed.

Lemma erase_set_item (k : string) (v : val) (items : list (string * val)) :
  written_key k = true -> erase (set_item k v items) = erase items.
Proof.
  intros Hk. induction items as [|[k0 v0] rest IH]; simpl.
  - unfold erase. rewrite filter_cons. simpl. by rewrite decide_False by congruence.
  - destruct (String.eqb_spec k k0) as [->|Hne].
    + unfold erase. rewrite !filter_cons. simpl.
      by rewrite !decide_False by congruence.
    + unfold erase in *. rewrite !filter_cons. simpl. rewrite IH. done.
Qed.

Lemma erase_item_map (rho : loc -> loc) (items : list (string * val)) :
  erase (item_map rho <$> items) = item_map rho <$> erase items.
Proof.
  induction items as [|[k0 v0] rest IH]; [done|].
  unfold erase in *. rewrite fmap_cons, !filter_cons. simpl.
  case_decide; [rewrite fmap_cons|]; by rewrite IH.
Qed.

Lemma set_item_item_map (rho : loc -> loc) (k : string) (v : val)
  (items : list (string * val)) :
  item_map rho <$> set_item k v items = set_item k (vmap rho v) (item_map rho <$> items).
Proof.
  induction items as [|[k0 v0] rest IH]; [done|]. simpl.
  destruct (String.eqb k k0); [done|]. rewrite !fmap_cons. by rewrite IH.
Qed.

Section nav.

Context (D : loc -> Prop) (rho : loc -> loc).

Lemma nav_sim_dict (hA hB : heap) (l : loc) (iA : list (string * val)) :
  nav_sim D rho hA hB -> D l -> hA !! l = Some (ODict iA) ->
  exists iB, hB !! rho l = Some (ODict iB)
             /\ erase iB = item_map rho <$> erase iA
             /\ Forall (in_dom D) (snd <$> erase iA).
Proof.
  intros Hsim Hl HA. destruct (Hsim l Hl) as (oA & oB & HA' & HB & Hnav & Hdom).
  rewrite HA in HA'. injection HA' as <-.
  destruct oB as [iB|eB]; simpl in Hnav; [|done].
  injection Hnav as Hnav. by exists iB.
Qed.

Lemma nav_sim_list (hA hB : heap) (l : loc) (eA : list val) :
  nav_sim D rho hA hB -> D l -> hA !! l = Some (OList eA) ->
  hB !! rho l = Some (OList (vmap rho <$> eA)) /\ Forall (in_dom D) eA.
Proof.
  intros Hsim Hl HA. destruct (Hsim l Hl) as (oA & oB & HA' & HB & Hnav & Hdom).
  rewrite HA in HA'. injection HA' as <-.
  destruct oB as [iB|eB]; simpl in Hnav; [done|].
  injection Hnav as ->. by split.
Qed.

Lemma nav_sim_none (hA hB : heap) (l : loc) :
  nav_sim D rho hA hB -> D l -> hA !! l = None -> False.
Proof.
  intros Hsim Hl HA. destruct (Hsim l Hl) as (oA & oB & HA' & _). congruence.
Qed.

(** A key that is never assigned to reads the same in both stores. *)
Lemma nav_assoc (iA iB : list (string * val)) (k : string) :
  erase iB = item_map rho <$> erase iA ->
  written_key k = false ->
  assoc k iB = vmap rho <$> assoc k iA.
Proof.
  intros He Hk.
  by rewrite <- (assoc_erase k iB Hk), He, assoc_item_map, assoc_erase.
Qed.

Lemma nav_assoc_dom (iA : list (string * val)) (k : string) (v : val) :
  Forall (in_dom D) (snd <$> erase iA) ->
  written_key k = false ->
  assoc k iA = Some v -> in_dom D v.
Proof.
  intros Hdom Hk Hv. rewrite <- (assoc_erase k iA Hk) in Hv.
  apply assoc_elem_of in Hv. rewrite Forall_forall in Hdom. by apply Hdom.
Qed.

Lemma vmap_str_elem (k : string) (elems : list val) :
  VStr k ∈ vmap rho <$> elems <-> VStr k ∈ elems.
Proof.
  rewrite list_elem_of_fmap. split.
  - intros (v & Hv & Hin). destruct v; simpl in Hv; try discriminate.
    by injection Hv as ->.
  - intros Hin. by exists (VStr k).
Qed.

Lemma py_contains_nav (hA hB : heap) (c : val) (k : string) :
  nav_sim D rho hA hB -> in_dom D c -> written_key k = false ->
  py_contains hB (vmap rho c) k = py_contains hA c k.
Proof.
  intros Hsim Hc Hk. destruct c as [| | | |l]; try done. simpl in *.
  destruct (hA !! l) as [[iA|eA]|] eqn:HA.
  - destruct (nav_sim_dict hA hB l iA Hsim Hc HA) as (iB & -> & He & _).
    unfold has_key. rewrite (nav_assoc iA iB k He Hk).
    by destruct (assoc k iA).
  - destruct (nav_sim_list hA hB l eA Hsim Hc HA) as [-> _].
    f_equal. apply bool_decide_ext, vmap_str_elem.
  - by destruct (nav_sim_none hA hB l Hsim Hc HA).
Qed.

Lemma py_getitem_nav (hA hB : heap) (c : val) (k : string) :
  nav_sim D rho hA hB -> in_dom D c -> written_key k = false ->
  py_getitem hB (vmap rho c) k = rmap (vmap rho) (py_getitem hA c k)
  /\ forall v, py_getitem hA c k = Ok v -> in_dom D v.
Proof.
  intros Hsim Hc Hk. destruct c as [| | | |l]; try done. simpl in *.
  destruct (hA !! l) as [[iA|eA]|] eqn:HA.
  - destruct (nav_sim_dict hA hB l iA Hsim Hc HA) as (iB & -> & He & Hdom).
    rewrite (nav_assoc iA iB k He Hk). split.
    + by destruct (assoc k iA).
    + intros v Hv. destruct (assoc k iA) eqn:Ea; [|done]. simplify_eq.
      by eapply nav_assoc_dom.
  - destruct (nav_sim_list hA hB l eA Hsim Hc HA) as [-> _]. by split.
  - by destruct (nav_sim_none hA hB l Hsim Hc HA).
Qed.

Lemma py_get_nav (hA hB : heap) (c : val) (k : string) (dflt : val) :
  nav_sim D rho hA hB -> in_dom D c -> written_key k = false ->
  py_get hB (vmap rho c) k (vmap rho dflt) = rmap (vmap rho) (py_get hA c k dflt)
  /\ forall v, in_dom D dflt -> py_get hA c k dflt = Ok v -> in_dom D v.
Proof.
  intros Hsim Hc Hk. destruct c as [| | | |l]; try done. simpl in *.
  destruct (hA !! l) as [[iA|eA]|] eqn:HA.
  - destruct (nav_sim_dict hA hB l iA Hsim Hc HA) as (iB & -> & He & Hdom).
    rewrite (nav_assoc iA iB k He Hk). split.
    + by destruct (assoc k iA).
    + intros v Hd Hv. destruct (assoc k iA) eqn:Ea; simplify_eq; [|done].
      by eapply nav_assoc_dom.
  - destruct (nav_sim_list hA hB l eA Hsim Hc HA) as [-> _]. by split.
  - by destruct (nav_sim_none hA hB l Hsim Hc HA).
Qed.

Context (Hinj : inj_on D rho).

Lemma py_setitem_nav (hA hB hA' hB' : heap) (l : loc) (k : string) (v : val) :
  nav_sim D rho hA hB -> D l -> written_key k = true ->
  py_setitem hA (VRef l) k v = Ok hA' ->
  py_setitem hB (VRef (rho l)) k (vmap rho v) = Ok hB' ->
  nav_sim D rho hA' hB'
  /\ hA' = write1 hA (l, k, v)
  /\ hB' = write1 hB (wmap rho (l, k, v)).
Proof.
  intros Hsim Hl Hk HA HB.
  apply py_setitem_inv in HA as (? & iA & [= <-] & HlA & ->).
  apply py_setitem_inv in HB as (? & iB & [= <-] & HlB & ->).
  split; [|split].
  - intros l' Hl'. destruct (decide (l' = l)) as [->|Hne].
    + destruct (nav_sim_dict hA hB l iA Hsim Hl HlA) as (iB' & HlB' & He & Hdom).
      rewrite HlB in HlB'. injection HlB' as <-.
      exists (ODict (set_item k v iA)), (ODict (set_item k (vmap rho v) iB)).
      rewrite !list_lookup_insert_eq by (by eapply lookup_lt_Some).
      split; [done|]. split; [done|]. simpl.
      rewrite !erase_set_item by done. by split; [f_equal|].
    + destruct (Hsim l' Hl') as (oA & oB & HA' & HB' & Hnav & Hdom).
      exists oA, oB. rewrite !list_lookup_insert_ne; [done| |done].
      intros Heq. apply Hne. symmetry. by apply Hinj.
  - unfold write1. simpl. by rewrite HlA.
  - unfold write1, wmap. simpl. by rewrite HlB.
Qed.

Lemma assign_models_nav (hA hB hA' hB' : heap) (e : val) (g : group) :
  nav_sim D rho hA hB -> in_dom D e -> D g.1 ->
  assign_models hA e g = Ok hA' ->
  assign_models hB (vmap rho e) (group_map rho g) = Ok hB' ->
  exists ws,
    hA' = exec ws hA /\ hB' = exec (wmap rho <$> ws) hB
    /\ nav_sim D rho hA' hB' /\ Forall (good_write D) ws.
Proof.
  intros Hsim He Hg. unfold assign_models, mbind, result_bind, bind. simpl.
  destruct (py_getitem_nav hA hB e "models" Hsim He eq_refl) as [-> Hdom].
  destruct (py_getitem hA e "models") as [mv|] eqn:Em; [|done]. simpl.
  specialize (Hdom mv eq_refl).
  destruct (py_setitem hA mv "default" (VRef g.1)) as [hA1|] eqn:EA; [|done].
  destruct (py_setitem hB (vmap rho mv) "default" (VRef (rho g.1)))
    as [hB1|] eqn:EB; [|done].
  pose proof EA as EA'. apply py_setitem_inv in EA' as (m & iA & -> & _ & _).
  destruct (py_setitem_nav hA hB hA1 hB1 m "default" (VRef g.1) Hsim Hdom eq_refl EA EB)
    as (Hsim1 & -> & ->).
  destruct (more_than_one g.2).
  - intros HA HB.
    pose proof HA as HA'. apply py_setitem_inv in HA' as (ep & iE & -> & _ & _).
    destruct (py_setitem_nav _ _ hA' hB' ep "titleModel" (VStr (last_id g.2))
                Hsim1 He eq_refl HA HB) as (Hsim2 & -> & ->).
    exists [(m, "default", VRef g.1); (ep, "titleModel", VStr (last_id g.2))].
    split; [done|]. split; [done|]. split; [done|].
    repeat constructor; done.
  - intros [= <-] [= <-].
    exists [(m, "default", VRef g.1)].
    split; [done|]. split; [done|]. split; [done|].
    repeat constructor; done.
Qed.

Lemma assign_builtin_nav (hA hB hA' hB' : heap) (endpoints : val) (b : string)
  (g : group) :
  nav_sim D rho hA hB -> in_dom D endpoints -> D g.1 ->
  written_key b = false ->
  assign_builtin hA endpoints b g = Ok hA' ->
  assign_builtin hB (vmap rho endpoints) b (group_map rho g) = Ok hB' ->
  exists ws,
    hA' = exec ws hA /\ hB' = exec (wmap rho <$> ws) hB
    /\ nav_sim D rho hA' hB' /\ Forall (good_write D) ws.
Proof.
  intros Hsim He Hg Hb. unfold assign_builtin, mbind, result_bind, bind. simpl.
  destruct (py_getitem_nav hA hB endpoints b Hsim He Hb) as [-> Hdom_ep].
  destruct (py_getitem hA endpoints b) as [ep|] eqn:Eep; [|done]. simpl.
  specialize (Hdom_ep ep eq_refl).
  destruct (py_getitem_nav hA hB ep "models" Hsim Hdom_ep eq_refl) as [-> Hdom].
  destruct (py_getitem hA ep "models") as [mv|] eqn:Em; [|done]. simpl.
  specialize (Hdom mv eq_refl).
  destruct (py_setitem hA mv "default" (VRef g.1)) as [hA1|] eqn:EA; [|done].
  destruct (py_setitem hB (vmap rho mv) "default" (VRef (rho g.1)))
    as [hB1|] eqn:EB; [|done].
  pose proof EA as EA'. apply py_setitem_inv in EA' as (m & iA & -> & _ & _).
  destruct (py_setitem_nav hA hB hA1 hB1 m "default" (VRef g.1) Hsim Hdom eq_refl EA EB)
    as (Hsim1 & -> & ->).
  destruct (more_than_one g.2).
  - destruct (py_getitem_nav _ _ endpoints b Hsim1 He Hb) as [-> Hdom_ep'].
    destruct (py_getitem (write1 hA (m, "default", VRef g.1)) endpoints b)
      as [ep'|] eqn:Eep'; [|done]. simpl.
    specialize (Hdom_ep' ep' eq_refl).
    intros HA HB.
    pose proof HA as HA'. apply py_setitem_inv in HA' as (lep & iE & -> & _ & _).
    destruct (py_setitem_nav _ _ hA' hB' lep "titleModel" (VStr (last_id g.2))
                Hsim1 Hdom_ep' eq_refl HA HB) as (Hsim2 & -> & ->).
    exists [(m, "default", VRef g.1); (lep, "titleModel", VStr (last_id g.2))].
    split; [done|]. split; [done|]. split; [done|].
    repeat constructor; done.
  - intros [= <-] [= <-].
    exists [(m, "default", VRef g.1)].
    split; [done|]. split; [done|]. split; [done|].
    repeat constructor; done.
Qed.

Lemma assoc_groups_map (p : string) (gs : list (string * group)) :
  assoc p (groups_map rho gs) = group_map rho <$> assoc p gs.
Proof.
  induction gs as [|[p0 g0] rest IH]; [done|]. simpl.
  by destruct (String.eqb p p0).
Qed.

Lemma exec_app (ws1 ws2 : list write) (h : heap) :
  exec (ws1 ++ ws2) h = exec ws2 (exec ws1 h).
Proof. apply fold_left_app. Qed.

Lemma update_builtins_nav (gs : list (string * group)) (endpoints : val)
  (names : list string) :
  Forall (fun b => written_key b = false) names ->
  in_dom D endpoints ->
  (forall p g, assoc p gs = Some g -> D g.1) ->
  forall hA hB hA' hB',
  nav_sim D rho hA hB ->
  update_builtins gs endpoints names hA = Ok hA' ->
  update_builtins (groups_map rho gs) (vmap rho endpoints) names hB = Ok hB' ->
  exists ws,
    hA' = exec ws hA /\ hB' = exec (wmap rho <$> ws) hB
    /\ nav_sim D rho hA' hB' /\ Forall (good_write D) ws.
Proof.
  intros Hnames He Hgs. induction names as [|b rest IH]; intros hA hB hA' hB' Hsim.
  - simpl. intros [= <-] [= <-]. by exists [].
  - apply Forall_cons in Hnames as [Hb Hrest]. specialize (IH Hrest).
    cbn [update_builtins]. unfold mbind, result_bind, bind.
    rewrite (py_contains_nav hA hB endpoints b Hsim He Hb), assoc_groups_map.
    destruct (py_contains hA endpoints b) as [present|]; [|done].
    destruct present; [|by apply IH].
    destruct (assoc b gs) as [g|] eqn:Eg; simpl; [|by apply IH].
    destruct (nonempty g.2); [|by apply IH].
    destruct (assign_builtin hA endpoints b g) as [hA1|] eqn:EA; [|done].
    destruct (assign_builtin hB (vmap rho endpoints) b (group_map rho g))
      as [hB1|] eqn:EB; [|done].
    destruct (assign_builtin_nav hA hB hA1 hB1 endpoints b g Hsim He (Hgs b g Eg) Hb EA EB)
      as (ws1 & -> & -> & Hsim1 & Hgood1).
    intros HA HB. destruct (IH _ _ _ _ Hsim1 HA HB) as (ws2 & -> & -> & Hsim2 & Hgood2).
    exists (ws1 ++ ws2). rewrite fmap_app, !exec_app.
    split; [done|]. split; [done|]. split; [done|]. by apply Forall_app.
Qed.

Lemma lookup_group_nav (gs : list (string * group)) (name : val) :
  lookup_group (groups_map rho gs) (vmap rho name)
  = rmap (fmap (group_map rho)) (lookup_group gs name).
Proof.
  destruct name; simpl; try done. by rewrite assoc_groups_map.
Qed.

Lemma update_customs_nav (gs : list (string * group)) (entries : list val) :
  Forall (in_dom D) entries ->
  (forall p g, assoc p gs = Some g -> D g.1) ->
  forall hA hB hA' hB',
  nav_sim D rho hA hB ->
  update_customs gs entries hA = Ok hA' ->
  update_customs (groups_map rho gs) (vmap rho <$> entries) hB = Ok hB' ->
  exists ws,
    hA' = exec ws hA /\ hB' = exec (wmap rho <$> ws) hB
    /\ nav_sim D rho hA' hB' /\ Forall (good_write D) ws.
Proof.
  intros Hentries Hgs.
  induction entries as [|e rest IH]; intros hA hB hA' hB' Hsim.
  - simpl. intros [= <-] [= <-]. by exists [].
  - apply Forall_cons in Hentries as [He Hrest]. specialize (IH Hrest).
    rewrite fmap_cons. cbn [update_customs]. unfold mbind, result_bind, bind.
    destruct (py_get_nav hA hB e "name" (VStr "") Hsim He eq_refl) as [Hget _].
    simpl in Hget. rewrite Hget.
    destruct (py_get hA e "name" (VStr "")) as [name|]; [|done]. simpl.
    rewrite lookup_group_nav.
    destruct (lookup_group gs name) as [og|] eqn:Elg; [|done]. simpl.
    destruct og as [g|]; simpl; [|by apply IH].
    assert (Hg : D g.1).
    { destruct name; simpl in Elg; simplify_eq. by eapply Hgs. }
    destruct (nonempty g.2); [|by apply IH].
    destruct (assign_models hA e g) as [hA1|] eqn:EA; [|done].
    destruct (assign_models hB (vmap rho e) (group_map rho g)) as [hB1|] eqn:EB; [|done].
    destruct (assign_models_nav hA hB hA1 hB1 e g Hsim He Hg EA EB)
      as (ws1 & -> & -> & Hsim1 & Hgood1).
    intros HA HB. destruct (IH _ _ _ _ Hsim1 HA HB) as (ws2 & -> & -> & Hsim2 & Hgood2).
    exists (ws1 ++ ws2). rewrite fmap_app, !exec_app.
    split; [done|]. split; [done|]. split; [done|]. by apply Forall_app.
Qed.

Lemma chars_vmap (s : string) : vmap rho <$> chars s = chars s.
Proof. induction s as [|a s IH]; [done|]. simpl. f_equal. exact IH. Qed.

Lemma chars_in_dom (s : string) : Forall (in_dom D) (chars s).
Proof. induction s as [|a s IH]; simpl; by constructor. Qed.

(** The custom loop raises on a string entry: a string has no [get]. *)
Lemma update_customs_keys (gs : list (string * group))
  (items : list (string * val)) (h h' : heap) :
  update_customs gs ((fun kv => VStr kv.1) <$> items) h = Ok h' ->
  items = [] /\ h' = h.
Proof.
  destruct items as [|[k v] rest]; simpl.
  - by intros [= <-].
  - done.
Qed.

Lemma update_endpoints_nav (gs : list (string * group)) (config endpoints : val)
  (hA hB hA' hB' : heap) :
  nav_sim D rho hA hB ->
  in_dom D config -> in_dom D endpoints ->
  (forall p g, assoc p gs = Some g -> D g.1) ->
  update_endpoints gs config endpoints hA = Ok hA' ->
  update_endpoints (groups_map rho gs) (vmap rho config) (vmap rho endpoints) hB = Ok hB' ->
  exists ws,
    hA' = exec ws hA /\ hB' = exec (wmap rho <$> ws) hB
    /\ nav_sim D rho hA' hB' /\ Forall (good_write D) ws.
Proof.
  intros Hsim Hc He Hgs. unfold update_endpoints, mbind, result_bind, bind.
  destruct (update_builtins gs endpoints BUILTINS hA) as [hA2|] eqn:EA2; [|done].
  destruct (update_builtins (groups_map rho gs) (vmap rho endpoints) BUILTINS hB)
    as [hB2|] eqn:EB2; [|done].
  destruct (update_builtins_nav gs endpoints BUILTINS) with (hA := hA) (hB := hB)
    (hA' := hA2) (hB' := hB2) as (ws1 & -> & -> & Hsim2 & Hgood1); try done.
  { by repeat constructor. }
  rewrite (py_contains_nav _ _ endpoints "custom" Hsim2 He eq_refl).
  destruct (py_contains (exec ws1 hA) endpoints "custom") as [has_custom|]; [|done].
  assert (Hloop : forall hA3 hB3,
            (if has_custom
             then match py_getitem (exec ws1 hA) endpoints "custom" with
                  | Ok c => match py_iter (exec ws1 hA) c with
                            | Ok entries => update_customs gs entries (exec ws1 hA)
                            | Raise e => Raise e
                            end
                  | Raise e => Raise e
                  end
             else Ok (exec ws1 hA)) = Ok hA3 ->
            (if has_custom
             then match py_getitem (exec (wmap rho <$> ws1) hB) (vmap rho endpoints) "custom" with
                  | Ok c => match py_iter (exec (wmap rho <$> ws1) hB) c with
                            | Ok entries =>
                                update_customs (groups_map rho gs) entries
                                  (exec (wmap rho <$> ws1) hB)
                            | Raise e => Raise e
                            end
                  | Raise e => Raise e
                  end
             else Ok (exec (wmap rho <$> ws1) hB)) = Ok hB3 ->
            exists ws2,
              hA3 = exec ws2 (exec ws1 hA)
              /\ hB3 = exec (wmap rho <$> ws2) (exec (wmap rho <$> ws1) hB)
              /\ nav_sim D rho hA3 hB3 /\ Forall (good_write D) ws2).
  { intros hA3 hB3. destruct has_custom.
    2:{ intros [= <-] [= <-]. by exists []. }
    destruct (py_getitem_nav _ _ endpoints "custom" Hsim2 He eq_refl) as [-> Hdomc].
    destruct (py_getitem (exec ws1 hA) endpoints "custom") as [cv|]; [|done]. simpl.
    specialize (Hdomc cv eq_refl).
    destruct cv as [| | |s|cl]; try done.
    - simpl. rewrite <- (chars_vmap s) at 2.
      apply update_customs_nav; [apply chars_in_dom|done|done].
    - simpl in Hdomc. simpl.
      destruct (exec ws1 hA !! cl) as [[iA|eA]|] eqn:Ecl.
      + destruct (nav_sim_dict _ _ cl iA Hsim2 Hdomc Ecl) as (iB & -> & _).
        intros [-> ->]%update_customs_keys [-> ->]%update_customs_keys.
        by exists [].
      + destruct (nav_sim_list _ _ cl eA Hsim2 Hdomc Ecl) as [-> Hdom].
        by apply update_customs_nav.
      + by destruct (nav_sim_none _ _ cl Hsim2 Hdomc Ecl). }
  match goal with
  | |- match ?a with _ => _ end = _ -> match ?b with _ => _ end = _ -> _ =>
      destruct a as [hA3|] eqn:EA3; [|done];
      destruct b as [hB3|] eqn:EB3; [|done]
  end.
  destruct (Hloop hA3 hB3 eq_refl eq_refl) as (ws2 & -> & -> & Hsim3 & Hgood2).
  intros HA HB.
  pose proof HA as HA'. apply py_setitem_inv in HA' as (c & iC & -> & _ & _).
  destruct (py_setitem_nav _ _ hA' hB' c "endpoints" endpoints Hsim3 Hc eq_refl HA HB)
    as (Hsim4 & -> & ->).
  exists (ws1 ++ ws2 ++ [(c, "endpoints", endpoints)]).
  rewrite !fmap_app, !exec_app. simpl.
  split; [done|]. split; [done|]. split; [done|].
  apply Forall_app. split; [done|]. apply Forall_app. split; [done|].
  by repeat constructor.
Qed.

End nav.

End LockstepFacts.

(** ** Logs of assignments *)

Module LogFacts.

Import Py PyFacts LockstepFacts.

Lemma keys_set_item_elem (k k' : string) (v : val) (items : list (string * val)) :
  k' ∈ (fst <$> set_item k v items) <-> k' = k \/ k' ∈ (fst <$> items).
Proof.
  induction items as [|[k0 v0] rest IH]; cbn [set_item].
  - rewrite !fmap_cons, !fmap_nil, list_elem_of_singleton. simpl.
    split; [by left|]. intros [?|H]; [done|]. by apply elem_of_nil in H.
  - destruct (String.eqb_spec k k0) as [->|Hne]; rewrite !fmap_cons; simpl.
    + rewrite !elem_of_cons. tauto.
    + rewrite !elem_of_cons, IH. tauto.
Qed.

Lemma keys_set_item_in (k : string) (v : val) (items : list (string * val)) :
  k ∈ (fst <$> items) -> fst <$> set_item k v items = fst <$> items.
Proof.
  induction items as [|[k0 v0] rest IH]; cbn [set_item].
  - intros H. by apply elem_of_nil in H.
  - destruct (String.eqb_spec k k0) as [->|Hne]; rewrite !fmap_cons; simpl; [done|].
    rewrite elem_of_cons. intros [?|Hin]; [done|]. by rewrite IH.
Qed.

Lemma NoDup_keys_set_item (k : string) (v : val) (items : list (string * val)) :
  NoDup (fst <$> items) -> NoDup (fst <$> set_item k v items).
Proof.
  induction items as [|[k0 v0] rest IH]; cbn [set_item].
  - intros _. apply NoDup_singleton.
  - rewrite fmap_cons, NoDup_cons. simpl. intros [Hk0 Hnd].
    destruct (String.eqb_spec k k0) as [->|Hne]; rewrite fmap_cons; simpl.
    + by apply NoDup_cons.
    + apply NoDup_cons. split; [|by apply IH].
      rewrite keys_set_item_elem. intros [?|?]; [by subst|done].
Qed.

(** Items with one item per key are determined by their keys, in order,
    and the value under each key. *)
Lemma items_ext (a b : list (string * val)) :
  NoDup (fst <$> a) -> fst <$> a = fst <$> b ->
  (forall k, assoc k a = assoc k b) -> a = b.
Proof.
  revert b. induction a as [|[k v] a IH]; intros [|[k' v'] b]; try done.
  simpl. rewrite NoDup_cons. intros [Hk Hnd] [= <- Hkeys] Hassoc.
  pose proof (Hassoc k) as Hk0. simpl in Hk0. rewrite String.eqb_refl in Hk0.
  injection Hk0 as <-. f_equal. apply IH; [done|done|].
  intros k0. specialize (Hassoc k0). simpl in Hassoc.
  destruct (String.eqb_spec k0 k) as [Heq|Hne]; [|done].
  subst k0. clear Hassoc.
  assert (Ha : assoc k a = None).
  { destruct (assoc k a) eqn:E; [|done]. apply assoc_elem_of in E as E'.
    exfalso. apply Hk. clear -E. induction a as [|[k1 v1] a IH]; [done|].
    simpl in E. destruct (String.eqb_spec k k1) as [->|Hne]; [by left|].
    right. by apply IH. }
  assert (Hb : assoc k b = None).
  { destruct (assoc k b) eqn:E; [|done].
    exfalso. apply Hk. rewrite Hkeys. clear -E. induction b as [|[k1 v1] b IH]; [done|].
    simpl in E. destruct (String.eqb_spec k k1) as [->|Hne]; [by left|].
    right. by apply IH. }
  by rewrite Ha, Hb.
Qed.

Lemma assoc_keys (k : string) (v : val) (items : list (string * val)) :
  assoc k items = Some v -> k ∈ (fst <$> items).
Proof.
  induction items as [|[k1 v1] a IH]; [done|]. simpl.
  destruct (String.eqb_spec k k1) as [->|Hne]; [by left|].
  intros H. right. by apply IH.
Qed.

Lemma setall_snoc (kvs : list (string * val)) (kv : string * val)
  (items : list (string * val)) :
  setall (kvs ++ [kv]) items = set_item kv.1 kv.2 (setall kvs items).
Proof. unfold setall. by rewrite fold_left_app. Qed.

Lemma last_write_snoc (k : string) (kvs : list (string * val)) (kv : string * val) :
  last_write k (kvs ++ [kv]) =
    if String.eqb k kv.1 then Some kv.2 else last_write k kvs.
Proof.
  unfold last_write. rewrite reverse_snoc. by destruct kv.
Qed.

Lemma assoc_setall (k : string) (kvs : list (string * val))
  (items : list (string * val)) :
  assoc k (setall kvs items) =
    match last_write k kvs with
    | Some v => Some v
    | None => assoc k items
    end.
Proof.
  induction kvs as [|kv kvs IH] using rev_ind; [done|].
  rewrite setall_snoc, last_write_snoc, assoc_set_item.
  by destruct (String.eqb k kv.1).
Qed.

Lemma NoDup_keys_setall (kvs : list (string * val)) (items : list (string * val)) :
  NoDup (fst <$> items) -> NoDup (fst <$> setall kvs items).
Proof.
  intros Hnd. induction kvs as [|kv kvs IH] using rev_ind; [done|].
  rewrite setall_snoc. by apply NoDup_keys_set_item.
Qed.

Lemma keys_setall_elem (k : string) (kvs : list (string * val))
  (items : list (string * val)) :
  k ∈ (fst <$> setall kvs items) <-> k ∈ (fst <$> kvs) \/ k ∈ (fst <$> items).
Proof.
  induction kvs as [|kv kvs IH] using rev_ind.
  - simpl. split; [by right|]. intros [H|?]; [|done]. by apply elem_of_nil in H.
  - rewrite setall_snoc, keys_set_item_elem, IH, fmap_app, elem_of_app. simpl.
    rewrite list_elem_of_singleton. tauto.
Qed.

(** Assigning again to keys that are all there keeps the keys. *)
Lemma keys_setall_in (kvs : list (string * val)) (items : list (string * val)) :
  (forall k, k ∈ (fst <$> kvs) -> k ∈ (fst <$> items)) ->
  fst <$> setall kvs items = fst <$> items.
Proof.
  induction kvs as [|kv kvs IH] using rev_ind; intros Hin; [done|].
  rewrite setall_snoc.
  assert (Hrest : forall k, k ∈ (fst <$> kvs) -> k ∈ (fst <$> items)).
  { intros k Hk. apply Hin. rewrite fmap_app, elem_of_app. by left. }
  rewrite keys_set_item_in; [by apply IH|].
  rewrite IH by done. apply Hin. rewrite fmap_app, elem_of_app. right. simpl. by left.
Qed.

Lemma last_write_item_map (rho : loc -> loc) (k : string) (kvs : list (string * val)) :
  last_write k (item_map rho <$> kvs) = vmap rho <$> last_write k kvs.
Proof.
  unfold last_write. by rewrite <- fmap_reverse, assoc_item_map.
Qed.

Lemma keys_item_map (rho : loc -> loc) (items : list (string * val)) :
  fst <$> (item_map rho <$> items) = fst <$> items.
Proof. rewrite <- list_fmap_compose. by apply list_fmap_ext. Qed.

(** Running the renamed log over the renamed result of the log gives the
    renamed result: every assigned key holds its last value again, the
    others are original values, which both renamings treat alike. *)
Lemma setall_again (rho rho1 : loc -> loc) (kvs items : list (string * val)) :
  NoDup (fst <$> items) ->
  (forall v, v ∈ (snd <$> items) -> vmap rho1 v = vmap rho v) ->
  setall (item_map rho <$> kvs) (item_map rho1 <$> setall kvs items)
  = item_map rho <$> setall kvs items.
Proof.
  intros Hnd Hstable. apply items_ext.
  - apply NoDup_keys_setall. rewrite keys_item_map. by apply NoDup_keys_setall.
  - rewrite keys_item_map, keys_setall_in; [by rewrite keys_item_map|].
    intros k. rewrite !keys_item_map, keys_setall_elem. by left.
  - intros k. rewrite assoc_setall, last_write_item_map, !assoc_item_map, assoc_setall.
    destruct (last_write k kvs) as [v|]; [done|]. simpl.
    destruct (assoc k items) as [v0|] eqn:E; [|done]. simpl. f_equal.
    apply Hstable. by eapply assoc_elem_of.
Qed.

(** The object at [l] after a log: a dict has received the assignments
    made to it, a list is what it was. *)
Lemma exec_lookup (ws : list write) :
  forall (h : heap) (l : loc),
  exec ws h !! l =
    match h !! l with
    | Some (ODict items) => Some (ODict (setall (writes_at l ws) items))
    | o => o
    end.
Proof.
  induction ws as [|w ws IH]; intros h l.
  - simpl. by destruct (h !! l) as [[|]|].
  - change (exec (w :: ws) h) with (exec ws (write1 h w)). rewrite IH.
    unfold write1, writes_at. cbn [omap list_omap].
    destruct (decide (w.1.1 = l)) as [<-|Hne].
    + destruct (h !! w.1.1) as [[iw|]|] eqn:E; [|by rewrite E|by rewrite E].
      by rewrite list_lookup_insert_eq by (by eapply lookup_lt_Some).
    + destruct (h !! w.1.1) as [[iw|]|] eqn:E; [|done|done].
      by rewrite list_lookup_insert_ne.
Qed.

Lemma length_exec (ws : list write) (h : heap) : length (exec ws h) = length h.
Proof.
  revert h. induction ws as [|w ws IH]; intros h; [done|].
  change (exec (w :: ws) h) with (exec ws (write1 h w)). rewrite IH.
  unfold write1. destruct (h !! w.1.1) as [[iw|]|]; [|done|done].
  by rewrite length_insert.
Qed.

Lemma writes_at_wmap (D : loc -> Prop) (rho : loc -> loc) (ws : list write) (l : loc) :
  inj_on D rho -> Forall (good_write D) ws -> D l ->
  writes_at (rho l) (wmap rho <$> ws) = item_map rho <$> writes_at l ws.
Proof.
  intros Hinj Hgood Hl. induction Hgood as [|w ws (Hw & _ & _) _ IH]; [done|].
  rewrite fmap_cons. unfold writes_at in *. cbn [omap list_omap]. simpl.
  destruct (decide (w.1.1 = l)) as [<-|Hne].
  - rewrite decide_True by done. rewrite fmap_cons. by rewrite IH.
  - rewrite decide_False; [done|]. intros Heq. apply Hne. by apply Hinj.
Qed.

(** Assignments to written keys keep what the updater reads. *)
Lemma erase_setall (kvs items : list (string * val)) :
  Forall (fun kv => written_key kv.1 = true) kvs ->
  erase (setall kvs items) = erase items.
Proof.
  intros Hkvs. induction kvs as [|kv kvs IH] using rev_ind; [done|].
  rewrite Forall_app, Forall_singleton in Hkvs. destruct Hkvs as [Hkvs Hkv].
  rewrite setall_snoc, erase_set_item by done. by apply IH.
Qed.

Lemma writes_at_written (D : loc -> Prop) (ws : list write) (l : loc) :
  Forall (good_write D) ws ->
  Forall (fun kv => written_key kv.1 = true) (writes_at l ws).
Proof.
  intros Hgood. induction Hgood as [|w ws (_ & Hk & _) _ IH]; [by constructor|].
  unfold writes_at in *. cbn [omap list_omap].
  destruct (decide (w.1.1 = l)); [by constructor|done].
Qed.

Lemma nav_obj_exec (D : loc -> Prop) (ws : list write) (h : heap) (l : loc) :
  Forall (good_write D) ws ->
  nav_obj <$> (exec ws h !! l) = nav_obj <$> (h !! l).
Proof.
  intros Hgood. rewrite exec_lookup.
  destruct (h !! l) as [[items|]|]; try done. simpl.
  by rewrite (erase_setall _ _ (writes_at_written D ws l Hgood)).
Qed.

Lemma alloc_groups_lists (pm : list (string * list string)) :
  forall h, alloc_groups h pm = (h ++ lists_of pm, groups_at (length h) pm).
Proof.
  induction pm as [|[p ids] rest IH]; intros h; simpl.
  - by rewrite app_nil_r.
  - rewrite IH, length_app, <- app_assoc. simpl.
    by replace (length h + 1) with (S (length h)) by lia.
Qed.

Lemma groups_map_at (rho : loc -> loc) (pm : list (string * list string)) :
  forall n n',
  (forall i, i < length pm -> rho (n + i) = n' + i) ->
  groups_map rho (groups_at n pm) = groups_at n' pm.
Proof.
  induction pm as [|[p ids] rest IH]; intros n n' Hrho; [done|].
  cbn [groups_at]. unfold groups_map in *. rewrite fmap_cons. f_equal.
  - unfold group_map. simpl. f_equal. f_equal.
    specialize (Hrho 0). rewrite !Nat.add_0_r in Hrho. apply Hrho. simpl. lia.
  - apply IH. intros i Hi. specialize (Hrho (S i)).
    replace (S n + i) with (n + S i) by lia.
    replace (S n' + i) with (n' + S i) by lia. apply Hrho. simpl. lia.
Qed.

Lemma assoc_groups_at (pm : list (string * list string)) (p : string) (g : group) :
  forall n, assoc p (groups_at n pm) = Some g -> n <= g.1 < n + length pm.
Proof.
  induction pm as [|[p0 ids] rest IH]; intros n; [done|]. simpl.
  destruct (String.eqb p p0).
  - intros [= <-]. simpl. lia.
  - intros H%IH. lia.
Qed.

Lemma lists_of_lookup (pm : list (string * list string)) (i : nat) (o : obj) :
  lists_of pm !! i = Some o -> exists ids, o = OList (VStr <$> ids).
Proof.
  unfold lists_of. rewrite list_lookup_fmap.
  destruct (pm !! i) as [[p ids]|]; [|done]. intros [= <-]. by exists ids.
Qed.

(** *** A run keeps what it reads *)

Lemma nav_kept_refl (h : heap) : nav_kept h h.
Proof. by intros l. Qed.

Lemma nav_kept_trans (h1 h2 h3 : heap) :
  nav_kept h1 h2 -> nav_kept h2 h3 -> nav_kept h1 h3.
Proof. intros H12 H23 l. by rewrite H23, H12. Qed.

Lemma py_setitem_kept (h h' : heap) (c : val) (k : string) (v : val) :
  written_key k = true -> py_setitem h c k v = Ok h' -> nav_kept h h'.
Proof.
  intros Hk (l & items & -> & Hl & ->)%py_setitem_inv l'.
  destruct (decide (l = l')) as [<-|Hne].
  - rewrite list_lookup_insert_eq by (by eapply lookup_lt_Some).
    rewrite Hl. simpl. by rewrite erase_set_item.
  - by rewrite list_lookup_insert_ne.
Qed.

Lemma assign_models_kept (h h' : heap) (e : val) (g : group) :
  assign_models h e g = Ok h' -> nav_kept h h'.
Proof.
  unfold assign_models, mbind, result_bind, bind.
  destruct (py_getitem h e "models") as [mv|]; [|done].
  destruct (py_setitem h mv "default" (VRef g.1)) as [h1|] eqn:Es; [|done].
  apply py_setitem_kept in Es; [|done].
  destruct (more_than_one g.2).
  - intros Ht%py_setitem_kept; [|done]. by eapply nav_kept_trans.
  - by intros [= <-].
Qed.

Lemma assign_builtin_kept (h h' : heap) (endpoints : val) (b : string) (g : group) :
  assign_builtin h endpoints b g = Ok h' -> nav_kept h h'.
Proof.
  unfold assign_builtin, mbind, result_bind, bind.
  destruct (py_getitem h endpoints b) as [ep|]; [|done].
  destruct (py_getitem h ep "models") as [mv|]; [|done].
  destruct (py_setitem h mv "default" (VRef g.1)) as [h1|] eqn:Es; [|done].
  apply py_setitem_kept in Es; [|done].
  destruct (more_than_one g.2).
  - destruct (py_getitem h1 endpoints b) as [ep'|]; [|done].
    intros Ht%py_setitem_kept; [|done]. by eapply nav_kept_trans.
  - by intros [= <-].
Qed.

Lemma update_builtins_kept (pm : list (string * group)) (endpoints : val)
  (names : list string) :
  forall h h', update_builtins pm endpoints names h = Ok h' -> nav_kept h h'.
Proof.
  induction names as [|b rest IH]; intros h h'; simpl.
  - intros [= <-]. apply nav_kept_refl.
  - unfold mbind, result_bind, bind.
    destruct (py_contains h endpoints b) as [present|]; [|done].
    destruct present, (assoc b pm) as [g|]; try apply IH.
    destruct (nonempty g.2); [|apply IH].
    destruct (assign_builtin h endpoints b g) as [h1|] eqn:Eb; [|done].
    intros Hrest%IH. eapply nav_kept_trans; [|done].
    by eapply assign_builtin_kept.
Qed.

Lemma update_customs_kept (pm : list (string * group)) (entries : list val) :
  forall h h', update_customs pm entries h = Ok h' -> nav_kept h h'.
Proof.
  induction entries as [|e rest IH]; intros h h'.
  - simpl. intros [= <-]. apply nav_kept_refl.
  - intros (h1 & Hrest%IH & Hstep)%update_customs_step.
    eapply nav_kept_trans; [|done].
    destruct (custom_group pm h e).
    + by eapply assign_models_kept.
    + subst. apply nav_kept_refl.
Qed.

(** The run keeps what it reads of every object, and leaves the value it
    read for [endpoints] under that key of the root. *)
Lemma update_endpoints_kept (gs : list (string * group)) (config endpoints : val)
  (h h' : heap) :
  update_endpoints gs config endpoints h = Ok h' ->
  nav_kept h h'
  /\ exists c, config = VRef c /\ field h' c "endpoints" = Some endpoints.
Proof.
  unfold update_endpoints, mbind, result_bind, bind.
  destruct (update_builtins gs endpoints BUILTINS h) as [h2|] eqn:Hb; [|done].
  apply update_builtins_kept in Hb.
  destruct (py_contains h2 endpoints "custom") as [has_custom|]; [|done].
  assert (H03 : forall h3,
            nav_kept h2 h3 ->
            py_setitem h3 config "endpoints" endpoints = Ok h' ->
            nav_kept h h'
            /\ exists c, config = VRef c /\ field h' c "endpoints" = Some endpoints).
  { intros h3 H23 Hs. split.
    - apply py_setitem_kept in Hs; [|done].
      eapply nav_kept_trans; [exact Hb|]. by eapply nav_kept_trans.
    - apply py_setitem_inv in Hs as (c & items & -> & Hc & ->).
      exists c. split; [done|]. rewrite field_insert_set by done.
      by rewrite String.eqb_refl. }
  destruct has_custom.
  - destruct (py_getitem h2 endpoints "custom") as [cv|]; [|done].
    destruct (py_iter h2 cv) as [entries|]; [|done].
    destruct (update_customs gs entries h2) as [h3|] eqn:Hc; [|done].
    apply H03. by eapply update_customs_kept.
  - apply H03, nav_kept_refl.
Qed.

(** *** The second run

    A run over a store that holds the document a first run has produced
    ends, when it returns, with a store that holds that same document. *)

Lemma vmap_stable (rho rho1 : loc -> loc) (n k : nat) (h : heap) (v : val) :
  (forall l, ~ (n <= l < n + k) -> rho l = rho1 l) ->
  length h = n -> in_store h v -> vmap rho1 v = vmap rho v.
Proof.
  intros Hrho Hn Hv. destruct v as [| | | |l]; try done. simpl in *.
  f_equal. symmetry. apply Hrho. lia.
Qed.

Lemma second_run_iso (h h1 hB hB' : heap) (config configB : val)
  (pm : list (string * list string)) :
  closed h -> unique_keys h -> in_store h config ->
  update_config h config pm = Ok h1 ->
  iso h1 config hB configB ->
  update_config hB configB pm = Ok hB' ->
  iso h1 config hB' configB.
Proof.
  intros Hclosed Huniq Hcfg Hrun1 (D1 & rho1 & Hsim1 & Hinj1 & Hdom1 & ->) Hrun2.
  unfold update_config in Hrun1, Hrun2. rewrite alloc_groups_lists in Hrun1, Hrun2.
  unfold mbind, result_bind, bind in Hrun1, Hrun2.
  set (n := length h) in *. set (k := length pm).
  set (nB := length hB) in *.
  set (xA := (h ++ lists_of pm) ++ [ODict []]) in *.
  set (yB := (hB ++ lists_of pm) ++ [ODict []]) in *.
  assert (Hlen_lists : length (lists_of pm) = k) by (unfold lists_of; by rewrite length_fmap).
  assert (HlenA : length (h ++ lists_of pm) = n + k) by (rewrite length_app; lia).
  assert (HlenB : length (hB ++ lists_of pm) = nB + k) by (rewrite length_app; lia).
  rewrite HlenA in Hrun1. rewrite HlenB in Hrun2.
  destruct (py_get xA config "endpoints" (VRef (n + k))) as [eA|] eqn:EgetA; [|done].
  destruct (py_get yB (vmap rho1 config) "endpoints" (VRef (nB + k))) as [eB|] eqn:EgetB;
    [|done].
  destruct (update_endpoints_kept _ _ _ _ _ Hrun1) as (Hkept & c & -> & Hfc).
  simpl in Hcfg, Hdom1.
  (* the objects of the first run's store *)
  assert (HxA_low : forall l, l < n -> xA !! l = h !! l).
  { intros l Hl. unfold xA. rewrite <- app_assoc. by apply lookup_app_l. }
  assert (HxA_mid : forall l, n <= l < n + k -> xA !! l = lists_of pm !! (l - n)).
  { intros l Hl. unfold xA. rewrite lookup_app_l by lia. by rewrite lookup_app_r by lia. }
  assert (HxA_top : xA !! (n + k) = Some (ODict [])).
  { unfold xA. rewrite lookup_app_r by lia. by rewrite HlenA, Nat.sub_diag. }
  assert (HyB_low : forall l, l < nB -> yB !! l = hB !! l).
  { intros l Hl. unfold yB. rewrite <- app_assoc. by apply lookup_app_l. }
  assert (HyB_mid : forall i, i < k -> yB !! (nB + i) = lists_of pm !! i).
  { intros i Hi. unfold yB. rewrite lookup_app_l by lia. rewrite lookup_app_r by lia.
    f_equal. lia. }
  assert (HlenxA : length xA = S (n + k)).
  { unfold xA. rewrite length_app, HlenA. simpl. lia. }
  assert (Hh1_lt : forall l o, h1 !! l = Some o -> l < S (n + k)).
  { intros l o Ho. specialize (Hkept l). rewrite Ho in Hkept.
    destruct (xA !! l) eqn:E; [|done]. apply lookup_lt_Some in E. lia. }
  (* the renaming between the two runs *)
  set (rho := fun l => if decide (n <= l < n + k) then nB + (l - n) else rho1 l).
  set (D := fun l => D1 l \/ n <= l < n + k).
  assert (Hrho_out : forall l, ~ (n <= l < n + k) -> rho l = rho1 l).
  { intros l Hl. unfold rho. by rewrite decide_False. }
  assert (Hrho_in : forall l, n <= l < n + k -> rho l = nB + (l - n)).
  { intros l Hl. unfold rho. by rewrite decide_True. }
  assert (Hrho1_lt : forall l, D1 l -> rho1 l < nB).
  { intros l Hl. destruct (Hsim1 l Hl) as (o & _ & Ho & _). by eapply lookup_lt_Some. }
  assert (Hinj : inj_on D rho).
  { intros l l' [Hl|Hl] [Hl'|Hl'] Heq.
    - destruct (decide (n <= l < n + k)) as [Hr|Hr];
        destruct (decide (n <= l' < n + k)) as [Hr'|Hr'].
      + rewrite !Hrho_in in Heq by done. lia.
      + rewrite Hrho_in, Hrho_out in Heq by done. specialize (Hrho1_lt l' Hl'). lia.
      + rewrite Hrho_out, Hrho_in in Heq by done. specialize (Hrho1_lt l Hl). lia.
      + rewrite !Hrho_out in Heq by done. by apply Hinj1.
    - destruct (decide (n <= l < n + k)) as [Hr|Hr].
      + rewrite !Hrho_in in Heq by done. lia.
      + rewrite Hrho_out, Hrho_in in Heq by done. specialize (Hrho1_lt l Hl). lia.
    - destruct (decide (n <= l' < n + k)) as [Hr|Hr].
      + rewrite !Hrho_in in Heq by done. lia.
      + rewrite Hrho_in, Hrho_out in Heq by done. specialize (Hrho1_lt l' Hl'). lia.
    - rewrite !Hrho_in in Heq by done. lia. }
  (* original values are renamed alike by both renamings *)
  assert (Hstable : forall l oA v, ~ (n <= l < n + k) -> xA !! l = Some oA ->
             v ∈ vals_of oA -> vmap rho1 v = vmap rho v).
  { intros l oA v Hl HoA Hv.
    assert (l < S (n + k)) by (apply lookup_lt_Some in HoA; lia).
    destruct (decide (l < n)) as [Hlow|Hhigh].
    - rewrite HxA_low in HoA by done.
      apply (vmap_stable rho rho1 n k h); [done|done|].
      by eapply closed_lookup.
    - assert (l = n + k) as -> by lia. rewrite HxA_top in HoA.
      injection HoA as <-. by apply elem_of_nil in Hv. }
  assert (Hnav : nav_sim D rho xA yB).
  { intros l [Hl|Hl].
    - destruct (decide (n <= l < n + k)) as [Hr|Hr].
      + rewrite (HxA_mid l Hr), (Hrho_in l Hr), HyB_mid by lia.
        destruct (lists_of pm !! (l - n)) as [o|] eqn:Eo.
        2:{ apply lookup_ge_None in Eo. lia. }
        destruct (lists_of_lookup pm _ o Eo) as (ids & ->).
        exists (OList (VStr <$> ids)), (OList (VStr <$> ids)).
        split; [done|]. split; [done|]. split.
        * simpl. f_equal. rewrite <- list_fmap_compose. by apply list_fmap_ext.
        * simpl. rewrite Forall_fmap. by apply Forall_true.
      + destruct (Hsim1 l Hl) as (o1 & Ho1 & HoB & Hdom).
        pose proof (Hkept l) as Hk. rewrite Ho1 in Hk.
        destruct (xA !! l) as [oA|] eqn:EoA; [|done]. simpl in Hk. injection Hk as Hk.
        exists oA, (obj_map rho1 o1).
        split; [done|]. split.
        { rewrite (Hrho_out l Hr), HyB_low; [done|by apply Hrho1_lt]. }
        assert (Hval : forall v, v ∈ vals_of (nav_obj oA) -> v ∈ vals_of oA).
        { intros v. destruct oA as [iA|elA]; simpl; [|done].
          rewrite !list_elem_of_fmap. intros ([k0 v0] & -> & Hin).
          exists (k0, v0). split; [done|].
          unfold erase in Hin. by apply list_elem_of_filter in Hin as [_ ?]. }
        split.
        * destruct o1 as [i1|e1], oA as [iA|elA]; simpl in Hk |- *; try done.
          -- injection Hk as Hk. rewrite erase_item_map, Hk. f_equal.
             apply list_fmap_ext. intros i [k0 v0] Hi. unfold item_map. simpl. f_equal.
             apply (Hstable l (ODict iA) v0 Hr EoA). apply Hval. simpl.
             apply list_elem_of_fmap. exists (k0, v0). split; [done|].
             by eapply list_elem_of_lookup_2.
          -- injection Hk as ->. f_equal.
             apply list_fmap_ext. intros i v0 Hi.
             apply (Hstable l (OList elA) v0 Hr EoA). simpl.
             by eapply list_elem_of_lookup_2.
        * rewrite <- Hk. rewrite Forall_forall in Hdom |- *. intros v Hv.
          assert (in_dom D1 v).
          { apply Hdom. destruct o1 as [i1|e1]; simpl in Hv |- *; [|done].
            rewrite list_elem_of_fmap in Hv |- *. destruct Hv as ([k0 v0] & -> & Hin).
            exists (k0, v0). split; [done|].
            unfold erase in Hin. by apply list_elem_of_filter in Hin as [_ ?]. }
          destruct v; try done. by left.
    - rewrite (HxA_mid l Hl), (Hrho_in l Hl), HyB_mid by lia.
      destruct (lists_of pm !! (l - n)) as [o|] eqn:Eo.
      2:{ apply lookup_ge_None in Eo. lia. }
      destruct (lists_of_lookup pm _ o Eo) as (ids & ->).
      exists (OList (VStr <$> ids)), (OList (VStr <$> ids)).
      split; [done|]. split; [done|]. split.
      + simpl. f_equal. rewrite <- list_fmap_compose. by apply list_fmap_ext.
      + simpl. rewrite Forall_fmap. by apply Forall_true. }
  (* the value read for [endpoints] *)
  assert (Hc_out : ~ (n <= c < n + k)) by (unfold n; lia).
  destruct (Hsim1 c Hdom1) as (oc & Hoc & HocB & Hdomc).
  assert (HeA : in_dom D eA /\ eB = vmap rho eA).
  { unfold field in Hfc. rewrite Hoc in Hfc. destruct oc as [ic|]; [|done].
    assert (HD1 : in_dom D1 eA).
    { rewrite Forall_forall in Hdomc. apply Hdomc. simpl. by eapply assoc_elem_of. }
    split; [destruct eA; try done; by left|].
    simpl in EgetB. rewrite HyB_low in EgetB by (by apply Hrho1_lt).
    rewrite HocB in EgetB. simpl in EgetB.
    rewrite assoc_item_map, Hfc in EgetB. simpl in EgetB. injection EgetB as <-.
    simpl in EgetA. rewrite HxA_low in EgetA by done.
    destruct (h !! c) as [[ih|]|] eqn:Ehc; try done.
    destruct (assoc "endpoints" ih) as [v|] eqn:Ev.
    - injection EgetA as ->. apply (vmap_stable rho rho1 n k h); [done|done|].
      eapply closed_lookup; [done|exact Ehc|]. by eapply assoc_elem_of.
    - injection EgetA as <-. simpl. f_equal. symmetry. apply Hrho_out. lia. }
  destruct HeA as [HeA_dom ->].
  assert (Hgroups : groups_map rho (groups_at n pm) = groups_at nB pm).
  { apply groups_map_at. intros i Hi. rewrite Hrho_in by (unfold k in *; lia).
    f_equal. lia. }
  rewrite <- Hgroups in Hrun2.
  assert (Hcfg_rho : vmap rho1 (VRef c) = vmap rho (VRef c)).
  { simpl. f_equal. symmetry. by apply Hrho_out. }
  rewrite Hcfg_rho in Hrun2 |- *.
  destruct (update_endpoints_nav D rho Hinj (groups_at n pm) (VRef c) eA xA yB h1 hB')
    as (ws & Hh1 & HhB' & _ & Hgood); try done.
  { by left. }
  { intros p g Hg. right. apply assoc_groups_at in Hg. unfold k. lia. }
  (* the two results hold the same document *)
  exists D1, rho. split; [|split; [|split]]; [| |done|done].
  2:{ intros l l' Hl Hl'. apply Hinj; by left. }
  intros l Hl. destruct (Hsim1 l Hl) as (o1 & Ho1 & HoB & Hdom).
  exists o1. split; [done|]. split; [|done].
  rewrite HhB', exec_lookup.
  rewrite Hh1, exec_lookup in Ho1.
  destruct (decide (n <= l < n + k)) as [Hr|Hr].
  - rewrite (HxA_mid l Hr) in Ho1. rewrite (Hrho_in l Hr), HyB_mid by lia.
    destruct (lists_of pm !! (l - n)) as [o|] eqn:Eo; [|done].
    destruct (lists_of_lookup pm _ o Eo) as (ids & ->).
    injection Ho1 as <-. simpl. do 2 f_equal.
    rewrite <- list_fmap_compose. by apply list_fmap_ext.
  - rewrite (Hrho_out l Hr), HyB_low by (by apply Hrho1_lt).
    rewrite HoB. destruct (xA !! l) as [[iA|elA]|] eqn:EoA; [| |done].
    + injection Ho1 as <-. simpl. do 2 f_equal.
      rewrite <- (Hrho_out l Hr).
      rewrite (writes_at_wmap D rho ws l Hinj Hgood) by (by left).
      apply setall_again.
      * assert (l < S (n + k)) by (apply lookup_lt_Some in EoA; lia).
        destruct (decide (l < n)) as [Hlow|Hhigh].
        -- rewrite HxA_low in EoA by done. by eapply Huniq.
        -- assert (l = n + k) as -> by lia. rewrite HxA_top in EoA.
           injection EoA as <-. constructor.
      * intros v Hv. by apply (Hstable l (ODict iA) v Hr EoA).
    + injection Ho1 as <-. simpl. do 2 f_equal.
      apply list_fmap_ext. intros i v Hi.
      apply (Hstable l (OList elA) v Hr EoA). simpl. by eapply list_elem_of_lookup_2.
Qed.

End LogFacts.

(** ** The updater: what an endpoint receives, and what is left alone *)

Module UpdaterFacts.

Import Py Docs PyFacts.

Example plain_update :
  update_config plain (VRef 0) plain_groups
  = Ok [ ODict [("version", VStr "1.2.1"); ("endpoints", VRef 1)];
         ODict [("openAI", VRef 2); ("anthropic", VRef 5); ("custom", VRef 8)];
         ODict [("models", VRef 3); ("titleModel", VStr "gpt-c")];
         ODict [("default", VRef 12); ("fetch", VBool false)];
         OList [VStr "gpt-x"];
         ODict [("models", VRef 6); ("titleModel", VStr "claude-old")];
         ODict [("default", VRef 13)];
         OList [VStr "claude-x"];
         OList [VRef 9];
         ODict [("name", VStr "Google"); ("models", VRef 10)];
         ODict [("default", VRef 11)];
         OList [VStr "gemini-x"];
         OList [VStr "gpt-a"; VStr "gpt-b"; VStr "gpt-c"];
         OList [VStr "claude-a"];
         OList [VStr "grok-a"];
         ODict [] ].
Proof. reflexivity. Qed.

(** Two different entries of a list with duplicate-free joined footprints
    have disjoint footprints. *)
Lemma NoDup_join_disjoint {A B : Type} (f : A -> list B) (L : list A)
  (x y : A) (b : B) :
  NoDup (mjoin (f <$> L)) -> x ∈ L -> y ∈ L -> x <> y -> b ∈ f x -> b ∉ f y.
Proof.
  induction L as [|a L IH]; intros Hnd Hx Hy Hne Hbx Hby.
  - by apply elem_of_nil in Hx.
  - cbn [fmap list_fmap mjoin list_join] in Hnd.
    apply NoDup_app in Hnd as (_ & Hdisj & Hnd).
    assert (Hin : forall z, z ∈ L -> b ∈ f z -> b ∈ mjoin (f <$> L)).
    { intros z Hz Hb. apply list_elem_of_join. exists (f z).
      split; [done|]. by apply list_elem_of_fmap_2. }
    apply elem_of_cons in Hx as [->|Hx]; apply elem_of_cons in Hy as [->|Hy].
    + done.
    + apply (Hdisj b Hbx). by apply (Hin y).
    + apply (Hdisj b Hby). by apply (Hin x).
    + by apply IH.
Qed.

Lemma receives_entry (pm : list (string * list string)) (h : heap)
  (eitems : list (string * val)) (e : val) (ids : list string) :
  receives pm h eitems e ids -> e ∈ builtin_entries eitems ++ custom_entries h eitems.
Proof.
  intros [(b & Hb & He & _)|[He _]]; apply elem_of_app; [left|by right].
  apply list_elem_of_omap. by exists b.
Qed.

(** C1, as stated, fails on a document that shares an endpoint: with
    [anthropic] an alias of the [openAI] block, the built-in endpoint
    [openAI] has the one-id group [gpt-a], but after the update its
    [models.default] is the list of the [anthropic] group and its
    [titleModel] has changed from [old] to [claude-b]. *)
Lemma C1_alias_overwrites_endpoint :
  closed aliased_endpoint
  /\ receives aliased_endpoint_groups aliased_endpoint
       [("openAI", VRef 2); ("anthropic", VRef 2)] (VRef 2) ["gpt-a"]
  /\ (exists h', update_config aliased_endpoint (VRef 0) aliased_endpoint_groups = Ok h'
        /\ models_default h' (VRef 2) = Some [VStr "claude-a"; VStr "claude-b"]
        /\ models_default h' (VRef 2) <> Some (VStr <$> ["gpt-a"])
        /\ title_model aliased_endpoint (VRef 2) = Some (VStr "old")
        /\ title_model h' (VRef 2) = Some (VStr "claude-b")).
Proof.
  split; [|split].
  - unfold closed, aliased_endpoint. repeat constructor.
  - left. exists "openAI". split; [|by split]. unfold BUILTINS. by left.
  - eexists. split; [reflexivity|]. by repeat split.
Qed.

(** C1, amended: in a closed document with an [endpoints] dict and no
    object shared between endpoints, when the update completes, every
    endpoint (a built-in endpoint present in the document, or a custom
    entry whose name is a group key) with a non-empty matched group has
    that id list, in rank order, as its [models.default]; its [titleModel]
    is the last id of the list when the list has more than one id, and is
    what it was when the list has one id. *)
Theorem C1_endpoint_receives_group (h h' : heap) (config : val) (el : loc)
  (eitems : list (string * val)) (pm : list (string * list string))
  (e : val) (ids : list string) :
  closed h ->
  endpoints_dict h config = Some (el, eitems) ->
  separated h config ->
  update_config h config pm = Ok h' ->
  receives pm h eitems e ids ->
  models_default h' e = Some (VStr <$> ids)
  /\ (if more_than_one ids
      then title_model h' e = Some (VStr (last_id ids))
      else title_model h' e = title_model h e).
Proof.
  intros Hclosed Hdict Hsep Hrun Hrec.
  destruct config as [| | | |c]; try done.
  destruct (update_config_spec h h' c el eitems pm Hclosed Hdict Hsep Hrun)
    as (_ & _ & Hupd).
  destruct (Hupd e ids Hrec)
    as (d & Hd & ep & m & -> & Hfp & Hmod & Hdef & _ & _ & Htitle).
  split.
  - unfold models_default. rewrite Hmod, Hdef. simpl. by rewrite Hd.
  - simpl in Htitle. unfold title_model.
    destruct (more_than_one ids); [done|]. by apply field_agree.
Qed.

Lemma C1_endpoint_receives_group_witness :
  models_default (updated plain (VRef 0) plain_groups) (VRef 2)
    = Some (VStr <$> ["gpt-a"; "gpt-b"; "gpt-c"])
  /\ title_model (updated plain (VRef 0) plain_groups) (VRef 2) = Some (VStr "gpt-c").
Proof.
  apply (C1_endpoint_receives_group plain (updated plain (VRef 0) plain_groups)
           (VRef 0) 1 plain_endpoints plain_groups (VRef 2) ["gpt-a"; "gpt-b"; "gpt-c"]).
  - unfold closed, plain. repeat constructor.
  - reflexivity.
  - vm_compute. repeat constructor; set_solver.
  - reflexivity.
  - left. exists "openAI". split; [|by split]. unfold BUILTINS. by left.
Defined.

(** C8, as stated, fails on a document that shares a [models] block: with
    [anthropic.models] an alias of [openAI.models] and a group for
    [openAI] only, the endpoint [anthropic] is absent from the matched
    group, yet its [models.default] is no longer the list it was. *)
Lemma C8_alias_changes_unmatched_endpoint :
  closed aliased_models
  /\ endpoints_dict aliased_models (VRef 0) = Some (1, aliased_models_endpoints)
  /\ assoc "anthropic" aliased_models_endpoints = Some (VRef 5)
  /\ matched_ids aliased_models_groups "anthropic" = None
  /\ models_default aliased_models (VRef 5) = Some [VStr "x"]
  /\ (exists h', update_config aliased_models (VRef 0) aliased_models_groups = Ok h'
        /\ models_default h' (VRef 5) = Some [VStr "gpt-a"; VStr "gpt-b"]).
Proof.
  split; [unfold closed, aliased_models; repeat constructor|].
  repeat split; try reflexivity.
  eexists. split; reflexivity.
Qed.

(** C8, amended: in a closed document with an [endpoints] dict and no
    object shared between endpoints, when the update completes, every
    object of the document other than the dict and the [models] dict of
    an endpoint that receives a non-empty group is what it was.  So an
    endpoint that receives no group keeps its dict, its [models] dict, its
    model list and its [titleModel]; the [endpoints] dict and the [custom]
    list keep exactly their entries; and no list of the document is
    changed. *)
Theorem C8_unmatched_endpoints_untouched (h h' : heap) (config : val) (el : loc)
  (eitems : list (string * val)) (pm : list (string * list string)) :
  closed h ->
  endpoints_dict h config = Some (el, eitems) ->
  separated h config ->
  update_config h config pm = Ok h' ->
  (forall l, l < length h ->
     (forall e ids, receives pm h eitems e ids -> l ∉ footprint h e) ->
     h' !! l = h !! l)
  /\ (forall e, e ∈ builtin_entries eitems ++ custom_entries h eitems ->
        (forall ids, ~ receives pm h eitems e ids) ->
        (forall l, l ∈ footprint h e -> h' !! l = h !! l)
        /\ (forall xs, models_default h e = Some xs -> models_default h' e = Some xs)
        /\ title_model h' e = title_model h e)
  /\ h' !! el = h !! el
  /\ (forall cl, cl ∈ custom_loc eitems -> h' !! cl = h !! cl)
  /\ (forall l elems, h !! l = Some (OList elems) -> h' !! l = Some (OList elems)).
Proof.
  intros Hclosed Hdict Hsep Hrun.
  destruct config as [| | | |c]; try done.
  destruct (update_config_spec h h' c el eitems pm Hclosed Hdict Hsep Hrun)
    as (_ & Hframe & _).
  pose proof (update_config_lists h h' (VRef c) pm Hrun) as Hlists.
  unfold separated in Hsep. rewrite Hdict in Hsep.
  apply NoDup_cons in Hsep as [_ Hsep].
  apply NoDup_cons in Hsep as [Hel_out Hsep].
  apply NoDup_app in Hsep as (_ & Hcl_out & Hnd).
  assert (Hel : h !! el = Some (ODict eitems)).
  { unfold endpoints_dict in Hdict.
    destruct (field h c "endpoints") as [[| | | |el']|]; try done.
    destruct (h !! el') as [[eitems'|]|] eqn:E; try done. by simplify_eq. }
  assert (Hjoin : forall e ids l, receives pm h eitems e ids -> l ∈ footprint h e ->
            l ∈ mjoin (footprint h <$> (builtin_entries eitems ++ custom_entries h eitems))).
  { intros e ids l Hrec Hl. apply list_elem_of_join. exists (footprint h e).
    split; [done|]. apply list_elem_of_fmap_2. by eapply receives_entry. }
  assert (Hunmatched : forall e,
            e ∈ builtin_entries eitems ++ custom_entries h eitems ->
            (forall ids, ~ receives pm h eitems e ids) ->
            forall l, l ∈ footprint h e -> h' !! l = h !! l).
  { intros e He Hno l Hl. apply Hframe.
    - assert (Hin : in_store h e).
      { apply elem_of_app in He as [He|He].
        - apply list_elem_of_omap in He as (b & _ & He).
          eapply closed_lookup; [done|exact Hel|]. by eapply assoc_elem_of.
        - unfold custom_entries in He.
          destruct (assoc "custom" eitems) as [cv|]; [|by apply elem_of_nil in He].
          destruct (py_iter h cv) as [entries|] eqn:Ei; [|by apply elem_of_nil in He].
          pose proof (closed_iter h cv entries Hclosed Ei) as Hall.
          rewrite Forall_forall in Hall. by apply Hall. }
      pose proof (footprint_in_store h e Hclosed Hin) as Hall.
      rewrite Forall_forall in Hall. by apply Hall.
    - intros e' ids Hrec.
      eapply (NoDup_join_disjoint (footprint h) _ e e' l Hnd); try done.
      + by eapply receives_entry.
      + intros ->. by apply (Hno ids). }
  split; [exact Hframe|]. split; [|split; [|split]].
  - intros e He Hno. pose proof (Hunmatched e He Hno) as Hkeep.
    split; [exact Hkeep|].
    destruct e as [| | | |ep]; try done.
    assert (Hep : h' !! ep = h !! ep) by (apply Hkeep; simpl; by left).
    split; [|by apply field_agree].
    intros xs. unfold models_default.
    rewrite (field_agree h h' ep "models" Hep).
    destruct (field h ep "models") as [[| | | |m]|] eqn:Em; try done.
    assert (Hm : h' !! m = h !! m).
    { apply Hkeep. simpl. rewrite Em. right. by left. }
    rewrite (field_agree h h' m "default" Hm).
    destruct (field h m "default") as [[| | | |d]|]; try done.
    destruct (h !! d) as [[|elems]|] eqn:Ed; try done.
    intros [= <-]. by rewrite (Hlists d elems Ed).
  - apply Hframe; [by eapply lookup_lt_Some|].
    intros e ids Hrec Hl. apply Hel_out. apply elem_of_app. right. by eapply Hjoin.
  - intros cl Hcl. apply Hframe.
    + unfold custom_loc in Hcl.
      destruct (assoc "custom" eitems) as [[| | | |cl']|] eqn:Ec;
        try by apply elem_of_nil in Hcl.
      apply list_elem_of_singleton in Hcl as ->.
      apply (closed_field h el "custom" (VRef cl') Hclosed).
      unfold field. by rewrite Hel.
    + intros e ids Hrec Hl. apply (Hcl_out cl Hcl). by eapply Hjoin.
  - exact Hlists.
Qed.

Lemma C8_unmatched_endpoints_untouched_witness :
  updated plain (VRef 0) plain_groups !! 1 = plain !! 1
  /\ updated plain (VRef 0) plain_groups !! 8 = plain !! 8.
Proof.
  destruct (C8_unmatched_endpoints_untouched plain (updated plain (VRef 0) plain_groups)
              (VRef 0) 1 plain_endpoints plain_groups)
    as (_ & _ & Hel & Hcl & _).
  - unfold closed, plain. repeat constructor.
  - reflexivity.
  - vm_compute. repeat constructor; set_solver.
  - reflexivity.
  - split; [exact Hel|]. apply Hcl. vm_compute. by left.
Defined.

End UpdaterFacts.

(** ** The run *)

Module MainFacts.

Import Py Main Docs PyFacts LogFacts.

Lemma main_empty_fetch (e : Fetcher.Env) (y : Yaml) (fs : Files) :
  (Fetcher.fetch_leaderboard e).1 = [] ->
  main e y fs = mkRun (Exit 1) fs [ErrorNoLeaderboard] (Fetcher.fetch_leaderboard e).2.
Proof.
  unfold main. destruct (Fetcher.fetch_leaderboard e) as [names t]. simpl.
  by intros ->.
Qed.






(** C10, as stated, fails for an array that holds something else than
    records: on the answer [[null]] the comprehension of line 33 raises
    inside the [try], the page is fetched, the fetcher returns the name
    found there, and the run goes on and can exit with status 0. *)
Lemma C10_array_item_not_record :
  Fetcher.api null_item = Fetcher.Resp true "[null]"
  /\ Fetcher.json_loads null_item "[null]" = Some (JArr [JNull])
  /\ (Fetcher.GetPage ∈ (Fetcher.fetch_leaderboard null_item).2)
  /\ (Fetcher.fetch_leaderboard null_item).1 = [JStr "GPT-5.2 Pro"]
  /\ ending (main null_item small_yaml
               (mkFiles (Ok [("Claude", Resolver.mkEntry "anthropic" "claude-a")])
                        (Ok text_dumped) None))
     = Exit 0.
Proof.
  split; [reflexivity|]. split; [reflexivity|]. split; [|by split].
  vm_compute. apply elem_of_cons. right. apply elem_of_cons. right.
  apply elem_of_cons. by left.
Qed.

(** C10, amended: when the primary API answers successfully with a JSON
    array whose first TOP_N items are records, the fetcher returns from
    the primary branch after the one request and the page is never
    fetched; when those records yield no non-empty name the fetcher
    returns the empty sequence all the same, and the run exits with
    status 1. *)
Theorem C10_primary_array_no_fallback (e : Fetcher.Env) (text : string)
  (data : list json) (y : Yaml) (fs : Files) :
  Fetcher.api e = Fetcher.Resp true text ->
  Fetcher.json_loads e text = Some (JArr data) ->
  Forall Fetcher.is_record (take TOP_N data) ->
  (Fetcher.fetch_leaderboard e).2 = [Fetcher.GetApi]
  /\ (Fetcher.GetPage ∉ (Fetcher.fetch_leaderboard e).2)
  /\ (filter (fun m => truthy m = true) (omap Fetcher.record_name (take TOP_N data)) = [] ->
      (Fetcher.fetch_leaderboard e).1 = []
      /\ ending (main e y fs) = Exit 1
      /\ status (ending (main e y fs)) = 1%Z).
Proof.
  intros Hapi Hjson Hrec.
  pose proof (FetcherFacts.fetch_records e text data Hapi Hjson Hrec) as Hf.
  rewrite Hf. simpl. split; [done|]. split.
  - intros Hin. apply list_elem_of_singleton in Hin. discriminate.
  - intros Hnone. split; [done|].
    rewrite (main_empty_fetch e y fs) by (by rewrite Hf). done.
Qed.

Lemma C10_primary_array_no_fallback_witness :
  (Fetcher.fetch_leaderboard no_names).1 = []
  /\ (Fetcher.GetPage ∉ (Fetcher.fetch_leaderboard no_names).2)
  /\ ending (main no_names (mkYaml (fun _ => None) (fun _ _ => Complete ""))
                  (mkFiles (Raise OSError) (Raise OSError) None))
     = Exit 1.
Proof.
  destruct (C10_primary_array_no_fallback no_names "[{...}]"
              [JObj [("rank", JNum 1)]; JObj [("model", JStr "")]]
              (mkYaml (fun _ => None) (fun _ _ => Complete ""))
              (mkFiles (Raise OSError) (Raise OSError) None))
    as (_ & Hpage & Hempty).
  - reflexivity.
  - reflexivity.
  - vm_compute. repeat constructor.
  - destruct Hempty as (H1 & H2 & _); [reflexivity|]. by repeat split.
Defined.




(** The model of PyYAML on the documents of one endpoint obeys the laws. *)
Lemma openai_yaml_well_formed : load_well_formed openai_yaml.
Proof.
  assert (Hstore : forall ids,
            closed (openai_store ids) /\ unique_keys (openai_store ids)
            /\ in_store (openai_store ids) (VRef 0)).
  { intros ids. split; [|split; [|simpl; lia]].
    - unfold closed, openai_store. repeat constructor; simpl; try lia.
      rewrite Forall_fmap. by apply Forall_true.
    - intros l items Hl.
      destruct l as [|[|[|[|[|l]]]]]; simpl in Hl; simplify_eq;
        apply NoDup_singleton. }
  intros text h config. simpl.
  destruct (String.eqb text openai_by_hand); [intros [= <- <-]; apply Hstore|].
  destruct (String.eqb text _); [intros [= <- <-]; apply Hstore|done].
Qed.

Lemma only_ref_sim (D : loc -> Prop) (rho : loc -> loc) (hA hB : heap)
  (l : loc) (k : string) :
  sim D rho hA hB -> D l ->
  only_ref hB (rho l) k = rho <$> only_ref hA l k
  /\ forall l', only_ref hA l k = Some l' -> D l'.
Proof.
  intros Hsim Hl. unfold only_ref.
  destruct (Hsim l Hl) as (o & -> & -> & Hvals).
  destruct o as [[|[k' v] [|? ?]]|elems]; simpl; try done.
  - destruct v as [| | | |l']; simpl; try done.
    destruct (String.eqb k' k); [|done]. split; [done|].
    intros ? [= <-]. simpl in Hvals. by apply Forall_cons in Hvals as [? _].
  - by destruct v.
Qed.

Lemma strings_vmap (rho : loc -> loc) (elems : list val) :
  strings (vmap rho <$> elems) = strings elems.
Proof.
  induction elems as [|v rest IH]; [done|].
  rewrite fmap_cons. destruct v; simpl; try done. by rewrite IH.
Qed.

Lemma openai_ids_iso (hA hB : heap) (vA vB : val) :
  iso hA vA hB vB -> openai_ids hA vA = openai_ids hB vB.
Proof.
  intros (D & rho & Hsim & _ & Hdom & ->).
  destruct vA as [| | | |c]; try done. simpl in Hdom. unfold openai_ids. simpl vmap.
  destruct (only_ref_sim D rho hA hB c "endpoints" Hsim Hdom) as [-> H1].
  destruct (only_ref hA c "endpoints") as [el|]; [|done]. simpl.
  specialize (H1 el eq_refl).
  destruct (only_ref_sim D rho hA hB el "openAI" Hsim H1) as [-> H2].
  destruct (only_ref hA el "openAI") as [ep|]; [|done]. simpl.
  specialize (H2 ep eq_refl).
  destruct (only_ref_sim D rho hA hB ep "models" Hsim H2) as [-> H3].
  destruct (only_ref hA ep "models") as [m|]; [|done]. simpl.
  specialize (H3 m eq_refl).
  destruct (only_ref_sim D rho hA hB m "default" Hsim H3) as [-> H4].
  destruct (only_ref hA m "default") as [d|]; [|done]. simpl.
  specialize (H4 d eq_refl).
  destruct (Hsim d H4) as (o & -> & -> & _).
  destruct o as [items|elems]; simpl; [done|]. by rewrite strings_vmap.
Qed.

Lemma openai_yaml_dump_iso : dump_respects_iso openai_yaml.
Proof.
  intros hA vA hB vB Hiso. simpl. by rewrite (openai_ids_iso hA hB vA vB Hiso).
Qed.

Lemma openai_yaml_reloads : reloads openai_yaml openai_files openai_groups.
Proof.
  intros raw h config h1 content. simpl. intros [= <-].
  intros Hload. vm_compute in Hload. injection Hload as <- <-.
  intros Hupd. vm_compute in Hupd. injection Hupd as <-.
  intros Hdump. vm_compute in Hdump. injection Hdump as <-.
  exists (openai_store ["gpt-5.2-pro"]), (VRef 0). split; [by vm_compute|].
  exists (fun l => l ∈ [0; 1; 2; 3; 5]), (fun l => if decide (l = 5) then 4 else l).
  split; [|split; [|split]].
  - intros l Hl.
    repeat (apply elem_of_cons in Hl as [->|Hl]); [| | | | |by apply elem_of_nil in Hl].
    all: eexists; split; [reflexivity|]; split; [reflexivity|].
    all: repeat constructor; simpl; set_solver.
  - intros l l' Hl Hl' Heq.
    repeat (apply elem_of_cons in Hl as [->|Hl]); try (by apply elem_of_nil in Hl);
      repeat (apply elem_of_cons in Hl' as [->|Hl']); try (by apply elem_of_nil in Hl');
      vm_compute in Heq; congruence.
  - simpl. set_solver.
  - done.
Qed.

(** C4: a second run of the updater with the same provider groups over
    the file produced by the first run leaves the content of the file as
    it is after the first run.  PyYAML is taken with its laws: the loader
    builds a well-formed document, the dumper writes the document and not
    the addresses of its objects, and the content stored by the first run
    is read and loaded back as the document that was dumped. *)
Theorem C4_second_run_same_content (y : Yaml) (fs : Files)
  (pm : Resolver.provider_models) :
  load_well_formed y ->
  dump_respects_iso y ->
  reloads y fs pm ->
  (update_yaml y fs pm).2 = Ok tt ->
  yaml_file (after_update y (after_update y fs pm) pm)
  = yaml_file (after_update y fs pm).
Proof.
  intros Hwf Hdump Hreload. unfold after_update at 2 3.
  destruct (update_yaml y fs pm) as [fs1 r1] eqn:E1. simpl. intros ->.
  unfold update_yaml, read_yaml in E1.
  destruct (yaml_file fs) as [raw|] eqn:Eraw; [|done]. simpl in E1.
  destruct (safe_load y (universal_newlines raw)) as [[h config]|] eqn:Eload; [|done].
  destruct (update_config h config pm) as [h1|] eqn:Erun1; [|done].
  destruct (yaml_open_w fs) as [ex|] eqn:Eopen; [done|].
  destruct (dump y h1 config) as [content|content ex] eqn:Edump; [|done].
  injection E1 as <-.
  destruct (Hwf _ h config Eload) as (Hclosed & Huniq & Hcfg).
  destruct (Hreload raw h config h1 content Eraw Eload Erun1 Edump)
    as (hB & vB & Hload2 & Hiso).
  unfold after_update, update_yaml, read_yaml. simpl.
  rewrite Hload2.
  destruct (update_config hB vB pm) as [hB'|] eqn:Erun2; [|done].
  rewrite Eopen.
  assert (Hsame : dump y hB' vB = dump y h1 config).
  { symmetry. apply Hdump. by apply (second_run_iso h h1 hB hB' config vB pm). }
  by rewrite Hsame, Edump.
Qed.

Lemma C4_second_run_same_content_witness :
  receives openai_groups (openai_store ["gpt-4"]) [("openAI", VRef 2)]
           (VRef 2) ["gpt-5.2-pro"]
  /\ yaml_file (after_update openai_yaml openai_files openai_groups)
     = Ok (openai_text ["gpt-5.2-pro"])
  /\ yaml_file (after_update openai_yaml
                  (after_update openai_yaml openai_files openai_groups)
                  openai_groups)
     = Ok (openai_text ["gpt-5.2-pro"]).
Proof.
  split; [|split].
  - left. exists "openAI". split; [|by split].
    unfold BUILTINS. apply elem_of_cons. by left.
  - by vm_compute.
  - rewrite (C4_second_run_same_content openai_yaml openai_files openai_groups
               openai_yaml_well_formed openai_yaml_dump_iso openai_yaml_reloads).
    + by vm_compute.
    + by vm_compute.
Defined.

End MainFacts.

(** * Further properties *)

(** ** The fetcher: bounds, requests, shapes of the answer *)

Module FetcherMore.

Import Fetcher More.

Lemma record_names_length (items ms : list json) :
  record_names items = Some ms -> length ms = length items.
Proof.
  revert ms. induction items as [|item rest IH]; intros ms; simpl.
  - by intros [= <-].
  - destruct (record_name item) as [m|]; [|done].
    destruct (record_names rest) as [ms'|]; [|done].
    intros [= <-]. simpl. f_equal. by apply IH.
Qed.

(** [record_names] raises exactly when an item is not a record. *)
Lemma record_names_none (items : list json) :
  record_names items = None <-> Exists (fun item => ~ is_record item) items.
Proof.
  induction items as [|item rest IH]; simpl.
  - split; [done|]. intros H. by apply Exists_nil in H.
  - rewrite Exists_cons. destruct item; simpl; try (split; [intros _; left; tauto|done]).
    destruct (truthy (dict_get kvs "model" JNull)).
    + destruct (record_names rest) as [ms|].
      * split; [done|]. intros [H|H]; [tauto|]. by apply IH in H.
      * split; [|done]. intros _. right. by apply IH.
    + destruct (record_names rest) as [ms|].
      * split; [done|]. intros [H|H]; [tauto|]. by apply IH in H.
      * split; [|done]. intros _. right. by apply IH.
Qed.

Lemma fallback_length (e : Env) (ms : list json) :
  (fallback e).1 = Returned ms -> length ms <= TOP_N.
Proof.
  unfold fallback. destruct (page e) as [|[] text]; try done.
  assert (Hnames : forall pre,
            (match findall_model_name e text with
             | [] => (FellThrough, pre ++ [FindallNames])
             | _ :: _ =>
                 (Returned (JStr <$> take TOP_N (findall_model_name e text)),
                  pre ++ [FindallNames])
             end).1 = Returned ms -> length ms <= TOP_N).
  { intros pre. destruct (findall_model_name e text) as [|s l]; [done|].
    cbn [fst].
    assert (Hlen : length (take TOP_N (s :: l)) <= TOP_N) by (rewrite length_take; lia).
    revert Hlen. generalize (take TOP_N (s :: l)). intros tk Hlen [= <-].
    by rewrite length_fmap. }
  destruct (search_next_data e text) as [blob|];
    [destruct (json_loads e blob); [|done]|]; apply Hnames.
Qed.

(** The fetcher never returns more than [TOP_N] names, whichever source
    gave them. *)
Theorem fetch_at_most_top_n (e : Env) :
  length (fetch_leaderboard e).1 <= TOP_N.
Proof.
  pose proof (fallback_length e) as Hfb.
  unfold fetch_leaderboard.
  destruct (primary e) as [[ms| |] t1] eqn:Ep; cbn [fst].
  - unfold primary in Ep.
    destruct (api e) as [|[] text]; try done.
    destruct (json_loads e text) as [[| | | |data|]|]; try done.
    destruct (record_names (take TOP_N data)) as [models|] eqn:Er; [|done].
    injection Ep as <- _.
    etrans; [apply length_filter|].
    rewrite (record_names_length _ _ Er), length_take. lia.
  - destruct (fallback e) as [[ms| |] t2]; cbn [fst] in *; [by apply Hfb|simpl; lia..].
  - destruct (fallback e) as [[ms| |] t2]; cbn [fst] in *; [by apply Hfb|simpl; lia..].
Qed.

(** Every call makes exactly one request to the API and at most one to
    the page: the page is requested once when the first attempt does not
    return, and never when it returns. *)
Theorem fetch_requests (e : Env) :
  occurrences GetApi (fetch_leaderboard e).2 = 1
  /\ occurrences GetPage (fetch_leaderboard e).2
     = (if returned (primary e).1 then 0 else 1).
Proof.
  unfold fetch_leaderboard, primary, fallback.
  destruct (api e) as [|[] text]; simpl.
  2:{ destruct (json_loads e text) as [[| | | |data|]|]; simpl.
      5:{ destruct (record_names (take TOP_N data)); simpl; [done|].
          destruct (page e) as [|[] ptext]; simpl; try done.
          destruct (search_next_data e ptext) as [blob|];
            [destruct (json_loads e blob)|];
            destruct (findall_model_name e ptext); done. }
      all: destruct (page e) as [|[] ptext]; simpl; try done.
      all: destruct (search_next_data e ptext) as [blob|];
            [destruct (json_loads e blob)|];
            destruct (findall_model_name e ptext); done. }
  all: destruct (page e) as [|[] ptext]; simpl; try done.
  all: destruct (search_next_data e ptext) as [blob|];
        [destruct (json_loads e blob)|];
        destruct (findall_model_name e ptext); done.
Qed.

(** An answer of the API that is valid JSON but not an array is no error:
    no warning is printed, and the result is what the page gives. *)
Theorem fetch_json_not_array (e : Env) (text : string) (j : json) :
  api e = Resp true text ->
  json_loads e text = Some j ->
  (forall data, j <> JArr data) ->
  (WarnApiFailed ∉ (fetch_leaderboard e).2)
  /\ (GetPage ∈ (fetch_leaderboard e).2)
  /\ (fetch_leaderboard e).1
     = match (fallback e).1 with Returned ms => ms | _ => [] end.
Proof.
  intros Hapi Hjson Hj. unfold fetch_leaderboard, primary. rewrite Hapi, Hjson.
  assert (Hft : match j with
                | JArr data =>
                    match record_names (take TOP_N data) with
                    | Some models =>
                        (Returned (filter (fun m => truthy m = true) models), [GetApi])
                    | None => (Raised, [GetApi])
                    end
                | _ => (FellThrough, [GetApi])
                end = (FellThrough, [GetApi])).
  { destruct j; try done. by destruct (Hj xs). }
  rewrite Hft. clear Hft.
  unfold fallback. destruct (page e) as [|[] ptext]; simpl.
  1,3: split; [|split; [|done]]; rewrite ?list_elem_of_In; simpl; intuition discriminate.
  destruct (search_next_data e ptext) as [blob|];
    [destruct (json_loads e blob)|];
    destruct (findall_model_name e ptext); simpl.
  all: split; [|split; [|done]]; rewrite ?list_elem_of_In; simpl; intuition discriminate.
Qed.

Lemma fetch_json_not_array_witness :
  (WarnApiFailed ∉ (fetch_leaderboard api_object).2)
  /\ (GetPage ∈ (fetch_leaderboard api_object).2)
  /\ (fetch_leaderboard api_object).1 = [JStr "GPT-5.2 Pro"; JStr "Claude"].
Proof.
  apply (fetch_json_not_array api_object "{...}"
           (JObj [("data", JArr [JObj [("model", JStr "GPT-5.2 Pro")]])])).
  - reflexivity.
  - reflexivity.
  - intros data. discriminate.
Defined.

(** An array with an item that is not a record among its first [TOP_N]
    items makes the first attempt raise: the warning is printed and the
    page is fetched. *)
Theorem fetch_array_not_records (e : Env) (text : string) (data : list json) :
  api e = Resp true text ->
  json_loads e text = Some (JArr data) ->
  Exists (fun item => ~ is_record item) (take TOP_N data) ->
  (primary e).1 = Raised
  /\ (WarnApiFailed ∈ (fetch_leaderboard e).2)
  /\ (GetPage ∈ (fetch_leaderboard e).2).
Proof.
  intros Hapi Hjson Hex. apply record_names_none in Hex.
  assert (Hp : primary e = (Raised, [GetApi])).
  { unfold primary. by rewrite Hapi, Hjson, Hex. }
  unfold fetch_leaderboard. rewrite Hp. split; [done|].
  unfold fallback. destruct (page e) as [|[] ptext]; simpl.
  1,3: split; rewrite list_elem_of_In; simpl; tauto.
  destruct (search_next_data e ptext) as [blob|];
    [destruct (json_loads e blob)|];
    destruct (findall_model_name e ptext); simpl.
  all: split; rewrite list_elem_of_In; simpl; tauto.
Qed.

Lemma fetch_array_not_records_witness :
  (primary api_strings).1 = Raised
  /\ (WarnApiFailed ∈ (fetch_leaderboard api_strings).2)
  /\ (GetPage ∈ (fetch_leaderboard api_strings).2).
Proof.
  apply (fetch_array_not_records api_strings "[...]"
           [JStr "GPT-5.2 Pro"; JStr "Claude"]).
  - reflexivity.
  - reflexivity.
  - apply Exists_cons. left. simpl. tauto.
Defined.

End FetcherMore.

(** ** The mapping table and the resolver *)

Module ResolverMore.

Import Resolver More.

(** A key with the comment marker is never found in the loaded table; any
    other key is found with the entry it has in the file. *)
Theorem load_mapping_lookup (data : mapping) (k : string) :
  assoc k (load_mapping data) =
    if startswith_underscore k then None else assoc k data.
Proof.
  unfold load_mapping, mapping in *. induction data as [|[k0 v0] rest IH].
  - by destruct (startswith_underscore k).
  - rewrite filter_cons. simpl. case_decide as Hk0; simpl.
    + destruct (String.eqb_spec k k0) as [->|Hne].
      * by rewrite Hk0.
      * exact IH.
    + rewrite IH. destruct (startswith_underscore k) eqn:Hk; [done|].
      destruct (String.eqb_spec k k0) as [->|Hne]; [congruence|done].
Qed.

Lemma keys_setdefault_append (p q id : string) (pm : provider_models) :
  q ∈ (fst <$> setdefault_append p id pm) <-> q = p \/ q ∈ (fst <$> pm).
Proof.
  induction pm as [|[p0 ids] rest IH]; cbn [setdefault_append].
  - rewrite fmap_cons, fmap_nil, list_elem_of_singleton. simpl.
    split; [by left|]. intros [?|H]; [done|]. by apply elem_of_nil in H.
  - destruct (String.eqb_spec p p0) as [->|Hne]; rewrite !fmap_cons; simpl.
    + rewrite !elem_of_cons. tauto.
    + rewrite !elem_of_cons, IH. tauto.
Qed.

Lemma NoDup_setdefault_append (p id : string) (pm : provider_models) :
  NoDup (fst <$> pm) -> NoDup (fst <$> setdefault_append p id pm).
Proof.
  induction pm as [|[p0 ids] rest IH]; cbn [setdefault_append].
  - intros _. apply NoDup_singleton.
  - rewrite fmap_cons, NoDup_cons. simpl. intros [Hp0 Hnd].
    destruct (String.eqb_spec p p0) as [->|Hne]; rewrite fmap_cons; simpl.
    + by apply NoDup_cons.
    + apply NoDup_cons. split; [|by apply IH].
      rewrite keys_setdefault_append. intros [?|?]; [by subst|done].
Qed.

Lemma nonempty_setdefault_append (p id : string) (pm : provider_models) :
  Forall (fun g => g.2 <> []) pm ->
  Forall (fun g => g.2 <> []) (setdefault_append p id pm).
Proof.
  induction pm as [|[p0 ids] rest IH]; cbn [setdefault_append].
  - intros _. by repeat constructor.
  - rewrite Forall_cons. simpl. intros [H0 Hrest].
    destruct (String.eqb p p0); constructor; simpl; auto.
    by destruct ids.
Qed.

Lemma total_setdefault_append (p id : string) (pm : provider_models) :
  total_ids (setdefault_append p id pm) = S (total_ids pm).
Proof.
  unfold total_ids. induction pm as [|[p0 ids] rest IH]; cbn [setdefault_append].
  - done.
  - destruct (String.eqb p p0); rewrite !fmap_cons; simpl.
    + rewrite length_app. simpl. lia.
    + rewrite IH. lia.
Qed.

Lemma resolve_from_invariants (m : mapping) (names : list json) :
  forall pm k pm' k',
  resolve_from m names pm k = Ok (pm', k') ->
  NoDup (fst <$> pm) -> Forall (fun g => g.2 <> []) pm ->
  NoDup (fst <$> pm') /\ Forall (fun g => g.2 <> []) pm'
  /\ total_ids pm' + k = total_ids pm + k'.
Proof.
  induction names as [|name rest IH]; intros pm k pm' k'.
  - simpl. by intros [= <- <-].
  - cbn [resolve_from]. unfold mbind, result_bind, bind.
    destruct (lookup_name m name) as [[info|]|]; [| |done].
    + intros Hrun Hnd Hne.
      destruct (IH _ _ _ _ Hrun (NoDup_setdefault_append _ _ _ Hnd)
                  (nonempty_setdefault_append _ _ _ Hne)) as (H1 & H2 & H3).
      split; [done|]. split; [done|].
      rewrite total_setdefault_append in H3. lia.
    + apply IH.
Qed.

(** What the resolver hands to the updater is a well-formed grouping:
    one group per provider, no empty group, and as many ids in all as
    names were matched. *)
Theorem resolve_groups_well_formed (m : mapping) (names : list json)
  (pm : provider_models) (matched : nat) :
  resolve m names = Ok (pm, matched) ->
  NoDup (fst <$> pm)
  /\ Forall (fun g => g.2 <> []) pm
  /\ total_ids pm = matched.
Proof.
  intros Hrun.
  destruct (resolve_from_invariants m names [] 0 pm matched Hrun) as (H1 & H2 & H3).
  - constructor.
  - constructor.
  - split; [done|]. split; [done|]. unfold total_ids in H3 at 2. simpl in H3. lia.
Qed.

Lemma resolve_groups_well_formed_witness :
  NoDup (fst <$> [("openAI", ["gpt-c"; "gpt-a"]); ("google", ["gem-b"])])
  /\ Forall (fun g : string * list string => g.2 <> [])
       [("openAI", ["gpt-c"; "gpt-a"]); ("google", ["gem-b"])]
  /\ total_ids [("openAI", ["gpt-c"; "gpt-a"]); ("google", ["gem-b"])] = 3.
Proof.
  apply (resolve_groups_well_formed
           [("A", mkEntry "openAI" "gpt-a"); ("B", mkEntry "google" "gem-b");
            ("C", mkEntry "openAI" "gpt-c")]
           [JStr "C"; JStr "unknown"; JStr "B"; JStr "A"]).
  reflexivity.
Defined.

(** *** The loop on the parsed file *)

(** The value of a matched name either passes lines 113-115, whatever the
    groups are, or raises there, whatever the groups are. *)
Lemma raw_turn_entry_error (info : json) (pm : raw_groups) :
  match entry_error info with
  | Some ex => raw_turn info pm = Raise ex
  | None => exists pm', raw_turn info pm = Ok pm'
  end.
Proof.
  unfold entry_error, raw_turn, json_getitem, mbind, result_bind, bind.
  destruct info as [| | | | |kvs]; try done.
  destruct (assoc "provider" kvs) as [provider|]; [|done].
  destruct (assoc "model_id" kvs) as [model_id|]; [|by destruct provider].
  destruct provider; try done; by eexists.
Qed.

Lemma resolve_raw_from_ok (m : raw_mapping) (names : list json) :
  Forall (fun n => name_error m n = None) names ->
  forall pm k,
  exists pm', resolve_raw_from m names pm k
              = Ok (pm', k + raw_matches m (name_strings names)).
Proof.
  induction 1 as [|name rest Hname _ IH]; intros pm k.
  - exists pm. unfold raw_matches. simpl. by rewrite Nat.add_0_r.
  - unfold name_strings. cbn [omap list_omap resolve_raw_from].
    fold (name_strings rest). unfold mbind, result_bind, bind.
    destruct name as [| | |s| |]; simpl in Hname; try done;
      cbn [raw_lookup]; try apply IH.
    unfold raw_matches. rewrite filter_cons. fold (raw_matches m (name_strings rest)).
    destruct (assoc s m) as [info|] eqn:Hs.
    + rewrite decide_True by done.
      pose proof (raw_turn_entry_error info pm) as Hturn. rewrite Hname in Hturn.
      destruct Hturn as [pm1 ->].
      destruct (IH pm1 (S k)) as [pm' ->]. exists pm'. simpl. do 2 f_equal.
      fold (raw_matches m (name_strings rest)). lia.
    + rewrite decide_False by (by intros [? ?]). apply IH.
Qed.

Lemma resolve_raw_from_error (m : raw_mapping) (good : list json) (bad : json)
  (rest : list json) (ex : exn) :
  Forall (fun n => name_error m n = None) good ->
  name_error m bad = Some ex ->
  forall pm k, resolve_raw_from m (good ++ bad :: rest) pm k = Raise ex.
Proof.
  intros Hgood Hbad. induction Hgood as [|name good' Hname _ IH]; intros pm k.
  - cbn [app resolve_raw_from]. unfold mbind, result_bind, bind.
    destruct bad as [| | |s| |]; simpl in Hbad; try done; cbn [raw_lookup];
      try by injection Hbad as <-.
    destruct (assoc s m) as [info|]; [|done].
    pose proof (raw_turn_entry_error info pm) as Hturn. rewrite Hbad in Hturn.
    by rewrite Hturn.
  - rewrite <- app_comm_cons. cbn [resolve_raw_from].
    unfold mbind, result_bind, bind.
    destruct name as [| | |s| |]; simpl in Hname; try done;
      cbn [raw_lookup]; try apply IH.
    destruct (assoc s m) as [info|]; [|apply IH].
    pose proof (raw_turn_entry_error info pm) as Hturn. rewrite Hname in Hturn.
    destruct Hturn as [pm1 ->]. apply IH.
Qed.

(** The grouping loop, on the table as the parsed file holds it, raises
    exactly at the first name that is wrong, and with the exception of
    that name: TypeError for a name that is a list or a dict; for a name
    that is a key of the table, TypeError when its value is not an
    object, KeyError when the object has no [provider] or no [model_id],
    TypeError when the provider is a list or a dict.  A number, a truth
    value or null among the names is skipped like an unknown name.  With
    no wrong name the loop returns, and has counted the string names that
    are keys of the table. *)
Theorem resolve_raw_raises_at_first_wrong_name (m : raw_mapping) (names : list json) :
  (Forall (fun n => name_error m n = None) names ->
     exists pm, resolve_raw m names = Ok (pm, raw_matches m (name_strings names)))
  /\ (forall good bad rest ex,
        names = good ++ bad :: rest ->
        Forall (fun n => name_error m n = None) good ->
        name_error m bad = Some ex ->
        resolve_raw m names = Raise ex).
Proof.
  split.
  - intros Hall. destruct (resolve_raw_from_ok m names Hall [] 0) as [pm Hpm].
    by exists pm.
  - intros good bad rest ex -> Hgood Hbad. by apply resolve_raw_from_error.
Qed.

Lemma resolve_raw_raises_at_first_wrong_name_witness :
  resolve_raw table_without_id [JNum 7; JStr "GPT-5.2 Pro"; JStr "Claude"; JArr []]
    = Raise KeyError
  /\ exists pm,
       resolve_raw table_without_id [JNum 7; JStr "GPT-5.2 Pro"; JStr "Gemini"]
       = Ok (pm, 1).
Proof.
  destruct (resolve_raw_raises_at_first_wrong_name table_without_id
              [JNum 7; JStr "GPT-5.2 Pro"; JStr "Claude"; JArr []]) as [_ Hraise].
  destruct (resolve_raw_raises_at_first_wrong_name table_without_id
              [JNum 7; JStr "GPT-5.2 Pro"; JStr "Gemini"]) as [Hok _].
  split.
  - apply (Hraise [JNum 7; JStr "GPT-5.2 Pro"] (JStr "Claude") [JArr []]);
      [reflexivity|by repeat constructor|reflexivity].
  - apply Hok. by repeat constructor.
Defined.

(** *** The data model inside the parsed file *)

Lemma assoc_raw_of (m : mapping) (s : string) :
  assoc s (raw_of m) = entry_json <$> assoc s m.
Proof.
  unfold raw_of. induction m as [|[k en] rest IH]; [done|].
  rewrite fmap_cons. simpl. by destruct (String.eqb s k).
Qed.

Lemma raw_setdefault_append_groups (p id : string) (pm : provider_models) :
  raw_setdefault_append (JStr p) (JStr id) (groups_json pm)
  = groups_json (setdefault_append p id pm).
Proof.
  unfold groups_json. induction pm as [|[p0 ids] rest IH]; [done|].
  rewrite fmap_cons. cbn [raw_setdefault_append setdefault_append key_eqb fst snd].
  destruct (String.eqb p p0); rewrite fmap_cons; simpl.
  - by rewrite fmap_app.
  - by rewrite IH.
Qed.

Lemma resolve_raw_from_typed (m : mapping) (names : list json) :
  forall pm k,
  resolve_raw_from (raw_of m) names (groups_json pm) k
  = Py.rmap (fun r : provider_models * nat => (groups_json r.1, r.2))
            (resolve_from m names pm k).
Proof.
  induction names as [|name rest IH]; intros pm k; [done|].
  cbn [resolve_raw_from resolve_from]. unfold mbind, result_bind, bind.
  destruct name as [| | |s| |]; cbn [raw_lookup lookup_name]; try done;
    try apply IH.
  rewrite assoc_raw_of. destruct (assoc s m) as [en|]; simpl; [|apply IH].
  unfold mbind, result_bind, bind. simpl.
  rewrite raw_setdefault_append_groups. apply IH.
Qed.

(** On a table of the data model, where every value is an object with a
    string [provider] and a string [model_id], the loop on the parsed
    file does what the loop of the data model does: it raises the same
    exception, or returns the same groups and the same count.  No value
    of such a table is wrong, so that there the loop raises for a name
    that is a list or a dict and for nothing else. *)
Theorem resolve_raw_on_data_model (m : mapping) (names : list json) :
  resolve_raw (raw_of m) names
  = Py.rmap (fun r : provider_models * nat => (groups_json r.1, r.2))
            (resolve m names)
  /\ (forall n, name_error (raw_of m) n = None <-> hashable n)
  /\ ((exists ex, resolve_raw (raw_of m) names = Raise ex)
      <-> Exists (fun n => ~ hashable n) names)
  /\ (forall ex, resolve_raw (raw_of m) names = Raise ex -> ex = TypeError).
Proof.
  assert (Hname : forall n, name_error (raw_of m) n = None <-> hashable n).
  { intros n. destruct n as [| | |s| |]; simpl; try done.
    rewrite assoc_raw_of. by destruct (assoc s m). }
  assert (Hok : Forall hashable names ->
                exists pm k, resolve_raw (raw_of m) names = Ok (pm, k)).
  { intros Hall.
    destruct (resolve_raw_from_ok (raw_of m) names) with (pm := @nil (json * list json))
      (k := 0) as [pm' Hpm'].
    - eapply Forall_impl; [exact Hall|]. intros n. by apply Hname.
    - by exists pm', (0 + raw_matches (raw_of m) (name_strings names)). }
  assert (Hbad : Exists (fun n => ~ hashable n) names ->
                 resolve_raw (raw_of m) names = Raise TypeError).
  { intros Hex.
    assert (Hfirst : exists good b rest,
              names = good ++ b :: rest /\ Forall hashable good /\ ~ hashable b).
    { clear -Hex. induction names as [|n rest IH]; [by apply Exists_nil in Hex|].
      destruct (decide (hashable n)) as [Hn|Hn].
      - apply Exists_cons in Hex as [Hex|Hex]; [done|].
        destruct (IH Hex) as (good & b & rest' & -> & Hg & Hb).
        exists (n :: good), b, rest'. split; [done|]. split; [by constructor|done].
      - exists [], n, rest. by repeat split. }
    destruct Hfirst as (good & b & rest & -> & Hgood & Hb).
    apply resolve_raw_from_error.
    - eapply Forall_impl; [exact Hgood|]. intros n. by apply Hname.
    - destruct b as [| | |s| |]; simpl in *; try tauto. }
  assert (Hraises : forall ex, resolve_raw (raw_of m) names = Raise ex ->
                    Exists (fun n => ~ hashable n) names).
  { intros ex Hraise.
    destruct (decide (Forall hashable names)) as [Hall|Hnot].
    - destruct (Hok Hall) as (pm & k & Hrun). congruence.
    - by apply not_Forall_Exists in Hnot; [|apply _]. }
  split; [apply (resolve_raw_from_typed m names [] 0)|]. split; [done|]. split.
  - split; [intros [ex Hraise]; by eapply Hraises|].
    intros Hex. exists TypeError. by apply Hbad.
  - intros ex Hraise. pose proof (Hbad (Hraises ex Hraise)) as Hty. congruence.
Qed.

Lemma resolve_raw_on_data_model_witness :
  resolve_raw (raw_of [("A", mkEntry "openAI" "gpt-a")]) [JNum 7; JStr "A"; JBool true]
    = Ok ([(JStr "openAI", [JStr "gpt-a"])], 1)
  /\ resolve_raw (raw_of [("A", mkEntry "openAI" "gpt-a")]) [JStr "A"; JArr [JStr "A"]]
     = Raise TypeError.
Proof.
  destruct (resolve_raw_on_data_model [("A", mkEntry "openAI" "gpt-a")]
              [JNum 7; JStr "A"; JBool true]) as (Heq & _).
  destruct (resolve_raw_on_data_model [("A", mkEntry "openAI" "gpt-a")]
              [JStr "A"; JArr [JStr "A"]]) as (_ & _ & [_ Hex] & Hty).
  split; [by rewrite Heq|].
  destruct Hex as [ex Hraise].
  - apply Exists_cons. right. apply Exists_cons. left. simpl. tauto.
  - by rewrite Hraise, (Hty ex Hraise).
Defined.

End ResolverMore.

(** ** The updater on any document, shared or not *)

Module UpdaterMore.

Import Py PyFacts LockstepFacts LogFacts More.

(** *** No key is ever removed *)









(** The parts of a completed update. *)
Lemma update_config_inv (h h' : heap) (config : val)
  (pm : list (string * list string)) :
  update_config h config pm = Ok h' ->
  exists endpoints h2 h3 (has_custom : bool),
    py_get ((h ++ lists_of pm) ++ [ODict []]) config "endpoints"
           (VRef (length h + length pm)) = Ok endpoints
    /\ update_builtins (groups_at (length h) pm) endpoints BUILTINS
         ((h ++ lists_of pm) ++ [ODict []]) = Ok h2
    /\ py_contains h2 endpoints "custom" = Ok has_custom
    /\ (if has_custom
        then exists cv entries,
               py_getitem h2 endpoints "custom" = Ok cv
               /\ py_iter h2 cv = Ok entries
               /\ update_customs (groups_at (length h) pm) entries h2 = Ok h3
        else h3 = h2)
    /\ py_setitem h3 config "endpoints" endpoints = Ok h'.
Proof.
  unfold update_config, update_endpoints. rewrite alloc_groups_lists.
  unfold mbind, result_bind, bind.
  assert (Hlen : length (h ++ lists_of pm) = length h + length pm).
  { unfold lists_of. by rewrite length_app, length_fmap. }
  rewrite Hlen.
  destruct (py_get _ config "endpoints" _) as [endpoints|] eqn:Eg; [|done].
  destruct (update_builtins _ endpoints BUILTINS _) as [h2|] eqn:Eb; [|done].
  destruct (py_contains h2 endpoints "custom") as [has_custom|] eqn:Ec; [|done].
  destruct has_custom.
  - destruct (py_getitem h2 endpoints "custom") as [cv|] eqn:Ecv; [|done].
    destruct (py_iter h2 cv) as [entries|] eqn:Ei; [|done].
    destruct (update_customs _ entries h2) as [h3|] eqn:Eu; [|done].
    intros Hset. exists endpoints, h2, h3, true.
    split; [done|]. split; [done|]. split; [done|]. split; [|done].
    by exists cv, entries.
  - intros Hset. by exists endpoints, h2, h2, false.
Qed.






(** *** What a run reads stays readable *)

Lemma nav_kept_getitem (h h' : heap) (c : val) (k : string) :
  nav_kept h h' -> written_key k = false ->
  py_getitem h' c k = py_getitem h c k.
Proof.
  intros Hkept Hk. destruct c as [| | | |l]; try done. simpl.
  specialize (Hkept l).
  destruct (h !! l) as [[items|elems]|], (h' !! l) as [[items'|elems']|];
    simpl in Hkept; try done.
  injection Hkept as Hkept.
  by rewrite <- (assoc_erase k items' Hk), Hkept, assoc_erase.
Qed.

Lemma nav_kept_contains (h h' : heap) (c : val) (k : string) :
  nav_kept h h' -> written_key k = false ->
  py_contains h' c k = py_contains h c k.
Proof.
  intros Hkept Hk. destruct c as [| | | |l]; try done. simpl.
  specialize (Hkept l).
  destruct (h !! l) as [[items|elems]|], (h' !! l) as [[items'|elems']|];
    simpl in Hkept; try done.
  - injection Hkept as Hkept. unfold has_key.
    by rewrite <- (assoc_erase k items' Hk), Hkept, assoc_erase.
  - by injection Hkept as ->.
Qed.

Lemma nav_kept_get (h h' : heap) (c : val) (k : string) (dflt : val) :
  nav_kept h h' -> written_key k = false ->
  py_get h' c k dflt = py_get h c k dflt.
Proof.
  intros Hkept Hk. destruct c as [| | | |l]; try done. simpl.
  specialize (Hkept l).
  destruct (h !! l) as [[items|elems]|], (h' !! l) as [[items'|elems']|];
    simpl in Hkept; try done.
  injection Hkept as Hkept.
  by rewrite <- (assoc_erase k items' Hk), Hkept, assoc_erase.
Qed.

Lemma nav_kept_list (h h' : heap) (l : loc) (elems : list val) :
  nav_kept h h' -> h !! l = Some (OList elems) -> h' !! l = Some (OList elems).
Proof.
  intros Hkept Hl. specialize (Hkept l). rewrite Hl in Hkept.
  destruct (h' !! l) as [[items'|elems']|]; simpl in Hkept; by simplify_eq.
Qed.

(** The store a run starts from: the document, the group lists, and the
    dict made for [config.get]. *)
Lemma start_lookup (h : heap) (pm : list (string * list string)) (l : loc) (o : obj) :
  h !! l = Some o -> ((h ++ lists_of pm) ++ [ODict []]) !! l = Some o.
Proof. intros Hl. by apply lookup_app_l_Some, lookup_app_l_Some. Qed.

Lemma start_beyond (h : heap) (pm : list (string * list string)) (l : loc) (o : obj) :
  h !! l = None -> ((h ++ lists_of pm) ++ [ODict []]) !! l = Some o ->
  o = ODict [] \/ exists elems, o = OList elems.
Proof.
  intros Hl. rewrite <- app_assoc.
  rewrite lookup_app_r by (by apply lookup_ge_None).
  intros [Ho|[_ Ho]]%lookup_app_Some.
  - right. apply lists_of_lookup in Ho as [ids ->]. by eexists.
  - left. apply list_lookup_singleton_Some in Ho as [_ <-]. done.
Qed.

Lemma start_getitem_raise (h : heap) (pm : list (string * list string))
  (e : val) (k : string) :
  is_raise (py_getitem h e k) ->
  is_raise (py_getitem ((h ++ lists_of pm) ++ [ODict []]) e k).
Proof.
  destruct e as [| | | |l]; try done. simpl.
  destruct (h !! l) as [o|] eqn:Hl.
  - by rewrite (start_lookup h pm l o Hl).
  - intros _.
    destruct (((h ++ lists_of pm) ++ [ODict []]) !! l) as [o|] eqn:Ho; [|done].
    by destruct (start_beyond h pm l o Hl Ho) as [->|[elems ->]].
Qed.

(** *** Every turn of a completed loop has returned *)

Lemma update_builtins_turn (gs : list (string * group)) (endpoints : val)
  (b : string) (names : list string) :
  forall h h',
  update_builtins gs endpoints names h = Ok h' -> b ∈ names ->
  exists hb hb' present,
    nav_kept h hb
    /\ py_contains hb endpoints b = Ok present
    /\ match present, assoc b gs with
       | true, Some g =>
           if nonempty g.2 then assign_builtin hb endpoints b g else Ok hb
       | _, _ => Ok hb
       end = Ok hb'.
Proof.
  induction names as [|b0 rest IH]; intros h h' Hrun Hb;
    [by apply elem_of_nil in Hb|].
  cbn [update_builtins] in Hrun. unfold mbind, result_bind, bind in Hrun.
  destruct (py_contains h endpoints b0) as [present|] eqn:Ec; [|done].
  destruct (match present with true => _ | false => _ end) as [h1|] eqn:Es;
    [|done].
  apply elem_of_cons in Hb as [->|Hb].
  - exists h, h1, present. split; [apply nav_kept_refl|done].
  - destruct (IH h1 h' Hrun Hb) as (hb & hb' & p & Hk & Hrest).
    exists hb, hb', p. split; [|done].
    eapply nav_kept_trans; [|exact Hk].
    destruct present, (assoc b0 gs) as [g|]; simplify_eq; try apply nav_kept_refl.
    destruct (nonempty g.2); simplify_eq; [|apply nav_kept_refl].
    by eapply assign_builtin_kept.
Qed.

Lemma update_customs_turn (gs : list (string * group)) (e : val)
  (entries : list val) :
  forall h h',
  update_customs gs entries h = Ok h' -> e ∈ entries ->
  exists he he' name og,
    nav_kept h he
    /\ py_get he e "name" (VStr "") = Ok name
    /\ lookup_group gs name = Ok og
    /\ match og with
       | Some g => if nonempty g.2 then assign_models he e g else Ok he
       | None => Ok he
       end = Ok he'.
Proof.
  induction entries as [|e0 rest IH]; intros h h' Hrun He;
    [by apply elem_of_nil in He|].
  cbn [update_customs] in Hrun. unfold mbind, result_bind, bind in Hrun.
  destruct (py_get h e0 "name" (VStr "")) as [name|] eqn:En; [|done].
  destruct (lookup_group gs name) as [og|] eqn:Eg; [|done].
  destruct (match og with Some _ => _ | None => _ end) as [h1|] eqn:Es; [|done].
  apply elem_of_cons in He as [->|He].
  - exists h, h1, name, og. split; [apply nav_kept_refl|done].
  - destruct (IH h1 h' Hrun He) as (he & he' & n & o & Hk & Hrest).
    exists he, he', n, o. split; [|done].
    eapply nav_kept_trans; [|exact Hk].
    destruct og as [g|]; simplify_eq; [|apply nav_kept_refl].
    destruct (nonempty g.2); simplify_eq; [|apply nav_kept_refl].
    by eapply assign_models_kept.
Qed.

Lemma chars_not_ref (s : string) (l : loc) : VRef l ∉ chars s.
Proof.
  induction s as [|a s IH]; simpl; [apply not_elem_of_nil|].
  apply not_elem_of_cons. by split.
Qed.

(** The group the loops find for a name that has matched ids. *)
Lemma assoc_groups_matched (pm : list (string * list string)) (n : nat)
  (name : string) (ids : list string) :
  matched_ids pm name = Some ids ->
  exists g, assoc name (groups_at n pm) = Some g /\ nonempty g.2 = true.
Proof.
  unfold matched_ids. revert n.
  induction pm as [|[p ids0] rest IH]; intros n; [done|]. simpl.
  destruct (String.eqb name p).
  - destruct (nonempty ids0) eqn:Hne; [|done]. intros _. by eexists.
  - apply IH.
Qed.

(** The loops of a completed update on a document with an [endpoints]
    dict. *)
Lemma update_config_loops (h h' : heap) (c el : loc)
  (eitems : list (string * val)) (pm : list (string * list string)) :
  endpoints_dict h (VRef c) = Some (el, eitems) ->
  update_config h (VRef c) pm = Ok h' ->
  exists h2 h3,
    ((h ++ lists_of pm) ++ [ODict []]) !! el = Some (ODict eitems)
    /\ update_builtins (groups_at (length h) pm) (VRef el) BUILTINS
         ((h ++ lists_of pm) ++ [ODict []]) = Ok h2
    /\ nav_kept ((h ++ lists_of pm) ++ [ODict []]) h2
    /\ match assoc "custom" eitems with
       | Some cv => exists entries,
                      py_iter h2 cv = Ok entries
                      /\ update_customs (groups_at (length h) pm) entries h2 = Ok h3
       | None => h3 = h2
       end.
Proof.
  intros Hdict
    (endpoints & h2 & h3 & has_custom & Hget & Hb & Hc & Hcust & _)%update_config_inv.
  unfold endpoints_dict, field in Hdict.
  destruct (h !! c) as [[citems|]|] eqn:Hc0; try done.
  destruct (assoc "endpoints" citems) as [[| | | |el']|] eqn:Hf; try done.
  destruct (h !! el') as [[eitems'|]|] eqn:Hel; try done.
  injection Hdict as -> ->.
  cbn [py_get] in Hget. rewrite (start_lookup h pm c _ Hc0), Hf in Hget.
  injection Hget as <-.
  pose proof (start_lookup h pm el _ Hel) as Hel1.
  pose proof (update_builtins_kept _ _ _ _ _ Hb) as Hk.
  exists h2, h3. split; [done|]. split; [done|]. split; [done|].
  rewrite (nav_kept_contains _ h2 (VRef el) "custom" Hk) in Hc by done.
  cbn [py_contains] in Hc. rewrite Hel1 in Hc. unfold has_key in Hc.
  destruct (assoc "custom" eitems) as [cv|] eqn:Hcv.
  - injection Hc as <-. destruct Hcust as (cv' & entries & Hgc & Hit & Hcus).
    rewrite (nav_kept_getitem _ h2 (VRef el) "custom" Hk) in Hgc by done.
    cbn [py_getitem] in Hgc. rewrite Hel1, Hcv in Hgc. injection Hgc as <-.
    by exists entries.
  - by injection Hc as <-.
Qed.

Lemma builtin_not_written (b : string) : b ∈ BUILTINS -> written_key b = false.
Proof.
  unfold BUILTINS. intros [->|Hb]%elem_of_cons; [done|].
  apply elem_of_cons in Hb as [->|Hb]; [done|]. by apply elem_of_nil in Hb.
Qed.

(** An endpoint that is to receive ids, and whose [models] cannot be read
    in the loaded document (the endpoint is not a mapping, or it has no
    [models] key), makes the update raise: the block is never created, and
    since the file is written after the update, nothing is written. *)
Theorem update_raises_without_models (h : heap) (c el : loc)
  (eitems : list (string * val)) (pm : list (string * list string))
  (e : val) (ids : list string) :
  endpoints_dict h (VRef c) = Some (el, eitems) ->
  receives pm h eitems e ids ->
  is_raise (py_getitem h e "models") ->
  is_raise (update_config h (VRef c) pm).
Proof.
  intros Hdict Hrec Hraise.
  destruct (update_config h (VRef c) pm) as [h'|ex] eqn:Hrun; [|done].
  destruct (update_config_loops _ _ _ _ _ _ Hdict Hrun)
    as (h2 & h3 & Hel1 & Hb & Hk & Hcust).
  pose proof (start_getitem_raise h pm e "models" Hraise) as Hraise1.
  destruct Hrec as [(b & Hb_in & Hbe & Hids)|[Hin Hids]].
  - destruct (update_builtins_turn _ _ b _ _ _ Hb Hb_in)
      as (hb & hb' & present & Hkb & Hpres & Hturn).
    pose proof (builtin_not_written b Hb_in) as Hwb.
    rewrite (nav_kept_contains _ hb (VRef el) b Hkb Hwb) in Hpres.
    cbn [py_contains] in Hpres. rewrite Hel1 in Hpres. unfold has_key in Hpres.
    rewrite Hbe in Hpres. injection Hpres as <-.
    destruct (assoc_groups_matched pm (length h) b ids Hids) as (g & Hg & Hne).
    rewrite Hg, Hne in Hturn.
    unfold assign_builtin, mbind, result_bind, bind in Hturn.
    rewrite (nav_kept_getitem _ hb (VRef el) b Hkb Hwb) in Hturn.
    cbn [py_getitem] in Hturn. rewrite Hel1, Hbe in Hturn.
    rewrite (nav_kept_getitem _ hb e "models" Hkb) in Hturn by done.
    destruct (py_getitem ((h ++ lists_of pm) ++ [ODict []]) e "models");
      [exact Hraise1|done].
  - unfold custom_entries in Hin.
    destruct (assoc "custom" eitems) as [cv|] eqn:Hcv;
      [|by apply elem_of_nil in Hin].
    destruct (py_iter h cv) as [entries|] eqn:Hit; [|by apply elem_of_nil in Hin].
    destruct Hcust as (entries' & Hit' & Hcus).
    unfold custom_ids in Hids.
    destruct (py_get h e "name" (VStr "")) as [[| | |s|]|] eqn:Hname; try done.
    destruct e as [| | | |ep]; try done. cbn [py_get] in Hname.
    destruct (h !! ep) as [[items|]|] eqn:Hep; try done.
    assert (Hsame : entries' = entries).
    { destruct cv as [| | |s0|cl]; try done; cbn [py_iter] in Hit.
      - injection Hit as <-. by apply chars_not_ref in Hin.
      - destruct (h !! cl) as [[items_c|elems]|] eqn:Hcl; try done;
          injection Hit as <-.
        + apply list_elem_of_fmap in Hin as (kv & ? & _). done.
        + cbn [py_iter] in Hit'.
          rewrite (nav_kept_list _ h2 cl elems Hk (start_lookup h pm cl _ Hcl)) in Hit'.
          by injection Hit' as <-. }
    subst entries'.
    destruct (update_customs_turn _ _ _ _ _ Hcus Hin)
      as (he & he' & name & og & Hke & Hn & Hl & Hturn).
    pose proof (nav_kept_trans _ _ _ Hk Hke) as Hk1.
    rewrite (nav_kept_get _ he (VRef ep) "name" _ Hk1) in Hn by done.
    cbn [py_get] in Hn. rewrite (start_lookup h pm ep _ Hep) in Hn.
    rewrite Hname in Hn. injection Hn as <-.
    cbn [lookup_group] in Hl. injection Hl as <-.
    destruct (assoc_groups_matched pm (length h) s ids Hids) as (g & Hg & Hne).
    rewrite Hg, Hne in Hturn.
    unfold assign_models, mbind, result_bind, bind in Hturn.
    rewrite (nav_kept_getitem _ he (VRef ep) "models" Hk1) in Hturn by done.
    destruct (py_getitem ((h ++ lists_of pm) ++ [ODict []]) (VRef ep) "models");
      [exact Hraise1|done].
Qed.

Lemma update_raises_without_models_witness :
  is_raise (update_config no_models (VRef 0) [("anthropic", ["claude-a"])]).
Proof.
  apply (update_raises_without_models no_models 0 1 no_models_endpoints
           [("anthropic", ["claude-a"])] (VRef 5) ["claude-a"]).
  - reflexivity.
  - left. exists "anthropic". split; [|by split].
    unfold BUILTINS. apply elem_of_cons. right. apply elem_of_cons. by left.
  - exact I.
Defined.

(** A [custom] key that holds no list of mappings makes the update raise:
    a value that cannot be iterated ([custom:] left empty, a number, a
    boolean) fails at the [for] of line 81, and a list entry that is not a
    mapping fails at its [get] of line 82. *)
Theorem update_raises_on_custom (h : heap) (c el : loc)
  (eitems : list (string * val)) (pm : list (string * list string)) (cv : val) :
  endpoints_dict h (VRef c) = Some (el, eitems) ->
  assoc "custom" eitems = Some cv ->
  not_iterable cv
  \/ (exists cl entries e,
        cv = VRef cl /\ h !! cl = Some (OList entries)
        /\ e ∈ entries /\ not_mapping h e) ->
  is_raise (update_config h (VRef c) pm).
Proof.
  intros Hdict Hcv Hbad.
  destruct (update_config h (VRef c) pm) as [h'|ex] eqn:Hrun; [|done].
  destruct (update_config_loops _ _ _ _ _ _ Hdict Hrun)
    as (h2 & h3 & Hel1 & Hb & Hk & Hcust).
  rewrite Hcv in Hcust. destruct Hcust as (entries' & Hit & Hcus).
  destruct Hbad as [Hbad|(cl & entries & e & -> & Hcl & He & Hnm)].
  - by destruct cv.
  - cbn [py_iter] in Hit.
    rewrite (nav_kept_list _ h2 cl entries Hk (start_lookup h pm cl _ Hcl)) in Hit.
    injection Hit as <-.
    destruct (update_customs_turn _ _ _ _ _ Hcus He)
      as (he & he' & name & og & Hke & Hn & _).
    pose proof (nav_kept_trans _ _ _ Hk Hke) as Hk1.
    destruct e as [| | | |l]; try done.
    destruct Hnm as [elems Hl]. cbn [py_get] in Hn.
    by rewrite (nav_kept_list _ he l elems Hk1 (start_lookup h pm l _ Hl)) in Hn.
Qed.

Lemma update_raises_on_custom_witness :
  is_raise (update_config null_custom (VRef 0) [("openAI", ["gpt-a"])])
  /\ is_raise (update_config string_entry (VRef 0) [("Google", ["gemini-a"])]).
Proof.
  split.
  - apply (update_raises_on_custom null_custom 0 1 null_custom_endpoints
             [("openAI", ["gpt-a"])] VNone); [reflexivity|reflexivity|].
    by left.
  - apply (update_raises_on_custom string_entry 0 1 [("custom", VRef 2)]
             [("Google", ["gemini-a"])] (VRef 2)); [reflexivity|reflexivity|].
    right. exists 2, [VStr "Google"], (VStr "Google").
    split; [done|]. split; [done|]. split; [|done].
    apply elem_of_cons. by left.
Defined.

(** *** A document without an [endpoints] key *)

Lemma set_item_absent (k : string) (v : val) (items : list (string * val)) :
  assoc k items = None -> set_item k v items = items ++ [(k, v)].
Proof.
  induction items as [|[k0 v0] rest IH]; simpl; [done|].
  destruct (String.eqb k k0); [done|]. intros H. by rewrite IH.
Qed.

Lemma update_builtins_empty_dict (gs : list (string * group)) (el : loc)
  (names : list string) (h : heap) :
  h !! el = Some (ODict []) -> update_builtins gs (VRef el) names h = Ok h.
Proof.
  intros Hel. induction names as [|b rest IH]; [done|].
  cbn [update_builtins py_contains]. rewrite Hel. exact IH.
Qed.

(** When the root mapping of the document has no [endpoints] key, the
    update returns: the dict made for [config.get] becomes the value of a
    new key [endpoints], which goes last in the root mapping; every other
    object of the document is left as it was. *)
Theorem update_without_endpoints (h : heap) (c : loc)
  (citems : list (string * val)) (pm : list (string * list string)) :
  h !! c = Some (ODict citems) ->
  assoc "endpoints" citems = None ->
  update_config h (VRef c) pm =
    Ok (<[c := ODict (citems ++ [("endpoints", VRef (length h + length pm))])]>
          ((h ++ lists_of pm) ++ [ODict []])).
Proof.
  intros Hc Hno. unfold update_config. rewrite alloc_groups_lists.
  assert (Hlen : length (h ++ lists_of pm) = length h + length pm).
  { unfold lists_of. by rewrite length_app, length_fmap. }
  pose proof (start_lookup h pm c _ Hc) as Hc1.
  assert (Hnew : ((h ++ lists_of pm) ++ [ODict []]) !! (length h + length pm)
                 = Some (ODict [])).
  { rewrite <- Hlen. by rewrite lookup_app_r, Nat.sub_diag. }
  unfold mbind, result_bind, bind. cbn [py_get]. rewrite Hc1, Hno, Hlen.
  unfold update_endpoints, mbind, result_bind, bind.
  rewrite update_builtins_empty_dict by done.
  cbn [py_contains py_setitem]. rewrite Hnew. cbn [has_key assoc].
  rewrite Hc1. by rewrite set_item_absent.
Qed.

Lemma update_without_endpoints_witness :
  update_config no_endpoints (VRef 0) [("openAI", ["gpt-a"])] =
    Ok [ ODict [("version", VStr "1.2.1"); ("cache", VBool true);
                ("endpoints", VRef 2)];
         OList [VStr "gpt-a"];
         ODict [] ].
Proof.
  rewrite (update_without_endpoints no_endpoints 0
             [("version", VStr "1.2.1"); ("cache", VBool true)]
             [("openAI", ["gpt-a"])]); reflexivity.
Defined.

End UpdaterMore.

(** ** More on the run *)

Module MainMore.

Import Py Main More.

(** A loaded document that is no mapping (an empty file loads as [None],
    a file holding a sequence as a list) stops the updater at
    [config.get] with an AttributeError, before the file is opened for
    writing. *)
Theorem update_yaml_not_mapping (y : Yaml) (fs : Files)
  (pm : Resolver.provider_models) (raw : string) (h : heap) (config : val) :
  yaml_file fs = Ok raw ->
  safe_load y (universal_newlines raw) = Some (h, config) ->
  not_mapping h config ->
  (update_yaml y fs pm).2 = Raise AttributeError
  /\ after_update y fs pm = fs.
Proof.
  intros Hraw Hload Hnm.
  assert (Hrun : update_yaml y fs pm = (fs, Raise AttributeError)).
  { unfold update_yaml, read_yaml. rewrite Hraw. simpl. rewrite Hload.
    unfold update_config. rewrite LogFacts.alloc_groups_lists.
    unfold mbind, result_bind, bind.
    destruct config as [| | | |l]; try done.
    destruct Hnm as [elems Hl]. cbn [py_get].
    by rewrite (UpdaterMore.start_lookup h pm l _ Hl). }
  unfold after_update. by rewrite Hrun.
Qed.

Lemma update_yaml_not_mapping_witness :
  (update_yaml empty_file (mkFiles (Raise OSError) (Ok "") None)
     [("openAI", ["gpt-a"])]).2
    = Raise AttributeError
  /\ after_update empty_file (mkFiles (Raise OSError) (Ok "") None)
                  [("openAI", ["gpt-a"])]
     = mkFiles (Raise OSError) (Ok "") None.
Proof.
  apply (update_yaml_not_mapping empty_file (mkFiles (Raise OSError) (Ok "") None)
           [("openAI", ["gpt-a"])] "" [] VNone); done.
Defined.


End MainMore.
